(** * Environment discovery pipeline: provider adapter and reducer

    A shallow embedding of [src/client/pythonEnvironments/converter.ts]
    (the provider adapter, [ConvertLocator]) and of the reducer that the
    same file carries ([PythonEnvsReducer], [iterEnvsIterator],
    [resolveDifferencesInBackground], [resolveEnvCollision],
    [sortEnvInfoByPriority], [getTopKind]).

    JavaScript values are modelled as follows.
    - a [number] used as a counter or an index is a [Z];
    - a string is a [string]; a value that may be [undefined] is an [option];
    - an array is a [list]; [a[i]] is a lookup that answers [None] out of
      range, [a[i] = v] on an index in range is stdpp's list insert;
    - an object that is mutated in place is threaded explicitly: a function
      that mutates an argument returns the argument's new contents next to
      its result;
    - the event emitter and the generator are a state machine whose steps
      return what they emit, in order. *)

From Stdlib Require Import ZArith Lia.
From stdpp Require Import base decidable option list strings sorting.

Local Open Scope string_scope.
Local Open Scope list_scope.
Local Open Scope Z_scope.

(** ** Library routines the code calls *)

Section ArraySort.
Context {A : Type}.
Variable isUndefined : A -> bool.
Variable comparefn : A -> A -> Z.

(** One insertion step of the sort, on the already sorted prefix kept in
    reverse ([rs], last element first): the new element [x] moves left past
    every element [y] with [comparefn x y < 0]. The comparator is called on
    the later element first, as V8 calls it; for a consistent comparator the
    outcome does not depend on that. *)
Fixpoint insertFromRight (x : A) (rs : list A) : list A :=
  match rs with
  | [] => [x]
  | y :: rs' => if comparefn x y <? 0 then y :: insertFromRight x rs' else x :: rs
  end.

Definition sortDefined (l : list A) : list A :=
  rev (fold_left (fun rs x => insertFromRight x rs) l []).

(** [Array.prototype.sort(comparefn)]: a stable sort of the defined elements,
    the [undefined] ones are moved to the end and never reach [comparefn]. *)
Definition Array_sort (l : list A) : list A :=
  sortDefined (List.filter (fun x => negb (isUndefined x)) l)
  ++ List.filter isUndefined l.

End ArraySort.

Section Lodash.
Context {A : Type} `{EqDecision A}.

(** [_.uniq]: the first occurrence of every value, in order. *)
Definition lodash_uniq (l : list A) : list A :=
  fold_left (fun acc x => if decide (x ∈ acc) then acc else acc ++ [x]) l [].

(** [_.union(a1, a2, ...)]: the unique values of all arrays, in order. *)
Definition lodash_union (arrays : list (list A)) : list A :=
  lodash_uniq (concat arrays).

(** [_.isEqual] on plain data is structural equality. *)
Definition lodash_isEqual (x y : A) : bool := bool_decide (x = y).

(** [_.cloneDeep]: a copy with the same contents. *)
Definition lodash_cloneDeep (x : A) : A := x.

End Lodash.

(** [arr.findIndex(p)]: the first index whose element satisfies [p], or -1. *)
Fixpoint findIndexFrom {A : Type} (p : A -> bool) (l : list A) (i : Z) : Z :=
  match l with
  | [] => -1
  | x :: l' => if p x then i else findIndexFrom p l' (i + 1)
  end.

Definition findIndex {A : Type} (p : A -> bool) (l : list A) : Z :=
  findIndexFrom p l 0.

(** [arr[i]] for a number [i]: [undefined] unless [i] is an index in range. *)
Definition at_index {A : Type} (l : list A) (i : Z) : option A :=
  if 0 <=? i then l !! Z.to_nat i else None.

(** ** Data model *)

(** [PythonEnvKind] is a string enumeration, and [convertKind] below is a
    cast: at run time a kind is whatever string the producer supplied, or
    [undefined] ([None]) when it was read past the end of an array. *)
Definition PythonEnvKind : Type := option string.

(** Modelled from the spec: the members of the [PythonEnvKind] enumeration
    are declared in base/info, which is not among the sources. The spec names
    a closed enumeration with the members Unknown, Venv, System and a
    conda-style kind. *)
Definition PythonEnvKind_Unknown : PythonEnvKind := Some "unknown".
Definition PythonEnvKind_System : PythonEnvKind := Some "global-system".
Definition PythonEnvKind_Venv : PythonEnvKind := Some "virt-venv".
Definition PythonEnvKind_Conda : PythonEnvKind := Some "virt-conda".

Definition PythonEnvKind_members : list PythonEnvKind :=
  [PythonEnvKind_Unknown; PythonEnvKind_System; PythonEnvKind_Venv; PythonEnvKind_Conda].

(** The record a third-party provider yields. [EnvInfo] is declared in
    base/locator, which is not among the sources; the fields are those the
    adapter reads. *)
Record EnvInfo : Type := mkEnvInfo {
  eExecutablePath : string;
  eEnvPath : string;
  envSources : list string }.

(** The spec's RawRecord, with the fields [convertToBasicEnv] writes. *)
Record BasicEnvInfo : Type := mkBasicEnvInfo {
  bExecutablePath : string;
  bEnvPath : string;
  bKind : PythonEnvKind;
  bExtensionId : string }.

(** The spec's MergedRecord: the fields of a raw record, [kind] now an array,
    and [source], which is optional in the code ([oldEnv.source ?? []]). *)
Record CompositeEnvInfo : Type := mkCompositeEnvInfo {
  executablePath : string;
  envPath : string;
  kind : list PythonEnvKind;
  source : option (list string);
  extensionId : string }.

#[global] Instance EnvInfo_eq_dec : EqDecision EnvInfo.
Proof. solve_decision. Defined.
#[global] Instance BasicEnvInfo_eq_dec : EqDecision BasicEnvInfo.
Proof. solve_decision. Defined.
#[global] Instance CompositeEnvInfo_eq_dec : EqDecision CompositeEnvInfo.
Proof. solve_decision. Defined.

Definition set_kind (ks : list PythonEnvKind) (e : CompositeEnvInfo) : CompositeEnvInfo :=
  mkCompositeEnvInfo (executablePath e) (envPath e) ks (source e) (extensionId e).

Definition set_source (s : option (list string)) (e : CompositeEnvInfo) : CompositeEnvInfo :=
  mkCompositeEnvInfo (executablePath e) (envPath e) (kind e) s (extensionId e).

(** The identity of a record: the pair the deduplication compares. *)
Definition identity (e : CompositeEnvInfo) : string * string :=
  (executablePath e, envPath e).

(** Modelled from the spec: [areSameEnv] lives in base/info/env, which is not
    among the sources. Two records denote the same environment when they have
    the same executablePath and the same envPath. *)
Definition areSameEnv (a b : CompositeEnvInfo) : bool :=
  bool_decide (identity a = identity b).

(** Modelled from the spec: [convertBasicToComposite] lives in base/locator,
    which is not among the sources. A raw record becomes a merged record
    with source = {providerId} and kind = {kind}. *)
Definition convertBasicToComposite (env : BasicEnvInfo) : CompositeEnvInfo :=
  {| executablePath := bExecutablePath env;
     envPath := bEnvPath env;
     kind := [bKind env];
     source := Some [bExtensionId env];
     extensionId := bExtensionId env |}.

(** ** Provider adapter: kind translation and record conversion *)

Definition convertKind (source : option string) : PythonEnvKind := source.

(** [ConvertLocator.convertToBasicEnv]; [extId] is [this.metadata.extensionId]. *)
Definition convertToBasicEnv (extId : string) (env : EnvInfo) : BasicEnvInfo :=
  {| bExecutablePath := eExecutablePath env;
     bEnvPath := eEnvPath env;
     bKind := convertKind (envSources env !! 0%nat);
     bExtensionId := extId |}.

(** ** Reducer: collision resolution *)

Section Collision.

(** The two comparators come from base/info/envKind, which is not among the
    sources; they are parameters of everything below. *)
Variable sortKindFunction : PythonEnvKind -> PythonEnvKind -> Z.
Variable sortExtensionSource : string -> string -> Z.

Definition isUndefinedKind (k : PythonEnvKind) : bool :=
  match k with None => true | Some _ => false end.

(** [kinds.sort(sortKindFunction)]: the array after the in-place sort. *)
Definition sortKinds (kinds : list PythonEnvKind) : list PythonEnvKind :=
  Array_sort isUndefinedKind sortKindFunction kinds.

(** [getTopKind]: the value returned, and the argument array as the call
    leaves it (sorted in place). *)
Definition getTopKind (kinds : list PythonEnvKind) : PythonEnvKind * list PythonEnvKind :=
  let sorted := sortKinds kinds in
  (mjoin (sorted !! 0%nat), sorted).

(** The comparator of [sortEnvInfoByPriority], as a function of the
    environments it is called on. *)
Definition comparePriority (a b : CompositeEnvInfo) : Z :=
  let kindDiff := sortKindFunction (getTopKind (kind a)).1 (getTopKind (kind b)).1 in
  if negb (kindDiff =? 0) then kindDiff
  else sortExtensionSource (extensionId a) (extensionId b).

(** What the comparator leaves behind in an environment it was called on. *)
Definition kindsSortedInPlace (e : CompositeEnvInfo) : CompositeEnvInfo :=
  set_kind (getTopKind (kind e)).2 e.

(** [sortEnvInfoByPriority(...envs)]: the sorted array. With two
    environments, the only way it is called, the comparator runs once, on
    both, and sorts the [kind] array of each in place; with fewer it does not
    run. *)
Definition sortEnvInfoByPriority (envs : list CompositeEnvInfo) : list CompositeEnvInfo :=
  let sorted := Array_sort (fun _ => false) comparePriority envs in
  match envs with
  | _ :: _ :: _ => kindsSortedInPlace <$> sorted
  | _ => sorted
  end.

(** The base of the merge: the new record when the comparator, called on it
    and the old one, prefers it; the old record otherwise. Either way with
    its kinds sorted. *)
Definition mergeBase (oldEnv newEnv : CompositeEnvInfo) : CompositeEnvInfo :=
  if comparePriority newEnv oldEnv <? 0 then kindsSortedInPlace newEnv
  else kindsSortedInPlace oldEnv.

(** The outcome of [resolveEnvCollision]: the record returned, and the two
    argument objects as the call leaves them. *)
Record Collision : Type := mkCollision {
  merged : CompositeEnvInfo;
  oldAfter : CompositeEnvInfo;
  newAfter : CompositeEnvInfo }.

Definition sourceOrEmpty (e : CompositeEnvInfo) : list string :=
  default [] (source e).

Definition resolveEnvCollision (oldEnv newEnv : CompositeEnvInfo) : Collision :=
  let sorted := sortEnvInfoByPriority [oldEnv; newEnv] in
  let oldEnv' := kindsSortedInPlace oldEnv in
  let newEnv' := kindsSortedInPlace newEnv in
  (* const [env] = ...: the array has two elements, the default is not used *)
  let env := default oldEnv' (sorted !! 0%nat) in
  let merged0 := lodash_cloneDeep env in
  let merged1 :=
    set_source (Some (lodash_union [sourceOrEmpty oldEnv'; sourceOrEmpty newEnv'])) merged0 in
  let merged2 :=
    set_kind (lodash_union [kind merged1; kind oldEnv'; kind newEnv']) merged1 in
  {| merged := merged2; oldAfter := oldEnv'; newAfter := newEnv' |}.

End Collision.

(** An instance of the two comparators for the examples: the kind order of
    the spec's scenario, in which Venv outranks System, as positions in a
    priority list (a kind that is not listed has position -1), and provider
    identifiers compared as equal. *)
Definition examplePriority : list PythonEnvKind :=
  [PythonEnvKind_Conda; PythonEnvKind_Venv; PythonEnvKind_System; PythonEnvKind_Unknown].

Definition indexOf (k : PythonEnvKind) (l : list PythonEnvKind) : Z :=
  findIndex (fun x => bool_decide (x = k)) l.

Definition exampleSortKind (m n : PythonEnvKind) : Z :=
  indexOf m examplePriority - indexOf n examplePriority.

Definition exampleSortExtension (a b : string) : Z := 0.

(** ** Streams: notifications, the completion state and the generator *)

(** Modelled from the spec: [ProgressReportStage] is declared in base/locator,
    which is not among the sources. A progress event is Started or Finished. *)
Inductive ProgressReportStage : Type := discoveryStarted | discoveryFinished.

(** What a notification source delivers: a progress event, or an update event
    [{ index, old, update }]. *)
Inductive Notification (T : Type) : Type :=
| ProgressNotificationEvent (stage : ProgressReportStage)
| PythonEnvUpdatedEvent (index : Z) (old : option T) (update : option T).
Arguments ProgressNotificationEvent {T} stage.
Arguments PythonEnvUpdatedEvent {T} index old update.

(** What a stage lets out, in the order it happens. *)
Inductive Output (I O : Type) : Type :=
| Yielded (env : O)                    (* a value of the primary sequence *)
| Fired (e : Notification O)           (* delivered by [didUpdate.fire] *)
| Logged (old : option I) (index : Z)  (* [traceVerbose] *)
| Raised (msg : string).               (* an [Error] thrown out of the listener *)
Arguments Yielded {I O} env.
Arguments Fired {I O} e.
Arguments Logged {I O} old index.
Arguments Raised {I O} msg.

(** Where the generator function stands between two turns of the event loop. *)
Inductive Generator (O : Type) : Type :=
| NotStarted                        (* created, [next()] not called yet *)
| AwaitingNext                      (* at [await iterator.next()] *)
| SuspendedAtYield (currEnv : O)    (* at [yield currEnv], before [seen.push] *)
| Returned.
Arguments NotStarted {O}.
Arguments AwaitingNext {O}.
Arguments SuspendedAtYield {O} currEnv.
Arguments Returned {O}.

(** The variables one call of [iterEnvsIterator] closes over: [state.done],
    [state.pending], [seen], whether the listener on the upstream
    notification source is registered, and whether [didUpdate] is disposed. *)
Record Stage (O : Type) : Type := mkStage {
  done : bool;
  pending : Z;
  seen : list O;
  listening : bool;
  disposed : bool;
  generator : Generator O }.
Arguments mkStage {O}.
Arguments done {O}.
Arguments pending {O}.
Arguments seen {O}.
Arguments listening {O}.
Arguments disposed {O}.
Arguments generator {O}.

(** What can happen to a stage: the consumer calls [next()], the upstream
    [next()] settles with a value or with [done], the upstream notification
    source fires. *)
Inductive Action (I : Type) : Type :=
| Pull
| UpstreamValue (v : I)
| UpstreamDone
| UpstreamEvent (e : Notification I).
Arguments Pull {I}.
Arguments UpstreamValue {I} v.
Arguments UpstreamDone {I}.
Arguments UpstreamEvent {I} e.

Inductive Completion : Type := Normal | Throw (msg : string).

Section StageState.
Context {I O : Type}.

Definition set_done (b : bool) (s : Stage O) : Stage O :=
  mkStage b (pending s) (seen s) (listening s) (disposed s) (generator s).
Definition set_pending (p : Z) (s : Stage O) : Stage O :=
  mkStage (done s) p (seen s) (listening s) (disposed s) (generator s).
Definition set_seen (l : list O) (s : Stage O) : Stage O :=
  mkStage (done s) (pending s) l (listening s) (disposed s) (generator s).
Definition set_listening (b : bool) (s : Stage O) : Stage O :=
  mkStage (done s) (pending s) (seen s) b (disposed s) (generator s).
Definition set_disposed (b : bool) (s : Stage O) : Stage O :=
  mkStage (done s) (pending s) (seen s) (listening s) b (generator s).
Definition set_generator (g : Generator O) (s : Stage O) : Stage O :=
  mkStage (done s) (pending s) (seen s) (listening s) (disposed s) g.

(** A piece of code of the stage: the new state and what it let out. *)
Definition Eff : Type := Stage O -> Stage O * list (Output I O).

Definition skip : Eff := fun s => (s, []).
Definition modify (f : Stage O -> Stage O) : Eff := fun s => (f s, []).
Definition emit (o : Output I O) : Eff := fun s => (s, [o]).
Definition andThen (f g : Eff) : Eff := fun s =>
  let '(s1, o1) := f s in
  let '(s2, o2) := g s1 in
  (s2, o1 ++ o2).

End StageState.

Notation "f >>> g" := (andThen f g) (at level 61, left associativity).

Section Stage.
Context {I O : Type}.

(** Modelled from the spec: [EventEmitter] is the editor's, not among the
    sources. [fire] delivers the event; once the emitter is disposed (the
    channel is closed) nothing is delivered any more. *)
Definition fire (e : Notification O) : @Eff I O := fun s =>
  if disposed s then skip s else emit (Fired e) s.

Definition dispose : @Eff I O := modify (set_disposed true).

Definition checkIfFinishedAndNotify : @Eff I O := fun s =>
  if done s && (pending s =? 0)
  then (fire (ProgressNotificationEvent discoveryFinished) >>> dispose) s
  else skip s.

Definition unsupportedUndefinedUpdate : string :=
  "Unsupported behavior: `undefined` environment updates are not supported from downstream locators in reducer".

(** [convertItem] is [this.convertToBasicEnv] in the adapter and
    [convertBasicToComposite] in the reducer. *)
Variable convertItem : I -> O.

(** The listener between [state.pending += 1] and [state.pending -= 1]:
    what it does, or the message of the error it throws. *)
Definition dispatch (event : Notification I) (s : Stage O)
  : Stage O * list (Output I O) + string :=
  match event with
  | ProgressNotificationEvent stage =>
      match stage with
      | discoveryFinished =>
          (* state.done = true; listener.dispose() *)
          inl (modify (fun s => set_listening false (set_done true s)) s)
      | _ => inl (fire (ProgressNotificationEvent stage) s)
      end
  | PythonEnvUpdatedEvent index old None => inr unsupportedUndefinedUpdate
  | PythonEnvUpdatedEvent index old (Some update) =>
      match at_index (seen s) index with
      | Some oldEnv =>
          inl ((modify (set_seen (<[Z.to_nat index := convertItem update]> (seen s))) >>>
                fire (PythonEnvUpdatedEvent index (Some oldEnv) (Some (convertItem update)))) s)
      | None => inl (emit (Logged old index) s)
      end
  end.

(** The callback registered with [iterator.onUpdated]. When it throws, the
    statements after the throw do not run. *)
Definition listener (event : Notification I) (s : Stage O)
  : Stage O * list (Output I O) * Completion :=
  let s1 := set_pending (pending s + 1) s in
  match dispatch event s1 with
  | inl (s2, o2) =>
      let '(s3, o3) :=
        (modify (fun s => set_pending (pending s - 1) s) >>> checkIfFinishedAndNotify) s2 in
      (s3, o2 ++ o3, Normal)
  | inr msg => (s1, [], Throw msg)
  end.

(** The upstream source fires: the listener runs if it is registered. An
    error the listener throws goes to the caller, the upstream [fire]; it
    is recorded. *)
Definition deliver (event : Notification I) : @Eff I O := fun s =>
  if listening s then
    let '(s', o, c) := listener event s in
    (s', o ++ match c with Throw msg => [Raised msg] | Normal => [] end)
  else skip s.

(** [yield currEnv]: the value goes out and the generator is suspended. *)
Definition yield (currEnv : O) : @Eff I O :=
  emit (Yielded currEnv) >>> modify (set_generator (SuspendedAtYield currEnv)).

(** [hasOnUpdated] is [iterator.onUpdated !== undefined]; [loopBody] is the
    body of the [while] loop up to its [yield], on the converted value. *)
Variable hasOnUpdated : bool.
Variable loopBody : O -> @Eff I O.

(** From the first [next()] to the first [await iterator.next()]. *)
Definition prologue : @Eff I O :=
  (if hasOnUpdated then modify (set_listening true)
   else fire (ProgressNotificationEvent discoveryStarted)) >>>
  modify (set_generator AwaitingNext).

(** From [yield] to the next [await iterator.next()]: [seen.push(currEnv)]. *)
Definition resume (currEnv : O) : @Eff I O :=
  modify (fun s => set_generator AwaitingNext (set_seen (seen s ++ [currEnv]) s)).

(** After the loop. *)
Definition epilogue : @Eff I O :=
  (if hasOnUpdated then skip
   else modify (set_done true) >>> checkIfFinishedAndNotify) >>>
  modify (set_generator Returned).

(** One turn. [None]: the action cannot happen where the generator stands
    (no upstream result arrives unless the generator awaits one; the consumer
    asks for the next value once it has the previous one). *)
Definition step (a : Action I) (s : Stage O) : option (Stage O * list (Output I O)) :=
  match a, generator s with
  | Pull, NotStarted => Some (prologue s)
  | Pull, SuspendedAtYield currEnv => Some (resume currEnv s)
  | Pull, Returned => Some (skip s)
  | UpstreamValue v, AwaitingNext => Some (loopBody (convertItem v) s)
  | UpstreamDone, AwaitingNext => Some (epilogue s)
  | UpstreamEvent e, _ => Some (deliver e s)
  | _, _ => None
  end.

Fixpoint runFrom (s : Stage O) (acts : list (Action I)) : option (Stage O * list (Output I O)) :=
  match acts with
  | [] => Some (s, [])
  | a :: rest =>
      match step a s with
      | None => None
      | Some (s1, o1) =>
          match runFrom s1 rest with
          | None => None
          | Some (s2, o2) => Some (s2, o1 ++ o2)
          end
      end
  end.

Definition initial : Stage O :=
  {| done := false; pending := 0; seen := []; listening := false;
     disposed := false; generator := NotStarted |}.

Definition run (acts : list (Action I)) : option (Stage O * list (Output I O)) :=
  runFrom initial acts.

End Stage.

(** ** The two stages *)

Module ConvertLocator.

(** The adapter's loop body: [yield currEnv]. *)
Definition loopBody : BasicEnvInfo -> @Eff EnvInfo BasicEnvInfo := yield.

Definition iterEnvsIterator (extId : string) (hasOnUpdated : bool)
  : list (Action EnvInfo) -> option (Stage BasicEnvInfo * list (Output EnvInfo BasicEnvInfo)) :=
  run (convertToBasicEnv extId) hasOnUpdated loopBody.

End ConvertLocator.

Module PythonEnvsReducer.
Section Reducer.
Variable sortKindFunction : PythonEnvKind -> PythonEnvKind -> Z.
Variable sortExtensionSource : string -> string -> Z.

(** [resolveDifferencesInBackground]: an [async] function without an
    [await], so it runs to its end when it is called. Reading [oldEnv.kind]
    of a missing entry would reject the promise, which [ignoreErrors()]
    swallows. The entry at [oldIndex] is the object whose [kind] array
    [resolveEnvCollision] sorts in place. *)
Definition resolveDifferencesInBackground (oldIndex : Z) (newEnv : CompositeEnvInfo)
  : @Eff BasicEnvInfo CompositeEnvInfo := fun s =>
  let s1 := set_pending (pending s + 1) s in
  match at_index (seen s1) oldIndex with
  | None => skip s1
  | Some oldEnv0 =>
      let r := resolveEnvCollision sortKindFunction sortExtensionSource oldEnv0 newEnv in
      let oldEnv := oldAfter r in
      let s2 := set_seen (<[Z.to_nat oldIndex := oldEnv]> (seen s1)) s1 in
      ((if negb (lodash_isEqual oldEnv (merged r))
        then modify (fun s => set_seen (<[Z.to_nat oldIndex := merged r]> (seen s)) s) >>>
             fire (PythonEnvUpdatedEvent oldIndex (Some oldEnv) (Some (merged r)))
        else skip) >>>
       modify (fun s => set_pending (pending s - 1) s) >>>
       checkIfFinishedAndNotify) s2
  end.

(** The reducer's loop body. *)
Definition loopBody (currEnv : CompositeEnvInfo) : @Eff BasicEnvInfo CompositeEnvInfo := fun s =>
  let oldIndex := findIndex (fun x => areSameEnv x currEnv) (seen s) in
  if negb (oldIndex =? -1)
  then resolveDifferencesInBackground oldIndex currEnv s
  else yield currEnv s.

Definition iterEnvsIterator (hasOnUpdated : bool)
  : list (Action BasicEnvInfo)
    -> option (Stage CompositeEnvInfo * list (Output BasicEnvInfo CompositeEnvInfo)) :=
  run convertBasicToComposite hasOnUpdated loopBody.

End Reducer.
End PythonEnvsReducer.

(** A stage of the pipeline: the types of the records it receives and lets
    out, its record conversion and its loop body. *)
Record StageImpl : Type := mkStageImpl {
  Incoming : Type;
  Outgoing : Type;
  convertOf : Incoming -> Outgoing;
  loopBodyOf : Outgoing -> @Eff Incoming Outgoing }.

Definition adapterStage (extId : string) : StageImpl :=
  {| convertOf := convertToBasicEnv extId; loopBodyOf := ConvertLocator.loopBody |}.

Definition reducerStage (sortKindFunction : PythonEnvKind -> PythonEnvKind -> Z)
    (sortExtensionSource : string -> string -> Z) : StageImpl :=
  {| convertOf := convertBasicToComposite;
     loopBodyOf := PythonEnvsReducer.loopBody sortKindFunction sortExtensionSource |}.

(** The stages the sources define: the adapter and the reducer. *)
Inductive PipelineStage : StageImpl -> Prop :=
| IsAdapter (extId : string) : PipelineStage (adapterStage extId)
| IsReducer (sortKindFunction : PythonEnvKind -> PythonEnvKind -> Z)
    (sortExtensionSource : string -> string -> Z) :
    PipelineStage (reducerStage sortKindFunction sortExtensionSource).

Definition stageStep (st : StageImpl) (hasOnUpdated : bool) :=
  step (convertOf st) hasOnUpdated (loopBodyOf st).
Definition stageRunFrom (st : StageImpl) (hasOnUpdated : bool) :=
  runFrom (convertOf st) hasOnUpdated (loopBodyOf st).
Definition stageRun (st : StageImpl) (hasOnUpdated : bool) :=
  run (convertOf st) hasOnUpdated (loopBodyOf st).

(** ** Observations on a run *)

Section Observations.
Context {I O : Type}.

Definition isFinished (o : Output I O) : bool :=
  match o with
  | Fired (ProgressNotificationEvent discoveryFinished) => true
  | _ => false
  end.

Definition isRaised (o : Output I O) : bool :=
  match o with Raised _ => true | _ => false end.

Definition isLogged (o : Output I O) : bool :=
  match o with Logged _ _ => true | _ => false end.

(** A value of the primary sequence or an update notification. *)
Definition isData (o : Output I O) : bool :=
  match o with
  | Yielded _ => true
  | Fired (PythonEnvUpdatedEvent _ _ _) => true
  | _ => false
  end.

(** How many times Finished was delivered. *)
Definition finishedCount (outs : list (Output I O)) : nat :=
  length (List.filter isFinished outs).

Definition raisedCount (outs : list (Output I O)) : nat :=
  length (List.filter isRaised outs).

Definition withoutLogs (outs : list (Output I O)) : list (Output I O) :=
  List.filter (fun o => negb (isLogged o)) outs.

(** The primary sequence. *)
Definition yields (outs : list (Output I O)) : list O :=
  omap (fun o => match o with Yielded e => Some e | _ => None end) outs.

(** The values the upstream primary sequence delivered. *)
Definition values (acts : list (Action I)) : list I :=
  omap (fun a => match a with UpstreamValue v => Some v | _ => None end) acts.

Definition isUpdate (a : Action I) : bool :=
  match a with UpstreamEvent (PythonEnvUpdatedEvent _ _ _) => true | _ => false end.

Definition isFinishedEvent (a : Action I) : bool :=
  match a with
  | UpstreamEvent (ProgressNotificationEvent discoveryFinished) => true
  | _ => false
  end.

(** The upstream notification source delivers no update event. *)
Definition noUpdates (acts : list (Action I)) : bool :=
  forallb (fun a => negb (isUpdate a)) acts.

(** The upstream notification source never delivers Finished. *)
Definition noFinishedEvent (acts : list (Action I)) : bool :=
  forallb (fun a => negb (isFinishedEvent a)) acts.

End Observations.

Definition basicIdentity (v : BasicEnvInfo) : string * string :=
  (bExecutablePath v, bEnvPath v).


(** The position, in the reducer's buffer, of the record that the upstream
    yielded at position [i]. *)
Definition ownIndexOf (upstream : list BasicEnvInfo) (buffer : list CompositeEnvInfo) (i : Z)
  : option Z :=
  v ← at_index upstream i;
  Some (findIndex (fun x => areSameEnv x (convertBasicToComposite v)) buffer).

(** Two values compare equal under a comparator. *)
Definition comparesEqual {T : Type} (cmp : T -> T -> Z) (a b : T) : Prop :=
  cmp a b = 0 /\ cmp b a = 0.

Section StageNotions.
Context {I O : Type}.
Variable hasOnUpdated : bool.


(** The check after the last change of the completion state has run. *)
Definition Settled (s : Stage O) : Prop :=
  done s = true -> pending s = 0 -> disposed s = true.

(** What the loop body of a stage may do: it leaves the completion state,
    the listener and the emitter as they are, it ends at the next
    [await iterator.next()] or at a [yield], and it lets out values and
    update notifications only. *)
Definition LoopBodyFrame (loopBody : O -> @Eff I O) : Prop :=
  forall env s s' o,
    loopBody env s = (s', o) ->
    generator s = AwaitingNext ->
    Settled s ->
    done s' = done s /\ pending s' = pending s /\ listening s' = listening s
    /\ disposed s' = disposed s
    /\ (generator s' = AwaitingNext \/ exists e, generator s' = SuspendedAtYield e)
    /\ forallb isData o = true.

(** The invariant of a stage, with what it has let out so far. *)
Record StageInv (s : Stage O) (outs : list (Output I O)) : Prop := mkStageInv {
  inv_pending : pending s = Z.of_nat (raisedCount outs);
  inv_finished : finishedCount outs = if disposed s then 1%nat else 0%nat;
  inv_disposed : disposed s = true <-> done s = true /\ pending s = 0;
  inv_listening : listening s = true ->
    hasOnUpdated = true /\ done s = false /\ generator s <> NotStarted;
  inv_plain : hasOnUpdated = false ->
    pending s = 0 /\ (done s = true <-> generator s = Returned);
  inv_fresh : generator s = NotStarted -> done s = false }.

(** The action on which a stage sets its [done] flag: the upstream's own
    Finished when there is an upstream notification source, the exhaustion of
    the upstream sequence when there is none. *)
Definition completingAction : Action I :=
  if hasOnUpdated then UpstreamEvent (ProgressNotificationEvent discoveryFinished)
  else UpstreamDone.

(** What a stage has yielded and not lost sight of: its buffer, and the
    value of a [yield] whose [seen.push] is still to come. *)
Definition emitted (s : Stage O) : list O :=
  seen s ++ match generator s with SuspendedAtYield e => [e] | _ => [] end.

End StageNotions.


(** ** Consistent comparators *)

Section Comparators.
Context {T : Type}.
Variable cmp : T -> T -> Z.

(** What [Array.prototype.sort] asks of its comparator: [a] before [b]
    exactly when [b] after [a], and the order is transitive. *)
Definition ComparatorAntisymmetric : Prop :=
  forall a b, cmp a b < 0 <-> 0 < cmp b a.

Definition ComparatorTransitive : Prop :=
  forall a b c, cmp a b <= 0 -> cmp b c <= 0 -> cmp a c <= 0.

Definition ConsistentComparator : Prop :=
  ComparatorAntisymmetric /\ ComparatorTransitive.

(** [y] may stand before [x]: the comparator does not put [x] first. *)
Definition mayPrecede (y x : T) : Prop := 0 <= cmp x y.

End Comparators.


(** ** The shape of a turn *)

Section TurnShape.
Context {I O : Type}.
Variable hasOnUpdated : bool.

Definition isYielded (o : Output I O) : bool :=
  match o with Yielded _ => true | _ => false end.

Definition isStarted (o : Output I O) : bool :=
  match o with
  | Fired (ProgressNotificationEvent discoveryStarted) => true
  | _ => false
  end.

(** How many times Started was delivered. *)
Definition startedCount (outs : list (Output I O)) : nat :=
  length (List.filter isStarted outs).

Definition isStartedEvent (a : Action I) : bool :=
  match a with
  | UpstreamEvent (ProgressNotificationEvent discoveryStarted) => true
  | _ => false
  end.

(** What the loop body of a stage lets out: it yields the converted value
    and suspends, or it keeps the length of the buffer and delivers at most
    one update notification, for a position of the buffer and with both
    records defined, and none once the emitter is disposed. *)
Definition LoopBodyShape (loopBody : O -> @Eff I O) : Prop :=
  forall env s s' o,
    loopBody env s = (s', o) ->
    generator s = AwaitingNext ->
    Settled s ->
    (s' = set_generator (SuspendedAtYield env) s /\ o = [Yielded env])
    \/ (generator s' = AwaitingNext
        /\ length (seen s') = length (seen s)
        /\ (o = []
            \/ disposed s = false
               /\ exists index oldEnv update,
                    o = [Fired (PythonEnvUpdatedEvent index (Some oldEnv) (Some update))]
                    /\ 0 <= index < Z.of_nat (length (seen s)))).

(** What a stage keeps track of, with what it has let out so far: the
    buffer and a value suspended at [yield] are as many as the values
    yielded; the listener is registered from the first [next()] until
    upstream's Finished; every update notification delivered carries two
    records and the index of a value yielded before it. *)
Record StageTrack (s : Stage O) (outs : list (Output I O)) : Prop := mkStageTrack {
  track_length : length (emitted s) = length (yields outs);
  track_suspended : forall currEnv,
    generator s = SuspendedAtYield currEnv -> last (yields outs) = Some currEnv;
  track_listening :
    hasOnUpdated = true -> generator s <> NotStarted -> done s = false -> listening s = true;
  track_fresh : generator s = NotStarted -> s = initial /\ outs = [];
  track_started : hasOnUpdated = false ->
    startedCount outs = match generator s with NotStarted => 0%nat | _ => 1%nat end
    /\ (generator s <> NotStarted ->
        head outs = Some (Fired (ProgressNotificationEvent discoveryStarted)));
  track_indices : forall o1 index old update o2,
    outs = o1 ++ Fired (PythonEnvUpdatedEvent index old update) :: o2 ->
    (exists oldEnv newEnv, old = Some oldEnv /\ update = Some newEnv)
    /\ 0 <= index < Z.of_nat (length (yields o1)) }.

End TurnShape.

(** ** What the reducer has collected *)

(** The buffer holds one entry for every environment among the values
    [upstream], and an entry's kinds and sources are those the values of its
    environment carry. *)
Record Collected (upstream : list BasicEnvInfo) (buffer : list CompositeEnvInfo) : Prop :=
  mkCollected {
    collected_distinct : NoDup (identity <$> buffer);
    collected_every : forall v, v ∈ upstream -> basicIdentity v ∈ identity <$> buffer;
    collected_kinds : forall x k, x ∈ buffer ->
      (k ∈ kind x <-> exists v, v ∈ upstream /\ basicIdentity v = identity x /\ bKind v = k);
    collected_sources : forall x src, x ∈ buffer ->
      (src ∈ sourceOrEmpty x
       <-> exists v, v ∈ upstream /\ basicIdentity v = identity x /\ bExtensionId v = src) }.

(** A value or an update notification of the adapter whose records are all
    attributed to the provider [extId]. *)
Definition attributed (extId : string) (x : Output EnvInfo BasicEnvInfo) : Prop :=
  match x with
  | Yielded env => bExtensionId env = extId
  | Fired (PythonEnvUpdatedEvent _ old update) =>
      (forall env, old = Some env -> bExtensionId env = extId)
      /\ (forall env, update = Some env -> bExtensionId env = extId)
  | _ => True
  end.

(** ** What a consumer can reconstruct *)

Section Replay.
Context {I O : Type}.

(** A consumer that keeps the values it is given, in order, and applies
    every update notification at the notification's index. *)
Definition replayOne (l : list O) (x : Output I O) : list O :=
  match x with
  | Yielded env => l ++ [env]
  | Fired (PythonEnvUpdatedEvent index _ (Some update)) =>
      if 0 <=? index then <[Z.to_nat index := update]> l else l
  | _ => l
  end.

Definition replay (outs : list (Output I O)) : list O :=
  fold_left replayOne outs [].

(** What the loop body of a stage does to such a consumer: the consumer's
    list stays related to the buffer. For a [strict] stage this is required
    only while the emitter is not disposed. *)
Definition LoopBodyView (strict : bool) (R : O -> O -> Prop) (loopBody : O -> @Eff I O) : Prop :=
  forall env s s' o l,
    loopBody env s = (s', o) ->
    generator s = AwaitingNext ->
    Settled s ->
    (strict = true -> disposed s = false) ->
    Forall2 R l (seen s) ->
    Forall2 R (fold_left replayOne o l) (emitted s').

End Replay.

(** Two merged records that differ at most in the order of their kinds. *)
Definition sameUpToKindOrder (x y : CompositeEnvInfo) : Prop :=
  executablePath x = executablePath y
  /\ envPath x = envPath y
  /\ source x = source y
  /\ extensionId x = extensionId y
  /\ kind x ≡ₚ kind y.

(** ** Example data *)

Definition venv39 : BasicEnvInfo :=
  mkBasicEnvInfo "/usr/bin/python3.9" "" PythonEnvKind_Venv "producerA".
Definition system39 : BasicEnvInfo :=
  mkBasicEnvInfo "/usr/bin/python3.9" "" PythonEnvKind_System "producerB".
Definition system310 : BasicEnvInfo :=
  mkBasicEnvInfo "/usr/bin/python3.10" "" PythonEnvKind_System "producerB".
Definition conda39 : BasicEnvInfo :=
  mkBasicEnvInfo "/usr/bin/python3.9" "" PythonEnvKind_Conda "producerA".
Definition unknown39 : BasicEnvInfo :=
  mkBasicEnvInfo "/usr/bin/python3.9" "" PythonEnvKind_Unknown "producerB".

Definition external39 : EnvInfo :=
  mkEnvInfo "/usr/bin/python3.9" "" ["virt-venv"; "global-system"].

(** A merged record whose kinds are not in priority order. *)
Definition unsorted39 : CompositeEnvInfo :=
  mkCompositeEnvInfo "/usr/bin/python3.9" ""
    [PythonEnvKind_System; PythonEnvKind_Venv] (Some ["producerB"]) "producerB".

Definition exampleReducer :=
  PythonEnvsReducer.iterEnvsIterator exampleSortKind exampleSortExtension.

(** Three records of two environments, from an upstream without a
    notification source, consumed to the end. *)
Definition distinctTrace : list (Action BasicEnvInfo) :=
  [Pull; UpstreamValue venv39; Pull; UpstreamValue system39;
   UpstreamValue system310; Pull; UpstreamDone].


(** The upstream yields venv39, system39 and system310: the reducer collapses
    the first two into one entry. *)
Definition collapsingTrace : list (Action BasicEnvInfo) :=
  [Pull; UpstreamValue venv39; Pull; UpstreamValue system39;
   UpstreamValue system310; Pull].

Definition venv311 : BasicEnvInfo :=
  mkBasicEnvInfo "/usr/bin/python3.11" "" PythonEnvKind_Venv "producerA".

(** Three environments, all yielded and buffered. *)
Definition threeYielded : list (Action BasicEnvInfo) :=
  [Pull; UpstreamValue venv39; Pull; UpstreamValue system310; Pull;
   UpstreamValue venv311; Pull].

Definition external310 : EnvInfo :=
  mkEnvInfo "/usr/bin/python3.10" "" ["global-system"].
Definition external311 : EnvInfo :=
  mkEnvInfo "/usr/bin/python3.11" "/opt/envs/py311" ["virt-conda"].


(** Two records of one environment: the second one is merged into the first. *)
Definition mergingTrace : list (Action BasicEnvInfo) :=
  [Pull; UpstreamValue venv39; Pull; UpstreamValue system39].

(** The upstream fires Finished while its sequence is still open. *)
Definition earlyFinishedTrace : list (Action BasicEnvInfo) :=
  [Pull; UpstreamValue venv39; Pull;
   UpstreamEvent (ProgressNotificationEvent discoveryFinished)].

(** A producer without a notification source, consumed to the end. *)
Definition plainProviderTrace : list (Action EnvInfo) :=
  [Pull; UpstreamValue external39; Pull; UpstreamValue external310; Pull; UpstreamDone].

(** * Properties *)

(** ** The library routines *)

Section ArraySortFacts.
Context {A : Type}.
Variable isUndefined : A -> bool.
Variable comparefn : A -> A -> Z.

Lemma insertFromRight_perm (x : A) (rs : list A) :
  insertFromRight comparefn x rs ≡ₚ x :: rs.
Proof.
  induction rs as [|y rs IH]; simpl; [done|].
  destruct (comparefn x y <? 0); [|done].
  rewrite IH. apply Permutation_swap.
Qed.

Lemma fold_insert_perm (l acc : list A) :
  fold_left (fun rs x => insertFromRight comparefn x rs) l acc ≡ₚ l ++ acc.
Proof.
  revert acc. induction l as [|x l IH]; intros acc; simpl; [done|].
  rewrite IH, insertFromRight_perm. by rewrite Permutation_middle.
Qed.

Lemma sortDefined_perm (l : list A) : sortDefined comparefn l ≡ₚ l.
Proof.
  unfold sortDefined. rewrite <- Permutation_rev, fold_insert_perm.
  by rewrite app_nil_r.
Qed.

Lemma filter_split_perm (p : A -> bool) (l : list A) :
  List.filter (fun x => negb (p x)) l ++ List.filter p l ≡ₚ l.
Proof.
  induction l as [|x l IH]; simpl; [done|].
  destruct (p x); simpl.
  - rewrite <- Permutation_middle. by rewrite IH.
  - by rewrite IH.
Qed.

Lemma Array_sort_perm (l : list A) : Array_sort isUndefined comparefn l ≡ₚ l.
Proof.
  unfold Array_sort. rewrite sortDefined_perm. apply filter_split_perm.
Qed.

Lemma elem_of_Array_sort (x : A) (l : list A) :
  x ∈ Array_sort isUndefined comparefn l <-> x ∈ l.
Proof. by rewrite Array_sort_perm. Qed.

(** Two elements, none undefined: the later one goes first exactly when the
    comparator, called on it and the earlier one, answers a negative number. *)
Lemma Array_sort_two (a b : A) :
  isUndefined a = false -> isUndefined b = false ->
  Array_sort isUndefined comparefn [a; b]
  = if comparefn b a <? 0 then [b; a] else [a; b].
Proof.
  intros Ha Hb. unfold Array_sort, sortDefined. simpl.
  rewrite Ha, Hb. simpl. by destruct (comparefn b a <? 0).
Qed.

End ArraySortFacts.

Section LodashFacts.
Context {A : Type} `{EqDecision A}.

Lemma elem_of_uniq_fold (x : A) (l acc : list A) :
  x ∈ fold_left (fun acc x => if decide (x ∈ acc) then acc else acc ++ [x]) l acc
  <-> x ∈ acc \/ x ∈ l.
Proof.
  revert acc. induction l as [|y l IH]; intros acc; simpl.
  - rewrite elem_of_nil. tauto.
  - rewrite IH, elem_of_cons. destruct (decide (y ∈ acc)) as [Hy|Hy].
    + split; [tauto|]. intros [?|[->|?]]; tauto.
    + rewrite elem_of_app, list_elem_of_singleton. tauto.
Qed.

Lemma elem_of_lodash_uniq (x : A) (l : list A) : x ∈ lodash_uniq l <-> x ∈ l.
Proof.
  unfold lodash_uniq. rewrite elem_of_uniq_fold, elem_of_nil. tauto.
Qed.

Lemma elem_of_lodash_union2 (x : A) (l1 l2 : list A) :
  x ∈ lodash_union [l1; l2] <-> x ∈ l1 \/ x ∈ l2.
Proof.
  unfold lodash_union. rewrite elem_of_lodash_uniq. simpl.
  rewrite app_nil_r, elem_of_app. tauto.
Qed.

Lemma elem_of_lodash_union3 (x : A) (l1 l2 l3 : list A) :
  x ∈ lodash_union [l1; l2; l3] <-> x ∈ l1 \/ x ∈ l2 \/ x ∈ l3.
Proof.
  unfold lodash_union. rewrite elem_of_lodash_uniq. simpl.
  rewrite app_nil_r, !elem_of_app. tauto.
Qed.

End LodashFacts.

(** ** Collision resolution *)

Section CollisionFacts.
Variable sortKindFunction : PythonEnvKind -> PythonEnvKind -> Z.
Variable sortExtensionSource : string -> string -> Z.

Abbreviation resolve := (resolveEnvCollision sortKindFunction sortExtensionSource).
Abbreviation inPlace := (kindsSortedInPlace sortKindFunction).
Abbreviation priority := (comparePriority sortKindFunction sortExtensionSource).
Abbreviation base := (mergeBase sortKindFunction sortExtensionSource).

Lemma elem_of_sortKinds (k : PythonEnvKind) (ks : list PythonEnvKind) :
  k ∈ sortKinds sortKindFunction ks <-> k ∈ ks.
Proof. apply elem_of_Array_sort. Qed.

Lemma sortEnvInfoByPriority_head (oldEnv newEnv : CompositeEnvInfo) :
  default (inPlace oldEnv)
    (sortEnvInfoByPriority sortKindFunction sortExtensionSource [oldEnv; newEnv] !! 0%nat)
  = base oldEnv newEnv.
Proof.
  unfold sortEnvInfoByPriority, mergeBase.
  rewrite Array_sort_two by done.
  by destruct (priority newEnv oldEnv <? 0).
Qed.

Lemma resolveEnvCollision_unfold (oldEnv newEnv : CompositeEnvInfo) :
  resolve oldEnv newEnv =
  let b := base oldEnv newEnv in
  {| merged :=
       {| executablePath := executablePath b;
          envPath := envPath b;
          kind := lodash_union [kind b; kind (inPlace oldEnv); kind (inPlace newEnv)];
          source := Some (lodash_union [sourceOrEmpty oldEnv; sourceOrEmpty newEnv]);
          extensionId := extensionId b |};
     oldAfter := inPlace oldEnv;
     newAfter := inPlace newEnv |}.
Proof.
  unfold resolveEnvCollision. rewrite sortEnvInfoByPriority_head. reflexivity.
Qed.

Lemma mergeBase_cases (oldEnv newEnv : CompositeEnvInfo) :
  base oldEnv newEnv = inPlace oldEnv \/ base oldEnv newEnv = inPlace newEnv.
Proof. unfold mergeBase. destruct (priority newEnv oldEnv <? 0); auto. Qed.

Lemma elem_of_merged_kind (k : PythonEnvKind) (oldEnv newEnv : CompositeEnvInfo) :
  k ∈ kind (merged (resolve oldEnv newEnv)) <-> k ∈ kind oldEnv \/ k ∈ kind newEnv.
Proof.
  rewrite resolveEnvCollision_unfold. cbn [merged kind].
  rewrite elem_of_lodash_union3.
  destruct (mergeBase_cases oldEnv newEnv) as [-> | ->]; cbn [kindsSortedInPlace set_kind kind getTopKind snd];
    rewrite !elem_of_sortKinds; tauto.
Qed.

Lemma elem_of_merged_source (x : string) (oldEnv newEnv : CompositeEnvInfo) :
  x ∈ sourceOrEmpty (merged (resolve oldEnv newEnv))
  <-> x ∈ sourceOrEmpty oldEnv \/ x ∈ sourceOrEmpty newEnv.
Proof.
  rewrite resolveEnvCollision_unfold. cbn [merged sourceOrEmpty source default].
  apply elem_of_lodash_union2.
Qed.

(** The merge keeps the identity of a record when both operands have it. *)
Lemma merged_identity (oldEnv newEnv : CompositeEnvInfo) :
  areSameEnv oldEnv newEnv = true ->
  identity (merged (resolve oldEnv newEnv)) = identity oldEnv.
Proof.
  intros Hsame. apply bool_decide_eq_true in Hsame.
  rewrite resolveEnvCollision_unfold. unfold identity in *. cbn [merged executablePath envPath].
  destruct (mergeBase_cases oldEnv newEnv) as [-> | ->]; simpl; congruence.
Qed.

Lemma oldAfter_identity (oldEnv newEnv : CompositeEnvInfo) :
  identity (oldAfter (resolve oldEnv newEnv)) = identity oldEnv.
Proof. by rewrite resolveEnvCollision_unfold. Qed.

(** What the call leaves in its operands: the same records with their kind
    arrays sorted. *)
Lemma resolveEnvCollision_operands (oldEnv newEnv : CompositeEnvInfo) :
  oldAfter (resolve oldEnv newEnv) = set_kind (sortKinds sortKindFunction (kind oldEnv)) oldEnv
  /\ newAfter (resolve oldEnv newEnv) = set_kind (sortKinds sortKindFunction (kind newEnv)) newEnv.
Proof. by rewrite resolveEnvCollision_unfold. Qed.

(** C3 (merge commutativity and idempotence): for records A and B with the
    same identity, resolveEnvCollision(A,B) and resolveEnvCollision(B,A) have
    the same elements in their source arrays and the same elements in their
    kind arrays, and resolveEnvCollision(A,A) has the same source elements and
    the same kind elements as A, whatever the order inside the arrays. *)
Theorem resolveEnvCollision_commutative_idempotent (A B : CompositeEnvInfo) :
  areSameEnv A B = true ->
  (forall x, x ∈ sourceOrEmpty (merged (resolve A B)) <-> x ∈ sourceOrEmpty (merged (resolve B A)))
  /\ (forall k, k ∈ kind (merged (resolve A B)) <-> k ∈ kind (merged (resolve B A)))
  /\ (forall x, x ∈ sourceOrEmpty (merged (resolve A A)) <-> x ∈ sourceOrEmpty A)
  /\ (forall k, k ∈ kind (merged (resolve A A)) <-> k ∈ kind A).
Proof.
  intros _. repeat split; intros H;
    rewrite ?elem_of_merged_source, ?elem_of_merged_kind in *; tauto.
Qed.

(** C10 (a tie keeps the first-seen record as the base): when the best kinds
    of the two records compare equal under the kind order and their extension
    identifiers compare equal, resolveEnvCollision takes the old record as the
    base, so every field of the result other than source and kind is the old
    record's. *)
Theorem resolveEnvCollision_tie_keeps_old (oldEnv newEnv : CompositeEnvInfo) :
  comparesEqual sortKindFunction
    (getTopKind sortKindFunction (kind oldEnv)).1
    (getTopKind sortKindFunction (kind newEnv)).1 ->
  comparesEqual sortExtensionSource (extensionId oldEnv) (extensionId newEnv) ->
  base oldEnv newEnv = inPlace oldEnv
  /\ executablePath (merged (resolve oldEnv newEnv)) = executablePath oldEnv
  /\ envPath (merged (resolve oldEnv newEnv)) = envPath oldEnv
  /\ extensionId (merged (resolve oldEnv newEnv)) = extensionId oldEnv.
Proof.
  intros [_ Hkind] [_ Hext].
  assert (Hbase : base oldEnv newEnv = inPlace oldEnv).
  { unfold mergeBase, comparePriority. rewrite Hkind. simpl. by rewrite Hext. }
  rewrite resolveEnvCollision_unfold. cbn zeta. rewrite Hbase. done.
Qed.

End CollisionFacts.

(** ** The completion state of a stage *)

Section ObservationFacts.
Context {I O : Type}.
Implicit Types outs o : list (Output I O).

Lemma finishedCount_app outs o :
  finishedCount (outs ++ o) = (finishedCount outs + finishedCount o)%nat.
Proof. unfold finishedCount. by rewrite List.filter_app, length_app. Qed.

Lemma raisedCount_app outs o :
  raisedCount (outs ++ o) = (raisedCount outs + raisedCount o)%nat.
Proof. unfold raisedCount. by rewrite List.filter_app, length_app. Qed.

Lemma yields_app outs o : yields (outs ++ o) = yields outs ++ yields o.
Proof. apply omap_app. Qed.

Lemma withoutLogs_app outs o : withoutLogs (outs ++ o) = withoutLogs outs ++ withoutLogs o.
Proof. apply List.filter_app. Qed.

Lemma data_not_finished o : forallb isData o = true -> finishedCount o = 0%nat.
Proof.
  induction o as [|x o IH]; [done|]. simpl. intros [Hx Ho]%andb_prop.
  unfold finishedCount in *. simpl.
  destruct x as [|[[]|]| |]; simpl in *; try done; by apply IH.
Qed.

Lemma data_not_raised o : forallb isData o = true -> raisedCount o = 0%nat.
Proof.
  induction o as [|x o IH]; [done|]. simpl. intros [Hx Ho]%andb_prop.
  unfold raisedCount in *. simpl.
  destruct x as [|[[]|]| |]; simpl in *; try done; by apply IH.
Qed.

End ObservationFacts.

Section StageFacts.
Context {I O : Type}.
Variable convertItem : I -> O.
Variable hasOnUpdated : bool.
Variable loopBody : O -> @Eff I O.

Abbreviation stepS := (step convertItem hasOnUpdated loopBody).
Abbreviation runFromS := (runFrom convertItem hasOnUpdated loopBody).
Abbreviation runS := (run convertItem hasOnUpdated loopBody).

Hypothesis loopBody_frame : LoopBodyFrame loopBody.

Abbreviation Inv := (@StageInv I O hasOnUpdated).

Lemma Inv_initial : Inv initial [].
Proof. split; simpl; try done; intuition congruence. Qed.

Lemma runFrom_app (s : Stage O) (l1 l2 : list (Action I)) :
  runFromS s (l1 ++ l2) =
  match runFromS s l1 with
  | Some (s1, o1) =>
      match runFromS s1 l2 with
      | Some (s2, o2) => Some (s2, o1 ++ o2)
      | None => None
      end
  | None => None
  end.
Proof.
  revert s. induction l1 as [|a l1 IH]; intros s; simpl.
  - by destruct (runFromS s l2) as [[]|].
  - destruct (stepS a s) as [[s1 o1]|]; [|done].
    rewrite IH. destruct (runFromS s1 l1) as [[s2 o2]|]; [|done].
    destruct (runFromS s2 l2) as [[s3 o3]|]; [|done].
    by rewrite app_assoc.
Qed.

Lemma checkIfFinishedAndNotify_unfold (s : Stage O) :
  @checkIfFinishedAndNotify I O s =
  if done s && (pending s =? 0)
  then (set_disposed true s, if disposed s then [] else [Fired (ProgressNotificationEvent discoveryFinished)])
  else (s, []).
Proof.
  unfold checkIfFinishedAndNotify, andThen, fire, dispose, modify, skip, emit.
  destruct (done s && (pending s =? 0)); [|done]. by destruct (disposed s).
Qed.

Lemma checkIfFinishedAndNotify_settled (s : Stage O) :
  Settled s -> @checkIfFinishedAndNotify I O s = (s, []).
Proof.
  intros Hs. rewrite checkIfFinishedAndNotify_unfold.
  destruct (done s && (pending s =? 0)) eqn:E; [|done].
  apply andb_prop in E as [Hd Hp]. apply Z.eqb_eq in Hp. specialize (Hs Hd Hp).
  rewrite Hs. destruct s as [d p sn l dp g]; cbn in *; by subst.
Qed.

Ltac fin :=
  cbn; rewrite ?finishedCount_app, ?raisedCount_app, ?app_nil_r; cbn;
  try done; try lia; try (intuition (try congruence; try lia; try done)).

Lemma step_inv (s s' : Stage O) (outs o : list (Output I O)) (a : Action I) :
  Inv s outs -> stepS a s = Some (s', o) -> Inv s' (outs ++ o).
Proof.
  intros HI Hstep. unfold step in Hstep.
  destruct a as [|v| |e].
  - (* the consumer asks for the next value *)
    destruct (generator s) as [| |currEnv|] eqn:Hg; simplify_eq.
    + unfold prologue, andThen, modify, fire, skip, emit in *.
      destruct HI as [H1 H2 H3 H4 H5 H6]. specialize (H6 Hg).
      assert (Hdp : disposed s = false).
      { destruct (disposed s); [|done]. destruct H3 as [H3 _]. destruct H3; congruence. }
      destruct hasOnUpdated eqn:Hu; cbn in Hstep; rewrite ?Hdp in Hstep; simplify_eq;
        destruct s as [d p sn l dp g]; cbn in *; subst; split; fin.
    + unfold resume, modify in *. simplify_eq.
      destruct HI as [H1 H2 H3 H4 H5 H6].
      destruct s as [d p sn l dp g]; cbn in *; subst.
      split; fin.
    + unfold skip in *. simplify_eq. by rewrite app_nil_r.
  - (* the upstream yields a value *)
    destruct (generator s) as [| |currEnv|] eqn:Hg; simplify_eq.
    destruct HI as [H1 H2 H3 H4 H5 H6].
    destruct (loopBody_frame _ _ _ _ Hstep Hg) as (Hd & Hp & Hl & Hdp & Hgen & Hdata).
    { intros ? ?. by apply H3. }
    split; rewrite ?finishedCount_app, ?raisedCount_app,
      ?(data_not_finished _ Hdata), ?(data_not_raised _ Hdata), ?Hd, ?Hp, ?Hl, ?Hdp, ?Nat.add_0_r;
      try done; rewrite Hg in *; destruct Hgen as [->|[e ->]]; fin.
  - (* the upstream is exhausted *)
    destruct (generator s) as [| |currEnv|] eqn:Hg; simplify_eq.
    unfold epilogue, andThen, modify, skip in *.
    destruct HI as [H1 H2 H3 H4 H5 H6].
    destruct hasOnUpdated eqn:Hu.
    + simplify_eq. destruct s as [d p sn l dp g]; cbn in *; subst.
      split; fin.
    + rewrite checkIfFinishedAndNotify_unfold in Hstep.
      destruct (H5 eq_refl) as [Hp0 [Ha Hb]].
      destruct s as [d p sn l dp g]; cbn in *; subst. cbn in *.
      assert (d = false) as -> by (destruct d; [|done]; by specialize (Ha eq_refl)).
      assert (dp = false) as -> by (destruct dp; [|done]; destruct H3 as [H3 _]; by destruct H3).
      rewrite Hp0 in *. cbn in *. simplify_eq.
      split; fin.
  - (* the upstream notification source fires *)
    assert (Hstep' : deliver convertItem e s = (s', o)) by (destruct (generator s); by simplify_eq).
    clear Hstep. unfold deliver in Hstep'.
    destruct (listening s) eqn:Hl; [|unfold skip in *; simplify_eq; by rewrite app_nil_r].
    destruct HI as [H1 H2 H3 H4 H5 H6]. destruct (H4 Hl) as (Hu & Hd & Hg).
    assert (Hdp : disposed s = false).
    { destruct (disposed s); [|done]. destruct H3 as [H3 _]. destruct H3; congruence. }
    unfold listener, dispatch in Hstep'.
    destruct e as [[]|index old [update|]].
    + (* Started is forwarded *)
      unfold andThen, modify, fire, emit in Hstep'. cbn in Hstep'. rewrite Hdp in Hstep'.
      cbn in Hstep'. rewrite checkIfFinishedAndNotify_unfold in Hstep'. cbn in Hstep'.
      rewrite Hd in Hstep'. cbn in Hstep'. simplify_eq.
      destruct s as [d p sn l dp g]; cbn in *; subst.
      replace (Z.of_nat (raisedCount outs) + 1 - 1) with (Z.of_nat (raisedCount outs)) by lia.
      split; fin.
    + (* Finished is absorbed *)
      unfold andThen, modify in Hstep'. cbn in Hstep'.
      rewrite checkIfFinishedAndNotify_unfold in Hstep'. cbn in Hstep'.
      replace (pending s + 1 - 1) with (pending s) in Hstep' by lia.
      destruct s as [d p sn l dp g]; cbn in *; subst.
      destruct (Z.of_nat (raisedCount outs) =? 0) eqn:Hp0; simplify_eq;
        split; fin.
    + (* an update *)
      destruct (at_index (seen (set_pending (pending s + 1) s)) index) as [oldEnv|] eqn:Hat.
      * unfold andThen, modify, fire, emit in Hstep'. cbn in Hstep'. rewrite Hdp in Hstep'.
        cbn in Hstep'. rewrite checkIfFinishedAndNotify_unfold in Hstep'. cbn in Hstep'.
        rewrite Hd in Hstep'. cbn in Hstep'. simplify_eq.
        destruct s as [d p sn l dp g]; cbn in *; subst.
        replace (Z.of_nat (raisedCount outs) + 1 - 1) with (Z.of_nat (raisedCount outs)) by lia.
        split; fin.
      * unfold andThen, modify, emit in Hstep'. cbn in Hstep'.
        rewrite checkIfFinishedAndNotify_unfold in Hstep'. cbn in Hstep'.
        rewrite Hd in Hstep'. cbn in Hstep'. simplify_eq.
        destruct s as [d p sn l dp g]; cbn in *; subst.
        replace (Z.of_nat (raisedCount outs) + 1 - 1) with (Z.of_nat (raisedCount outs)) by lia.
        split; fin.
    + (* an update without a record: the listener throws *)
      simplify_eq.
      destruct s as [d p sn l dp g]; cbn in *; subst.
      split; fin.
Qed.


Lemma listening_open (s : Stage O) (outs : list (Output I O)) :
  Inv s outs -> listening s = true -> done s = false /\ disposed s = false.
Proof.
  intros HI Hl. destruct (inv_listening _ _ _ HI Hl) as (_ & Hd & _). split; [done|].
  destruct (disposed s) eqn:E; [|done].
  destruct (inv_disposed _ _ _ HI) as [Hx _]. destruct (Hx E). congruence.
Qed.

Lemma runFrom_inv (acts : list (Action I)) (s s' : Stage O) (outs o : list (Output I O)) :
  Inv s outs -> runFromS s acts = Some (s', o) -> Inv s' (outs ++ o).
Proof.
  revert s outs o. induction acts as [|a acts IH]; intros s outs o HI Hrun; simpl in Hrun.
  - simplify_eq. by rewrite app_nil_r.
  - destruct (stepS a s) as [[s1 o1]|] eqn:Hstep; [|done].
    destruct (runFromS s1 acts) as [[s2 o2]|] eqn:Hrest; [|done].
    simplify_eq. rewrite app_assoc. eapply IH; [|done]. by eapply step_inv.
Qed.

Lemma run_inv (acts : list (Action I)) (s : Stage O) (o : list (Output I O)) :
  runS acts = Some (s, o) -> Inv s o.
Proof. intros Hrun. by apply (runFrom_inv acts initial s [] o Inv_initial). Qed.

(** Only the completing action changes [done] or disposes the emitter. *)
Lemma step_completion (s s' : Stage O) (outs o : list (Output I O)) (a : Action I) :
  Inv s outs -> stepS a s = Some (s', o) ->
  (done s' = done s /\ disposed s' = disposed s) \/ a = completingAction hasOnUpdated.
Proof.
  intros HI Hstep. unfold step, completingAction in *.
  destruct a as [|v| |e].
  - left. destruct (generator s) as [| |currEnv|] eqn:Hg; simplify_eq.
    + unfold prologue, andThen, modify, fire, skip, emit in *.
      destruct hasOnUpdated; cbn in Hstep; [|destruct (disposed s) eqn:E];
        simplify_eq; cbn; by rewrite ?E.
    + unfold resume, modify in *. by simplify_eq.
    + unfold skip in *. by simplify_eq.
  - left. destruct (generator s) as [| |currEnv|] eqn:Hg; simplify_eq.
    destruct HI as [H1 H2 H3 H4 H5 H6].
    destruct (loopBody_frame _ _ _ _ Hstep Hg) as (Hd & Hp & Hl & Hdp & Hgen & Hdata); [|done].
    intros ? ?. by apply H3.
  - destruct (generator s) as [| |currEnv|] eqn:Hg; simplify_eq.
    unfold epilogue, andThen, modify, skip in *.
    destruct hasOnUpdated; [left|by right]. by simplify_eq.
  - assert (Hstep' : deliver convertItem e s = (s', o)) by (destruct (generator s); by simplify_eq).
    clear Hstep. unfold deliver in Hstep'.
    destruct (listening s) eqn:Hl; [|unfold skip in *; simplify_eq; by left].
    destruct HI as [H1 H2 H3 H4 H5 H6]. destruct (H4 Hl) as (Hu & Hd & Hg).
    rewrite Hu. unfold listener, dispatch in Hstep'.
    destruct e as [[]|index old [update|]]; [left|by right|left|left].
    + unfold andThen, modify, fire, emit in Hstep'. cbn in Hstep'.
      destruct (disposed s) eqn:Hdp; cbn in Hstep';
        rewrite checkIfFinishedAndNotify_unfold in Hstep'; cbn in Hstep';
        rewrite Hd in Hstep'; cbn in Hstep'; by simplify_eq.
    + destruct (at_index (seen (set_pending (pending s + 1) s)) index) as [oldEnv|] eqn:Hat.
      * unfold andThen, modify, fire, emit in Hstep'. cbn in Hstep'.
        destruct (disposed s) eqn:Hdp; cbn in Hstep';
          rewrite checkIfFinishedAndNotify_unfold in Hstep'; cbn in Hstep';
          rewrite Hd in Hstep'; cbn in Hstep'; by simplify_eq.
      * unfold andThen, modify, emit in Hstep'. cbn in Hstep'.
        rewrite checkIfFinishedAndNotify_unfold in Hstep'. cbn in Hstep'.
        rewrite Hd in Hstep'. cbn in Hstep'. by simplify_eq.
    + by simplify_eq.
Qed.

(** Finished goes out on the turn that disposes the emitter, and then only. *)
Lemma step_finished (s s' : Stage O) (outs o : list (Output I O)) (a : Action I) :
  Inv s outs -> stepS a s = Some (s', o) ->
  finishedCount o = (if negb (disposed s) && disposed s' then 1 else 0)%nat
  /\ (disposed s = true -> disposed s' = true).
Proof.
  intros HI Hstep. pose proof (step_inv _ _ _ _ _ HI Hstep) as HI'.
  pose proof (inv_finished _ _ _ HI) as H2. pose proof (inv_finished _ _ _ HI') as H2'.
  rewrite finishedCount_app in H2'.
  destruct (disposed s) eqn:Hdp, (disposed s') eqn:Hdp'; cbn; split; first [lia | done | intros; lia].
Qed.

(** A buffer miss: the update is logged and the stage is as it was. *)
Lemma step_update_dropped (s : Stage O) (outs : list (Output I O))
    (index : Z) (old : option I) (update : I) :
  Inv s outs -> at_index (seen s) index = None ->
  stepS (UpstreamEvent (PythonEnvUpdatedEvent index old (Some update))) s
  = Some (s, if listening s then [Logged old index] else []).
Proof.
  intros HI Hat. unfold step.
  assert (Hd : deliver convertItem (PythonEnvUpdatedEvent index old (Some update)) s
               = (s, if listening s then [Logged old index] else [])).
  { unfold deliver. destruct (listening s) eqn:Hl; [|done].
    destruct (inv_listening _ _ _ HI Hl) as (_ & Hdone & _).
    unfold listener, dispatch. cbn. rewrite Hat.
    unfold andThen, modify, emit. cbn. rewrite checkIfFinishedAndNotify_unfold. cbn.
    rewrite Hdone. cbn. destruct s as [d p sn l dp g]; cbn in *.
    unfold set_pending; cbn. by replace (p + 1 - 1) with p by lia. }
  destruct (generator s); by rewrite Hd.
Qed.

(** A buffer hit: the entry at the event's index is overwritten with the
    converted update, which is republished under that same index. *)
Lemma step_update_applied (s : Stage O) (outs : list (Output I O))
    (index : Z) (old : option I) (update : I) (oldEnv : O) :
  Inv s outs -> listening s = true -> at_index (seen s) index = Some oldEnv ->
  stepS (UpstreamEvent (PythonEnvUpdatedEvent index old (Some update))) s
  = Some (set_seen (<[Z.to_nat index := convertItem update]> (seen s)) s,
          [Fired (PythonEnvUpdatedEvent index (Some oldEnv) (Some (convertItem update)))]).
Proof.
  intros HI Hl Hat. unfold step.
  destruct (listening_open _ _ HI Hl) as [Hdone Hdp].
  assert (Hd : deliver convertItem (PythonEnvUpdatedEvent index old (Some update)) s
               = (set_seen (<[Z.to_nat index := convertItem update]> (seen s)) s,
                  [Fired (PythonEnvUpdatedEvent index (Some oldEnv) (Some (convertItem update)))])).
  { unfold deliver. rewrite Hl. unfold listener, dispatch. cbn. rewrite Hat.
    unfold andThen, modify, fire, emit. cbn. rewrite Hdp. cbn.
    rewrite checkIfFinishedAndNotify_unfold. cbn. rewrite Hdone. cbn.
    destruct s as [d p sn l dp g]; cbn in *.
    unfold set_pending, set_seen; cbn. by replace (p + 1 - 1) with p by lia. }
  destruct (generator s); by rewrite Hd.
Qed.

(** Upstream's Finished, received by a registered listener while no call is
    pending, makes the stage deliver its own Finished at once. *)
Lemma step_finished_event (s : Stage O) (outs : list (Output I O)) :
  Inv s outs -> listening s = true -> pending s = 0 ->
  stepS (UpstreamEvent (ProgressNotificationEvent discoveryFinished)) s
  = Some (set_disposed true (set_listening false (set_done true s)),
          [Fired (ProgressNotificationEvent discoveryFinished)]).
Proof.
  intros HI Hl Hp. unfold step.
  destruct (listening_open _ _ HI Hl) as [Hdone Hdp].
  assert (Hd : deliver convertItem (@ProgressNotificationEvent I discoveryFinished) s
               = (set_disposed true (set_listening false (set_done true s)),
                  [Fired (ProgressNotificationEvent discoveryFinished)])).
  { unfold deliver. rewrite Hl. unfold listener, dispatch. cbn.
    unfold andThen, modify. cbn. rewrite checkIfFinishedAndNotify_unfold. cbn.
    rewrite Hp, Hdp. cbn. destruct s as [d p sn l dp g]; cbn in *. subst.
    reflexivity. }
  destruct (generator s); by rewrite Hd.
Qed.

(** Without Finished from upstream, a stage that listens to an upstream
    notification source never sets [done]. *)
Lemma runFrom_not_done (acts : list (Action I)) (s s' : Stage O) (outs o : list (Output I O)) :
  hasOnUpdated = true -> noFinishedEvent acts = true ->
  Inv s outs -> done s = false -> runFromS s acts = Some (s', o) -> done s' = false.
Proof.
  intros Hu. revert s outs o.
  induction acts as [|a acts IH]; intros s outs o Hno HI Hd Hrun; simpl in *.
  - by simplify_eq.
  - apply andb_prop in Hno as [Ha Hno].
    destruct (stepS a s) as [[s1 o1]|] eqn:Hstep; [|done].
    destruct (runFromS s1 acts) as [[s2 o2]|] eqn:Hrest; [|done].
    injection Hrun as <- <-. eapply (IH s1 (outs ++ o1)); [done|by eapply step_inv| |done].
    destruct (step_completion _ _ _ _ _ HI Hstep) as [[Hd' _]|Ha']; [congruence|].
    unfold completingAction in Ha'. rewrite Hu in Ha'. subst a. done.
Qed.

(** Apart from an upstream value and an upstream update, no action yields a
    value or touches what was yielded. *)
Lemma step_emitted_other (s s' : Stage O) (o : list (Output I O)) (a : Action I) :
  stepS a s = Some (s', o) ->
  isUpdate a = false ->
  match a with UpstreamValue _ => False | _ => True end ->
  emitted s' = emitted s /\ yields o = [].
Proof.
  intros Hstep Hupd Hval. unfold step in Hstep. unfold emitted.
  destruct a as [|v| |e]; [| done | |].
  - destruct (generator s) as [| |currEnv|] eqn:Hg; simplify_eq.
    + unfold prologue, andThen, modify, fire, skip, emit in *.
      destruct hasOnUpdated; cbn in Hstep; [|destruct (disposed s)]; simplify_eq; cbn;
        rewrite ?Hg, ?app_nil_r; done.
    + unfold resume, modify in *. simplify_eq. cbn. by rewrite app_nil_r.
    + unfold skip in *. simplify_eq. by rewrite Hg.
  - destruct (generator s) as [| |currEnv|] eqn:Hg; simplify_eq.
    unfold epilogue, andThen, modify, skip in *.
    destruct hasOnUpdated; cbn in Hstep.
    + simplify_eq. cbn. by rewrite app_nil_r.
    + rewrite checkIfFinishedAndNotify_unfold in Hstep. cbn in Hstep.
      destruct (pending s =? 0), (disposed s); simplify_eq; cbn; by rewrite app_nil_r.
  - assert (Hstep' : deliver convertItem e s = (s', o)) by (destruct (generator s); by simplify_eq).
    clear Hstep. unfold deliver in Hstep'.
    destruct (listening s); [|unfold skip in *; by simplify_eq].
    destruct e as [stage|]; [|done].
    unfold listener, dispatch, andThen, modify, fire, skip, emit in Hstep'.
    destruct stage; cbn in Hstep'.
    + destruct (disposed s) eqn:Hdp; cbn in Hstep';
        rewrite checkIfFinishedAndNotify_unfold in Hstep'; cbn in Hstep';
        rewrite ?Hdp in Hstep';
        destruct (done s && (pending s + 1 - 1 =? 0)); by simplify_eq.
    + rewrite checkIfFinishedAndNotify_unfold in Hstep'. cbn in Hstep'.
      destruct (pending s + 1 - 1 =? 0), (disposed s); by simplify_eq.
Qed.

End StageFacts.

(** ** The stages of the pipeline *)

Lemma findIndexFrom_spec {A : Type} (p : A -> bool) (l : list A) (k : Z) :
  (findIndexFrom p l k = -1 /\ Forall (fun x => p x = false) l)
  \/ (exists (n : nat) (x : A),
        findIndexFrom p l k = k + Z.of_nat n /\ l !! n = Some x /\ p x = true).
Proof.
  revert k. induction l as [|y l IH]; intros k; simpl.
  - left. by split.
  - destruct (p y) eqn:Hy.
    + right. exists 0%nat, y. split; [lia|done].
    + destruct (IH (k + 1)) as [[H1 H2]|(n & x & H1 & H2 & H3)].
      * left. split; [done|]. by constructor.
      * right. exists (S n), x. split; [lia|done].
Qed.

Lemma findIndex_spec {A : Type} (p : A -> bool) (l : list A) :
  (findIndex p l = -1 /\ Forall (fun x => p x = false) l)
  \/ (exists (n : nat) (x : A),
        findIndex p l = Z.of_nat n /\ l !! n = Some x /\ p x = true).
Proof.
  unfold findIndex. destruct (findIndexFrom_spec p l 0) as [?|(n & x & H1 & H2)]; [by left|].
  right. exists n, x. by rewrite H1.
Qed.

Lemma at_index_of_nat {A : Type} (l : list A) (n : nat) :
  at_index l (Z.of_nat n) = l !! n.
Proof.
  unfold at_index. destruct (Z.leb_spec 0 (Z.of_nat n)); [by rewrite Nat2Z.id|lia].
Qed.

Section ReducerFacts.
Variable sortKindFunction : PythonEnvKind -> PythonEnvKind -> Z.
Variable sortExtensionSource : string -> string -> Z.

Abbreviation resolve := (resolveEnvCollision sortKindFunction sortExtensionSource).
Abbreviation reducerBody := (PythonEnvsReducer.loopBody sortKindFunction sortExtensionSource).

(** The two ways through the reducer's loop body. *)
Lemma reducer_loopBody_cases (currEnv : CompositeEnvInfo) (s : Stage CompositeEnvInfo) :
  Settled s ->
  (Forall (fun x => identity x <> identity currEnv) (seen s)
   /\ reducerBody currEnv s = (set_generator (SuspendedAtYield currEnv) s, [Yielded currEnv]))
  \/ (exists (i : nat) (oldEnv0 : CompositeEnvInfo),
        seen s !! i = Some oldEnv0
        /\ areSameEnv oldEnv0 currEnv = true
        /\ let r := resolve oldEnv0 currEnv in
           reducerBody currEnv s =
           if lodash_isEqual (oldAfter r) (merged r)
           then (set_seen (<[i := oldAfter r]> (seen s)) s, [])
           else (set_seen (<[i := merged r]> (seen s)) s,
                 if disposed s then []
                 else [Fired (PythonEnvUpdatedEvent (Z.of_nat i) (Some (oldAfter r)) (Some (merged r)))])).
Proof.
  intros Hsettled. unfold PythonEnvsReducer.loopBody.
  destruct (findIndex_spec (fun x => areSameEnv x currEnv) (seen s))
    as [[-> Hall]|(i & oldEnv0 & -> & Hi & Hsame)].
  - left. split; [|done].
    eapply Forall_impl; [exact Hall|]. intros x Hx. cbn in Hx.
    unfold areSameEnv in Hx. by apply bool_decide_eq_false in Hx.
  - right. exists i, oldEnv0. split; [done|]. split; [done|]. cbn zeta.
    replace (Z.of_nat i =? -1) with false by (symmetry; apply Z.eqb_neq; lia). cbn [negb].
    unfold PythonEnvsReducer.resolveDifferencesInBackground. cbn [seen set_pending].
    rewrite at_index_of_nat, Hi, Nat2Z.id.
    generalize (resolve oldEnv0 currEnv). intros r.
    unfold andThen, modify, fire, skip, emit.
    assert (Hcheck : forall s0 : Stage CompositeEnvInfo,
      done s0 = done s -> pending s0 = pending s -> disposed s0 = disposed s ->
      @checkIfFinishedAndNotify BasicEnvInfo CompositeEnvInfo s0 = (s0, [])).
    { intros s0 H1 H2 H3. apply checkIfFinishedAndNotify_settled.
      unfold Settled in *. rewrite H1, H2, H3. exact Hsettled. }
    destruct (lodash_isEqual (oldAfter r) (merged r)); cbn -[checkIfFinishedAndNotify].
    + rewrite Hcheck by (cbn; lia || done).
      destruct s as [d p sn l dp g]; cbn. unfold set_pending, set_seen; cbn.
      by replace (p + 1 - 1) with p by lia.
    + destruct (disposed s) eqn:Hdp; cbn -[checkIfFinishedAndNotify];
        rewrite Hcheck by (cbn; lia || done); rewrite list_insert_insert_eq;
        destruct s as [d p sn l dp g]; cbn; unfold set_pending, set_seen; cbn;
        by replace (p + 1 - 1) with p by lia.
Qed.

Lemma reducer_loopBody_frame : LoopBodyFrame reducerBody.
Proof.
  intros env s s' o Hbody Hg Hsettled.
  destruct (reducer_loopBody_cases env s Hsettled) as [[_ Heq]|(i & oldEnv0 & _ & _ & Heq)];
    cbn zeta in Heq; rewrite Heq in Hbody.
  - simplify_eq. cbn. repeat split; eauto.
  - destruct (lodash_isEqual _ _); simplify_eq; cbn; repeat split; eauto.
    by destruct (disposed s).
Qed.

End ReducerFacts.

Lemma adapter_loopBody_frame : LoopBodyFrame ConvertLocator.loopBody.
Proof.
  intros env s s' o Hbody Hg Hsettled.
  unfold ConvertLocator.loopBody, yield, andThen, emit, modify in Hbody.
  simplify_eq. cbn. repeat split; eauto.
Qed.

(** ** First-seen order *)



Section ReducerOrder.
Variable sortKindFunction : PythonEnvKind -> PythonEnvKind -> Z.
Variable sortExtensionSource : string -> string -> Z.
Variable hasOnUpdated : bool.

Abbreviation reducerStep :=
  (step convertBasicToComposite hasOnUpdated
     (PythonEnvsReducer.loopBody sortKindFunction sortExtensionSource)).
Abbreviation reducerRunFrom :=
  (runFrom convertBasicToComposite hasOnUpdated
     (PythonEnvsReducer.loopBody sortKindFunction sortExtensionSource)).
Abbreviation ReducerInv :=
  (@StageInv BasicEnvInfo CompositeEnvInfo hasOnUpdated).



End ReducerOrder.

(** ** Both stages *)

Lemma pipeline_loopBody_frame (st : StageImpl) :
  PipelineStage st -> LoopBodyFrame (loopBodyOf st).
Proof.
  intros [extId|sortKindFunction sortExtensionSource]; cbn.
  - apply adapter_loopBody_frame.
  - apply reducer_loopBody_frame.
Qed.

Section StageTheorems.
Context {I O : Type}.
Variable convertItem : I -> O.
Variable hasOnUpdated : bool.
Variable loopBody : O -> @Eff I O.
Hypothesis loopBody_frame : LoopBodyFrame loopBody.

Abbreviation stepT := (step convertItem hasOnUpdated loopBody).
Abbreviation runFromT := (runFrom convertItem hasOnUpdated loopBody).
Abbreviation runT := (run convertItem hasOnUpdated loopBody).
Abbreviation InvT := (@StageInv I O hasOnUpdated).


Lemma stage_completion (acts : list (Action I)) (s : Stage O) (o : list (Output I O)) :
  runT acts = Some (s, o) ->
  (finishedCount o <= 1)%nat
  /\ (finishedCount o = 1%nat <-> disposed s = true)
  /\ (finishedCount o = 1%nat <-> done s = true /\ pending s = 0)
  /\ (forall a s' o', stepT a s = Some (s', o') ->
        (finishedCount (o ++ o') <= 1)%nat
        /\ (finishedCount o' = 1%nat ->
              done s' = true /\ pending s' = 0 /\ a = completingAction hasOnUpdated))
  /\ (hasOnUpdated = false -> (finishedCount o = 1%nat <-> generator s = Returned))
  /\ (hasOnUpdated = true -> noFinishedEvent acts = true -> finishedCount o = 0%nat)
  /\ (hasOnUpdated = true -> listening s = true -> pending s = 0 ->
        exists s',
          stepT (UpstreamEvent (ProgressNotificationEvent discoveryFinished)) s
          = Some (s', [Fired (ProgressNotificationEvent discoveryFinished)])).
Proof.
  intros Hrun. pose proof (run_inv _ _ _ loopBody_frame _ _ _ Hrun) as HI.
  pose proof (inv_finished _ _ _ HI) as Hfin.
  assert (Hdisp : finishedCount o = 1%nat <-> disposed s = true).
  { rewrite Hfin. destruct (disposed s); split; congruence. }
  split; [rewrite Hfin; destruct (disposed s); lia|].
  split; [done|].
  split; [rewrite Hdisp; apply (inv_disposed _ _ _ HI)|].
  split.
  { intros a s' o' Hstep.
    pose proof (step_inv _ _ _ loopBody_frame _ _ _ _ _ HI Hstep) as HI'.
    pose proof (inv_finished _ _ _ HI') as Hfin'.
    split; [rewrite Hfin'; destruct (disposed s'); lia|].
    intros Hone.
    destruct (step_finished _ _ _ loopBody_frame _ _ _ _ _ HI Hstep) as [Hcount _].
    rewrite Hone in Hcount.
    destruct (disposed s) eqn:Hdp, (disposed s') eqn:Hdp'; cbn in Hcount; try done.
    destruct (inv_disposed _ _ _ HI') as [Hx _]. destruct (Hx Hdp') as [Hd' Hp'].
    split; [done|]. split; [done|].
    destruct (step_completion _ _ _ loopBody_frame _ _ _ _ _ HI Hstep) as [[_ Heq]|Ha]; [|done].
    congruence. }
  split.
  { intros Hu. rewrite Hdisp. destruct (inv_plain _ _ _ HI Hu) as [Hp Hret].
    rewrite (inv_disposed _ _ _ HI), <- Hret. intuition. }
  split.
  { intros Hu Hno.
    assert (Hd : done s = false).
    { eapply (runFrom_not_done _ _ _ loopBody_frame acts initial s [] o Hu Hno); try done.
      apply Inv_initial. }
    rewrite Hfin. destruct (disposed s) eqn:Hdp; [|done].
    destruct (inv_disposed _ _ _ HI) as [Hx _]. destruct (Hx Hdp). congruence. }
  intros Hu Hl Hp. eexists. by eapply step_finished_event.
Qed.

Lemma runFrom_cons (s : Stage O) (a : Action I) (rest : list (Action I)) :
  runFromT s (a :: rest) =
  match stepT a s with
  | None => None
  | Some (s1, o1) =>
      match runFromT s1 rest with
      | None => None
      | Some (s2, o2) => Some (s2, o1 ++ o2)
      end
  end.
Proof. reflexivity. Qed.

Lemma stage_update_dropped (pre post : list (Action I)) (s1 : Stage O) (o1 : list (Output I O))
    (index : Z) (old : option I) (update : I) :
  runT pre = Some (s1, o1) ->
  at_index (seen s1) index = None ->
  let event := UpstreamEvent (PythonEnvUpdatedEvent index old (Some update)) in
  let logged := if listening s1 then [Logged old index] else [] in
  runT (pre ++ [event]) = Some (s1, o1 ++ logged)
  /\ forall s o, runT (pre ++ post) = Some (s, o) ->
       exists o', runT (pre ++ event :: post) = Some (s, o')
                  /\ withoutLogs o' = withoutLogs o
                  /\ yields o' = yields o
                  /\ finishedCount o' = finishedCount o.
Proof.
  intros Hpre Hat event logged.
  pose proof (run_inv _ _ _ loopBody_frame _ _ _ Hpre) as HI.
  pose proof (step_update_dropped convertItem hasOnUpdated loopBody s1 o1 index old update HI Hat)
    as Hstep.
  fold event logged in Hstep.
  unfold run in *. split.
  - rewrite runFrom_app, Hpre, runFrom_cons, Hstep. cbn. by rewrite app_nil_r.
  - intros s o. rewrite !runFrom_app, Hpre, runFrom_cons, Hstep.
    destruct (runFromT s1 post) as [[s2 o2]|]; [|done].
    intros [= <- <-]. eexists. split; [done|].
    assert (Hl : withoutLogs logged = [] /\ yields logged = [] /\ finishedCount logged = 0%nat).
    { unfold logged. by destruct (listening s1). }
    destruct Hl as (Hl1 & Hl2 & Hl3).
    rewrite !withoutLogs_app, !yields_app, !finishedCount_app, Hl1, Hl2, Hl3. done.
Qed.

End StageTheorems.

(** * The claims *)










(** C2, as amended (completion): each stage delivers Finished at most once,
    since the emitter is disposed on delivery, and only on a turn after which
    its done flag is set and its pending counter is zero. Without an upstream
    notification source the flag is set when the upstream sequence is
    exhausted, and Finished has been delivered exactly once when the stage's
    primary sequence has ended, and not before. With an upstream notification
    source the flag is set by the upstream's own Finished and by nothing else:
    the stage delivers its Finished on that event (when the listener is
    registered and no call is pending), and a run in which the upstream
    never delivers Finished delivers none. *)
Theorem stage_finished_once_done (st : StageImpl) (hasOnUpdated : bool)
    (acts : list (Action (Incoming st))) (s : Stage (Outgoing st))
    (o : list (Output (Incoming st) (Outgoing st))) :
  PipelineStage st ->
  stageRun st hasOnUpdated acts = Some (s, o) ->
  (finishedCount o <= 1)%nat
  /\ (finishedCount o = 1%nat <-> disposed s = true)
  /\ (finishedCount o = 1%nat <-> done s = true /\ pending s = 0)
  /\ (forall a s' o', stageStep st hasOnUpdated a s = Some (s', o') ->
        (finishedCount (o ++ o') <= 1)%nat
        /\ (finishedCount o' = 1%nat ->
              done s' = true /\ pending s' = 0 /\ a = completingAction hasOnUpdated))
  /\ (hasOnUpdated = false -> (finishedCount o = 1%nat <-> generator s = Returned))
  /\ (hasOnUpdated = true -> noFinishedEvent acts = true -> finishedCount o = 0%nat)
  /\ (hasOnUpdated = true -> listening s = true -> pending s = 0 ->
        exists s',
          stageStep st hasOnUpdated
            (UpstreamEvent (ProgressNotificationEvent discoveryFinished)) s
          = Some (s', [Fired (ProgressNotificationEvent discoveryFinished)])).
Proof.
  intros Hst Hrun.
  exact (stage_completion (convertOf st) hasOnUpdated (loopBodyOf st)
           (pipeline_loopBody_frame st Hst) acts s o Hrun).
Qed.

Lemma stage_finished_once_done_witness :
  exists s o,
    stageRun (reducerStage exampleSortKind exampleSortExtension) false distinctTrace
    = Some (s, o)
    /\ finishedCount o = 1%nat.
Proof.
  destruct (stageRun (reducerStage exampleSortKind exampleSortExtension) false distinctTrace)
    as [[s o]|] eqn:Hrun; [|by vm_compute in Hrun].
  exists s, o. split; [done|].
  destruct (stage_finished_once_done _ _ _ _ _ (IsReducer _ _) Hrun)
    as (_ & _ & _ & _ & Hplain & _).
  apply (Hplain eq_refl). vm_compute in Hrun. by simplify_eq.
Defined.

(** C2, counterexample: an upstream that exposes a notification source and
    never delivers Finished on it. The reducer's primary sequence is consumed
    to its end, and Finished has not been delivered. *)
Lemma stage_finished_not_exactly_once :
  exists s o,
    exampleReducer true [Pull; UpstreamValue venv39; Pull; UpstreamDone] = Some (s, o)
    /\ generator s = Returned
    /\ finishedCount o = 0%nat.
Proof. eexists _, _. split; [vm_compute; reflexivity|]. by split. Qed.

Lemma resolveEnvCollision_commutative_idempotent_witness :
  areSameEnv (convertBasicToComposite venv39) (convertBasicToComposite system39) = true
  /\ (forall k,
        k ∈ kind (merged (resolveEnvCollision exampleSortKind exampleSortExtension
                            (convertBasicToComposite venv39) (convertBasicToComposite system39)))
        <-> k ∈ kind (merged (resolveEnvCollision exampleSortKind exampleSortExtension
                            (convertBasicToComposite system39) (convertBasicToComposite venv39)))).
Proof.
  split; [reflexivity|].
  exact (proj1 (proj2 (resolveEnvCollision_commutative_idempotent
                         exampleSortKind exampleSortExtension
                         (convertBasicToComposite venv39) (convertBasicToComposite system39)
                         eq_refl))).
Defined.

Lemma resolveEnvCollision_tie_keeps_old_witness :
  comparesEqual exampleSortKind
    (getTopKind exampleSortKind (kind unsorted39)).1
    (getTopKind exampleSortKind (kind (convertBasicToComposite venv39))).1
  /\ extensionId (merged (resolveEnvCollision exampleSortKind exampleSortExtension
                            unsorted39 (convertBasicToComposite venv39)))
     = "producerB".
Proof.
  assert (Hk : comparesEqual exampleSortKind
            (getTopKind exampleSortKind (kind unsorted39)).1
            (getTopKind exampleSortKind (kind (convertBasicToComposite venv39))).1).
  { split; reflexivity. }
  split; [exact Hk|].
  exact (proj2 (proj2 (proj2 (resolveEnvCollision_tie_keeps_old
                                exampleSortKind exampleSortExtension
                                unsorted39 (convertBasicToComposite venv39)
                                Hk (conj eq_refl eq_refl))))).
Defined.

(** C9, the claim fails on the code: [getTopKind] sorts the [kind] array of
    its argument in place, so [resolveEnvCollision] reorders the kinds of an
    operand whose kinds are not in priority order. In the reducer the operand
    is the buffer entry, the very object handed to the consumer in the last
    update notification: after the records conda, unknown, venv, conda of one
    environment, the buffer entry reads conda, venv, unknown, while the last
    notification delivered it as conda, unknown, venv, and no notification
    followed. *)
Theorem resolveEnvCollision_sorts_operand_in_place :
  kind unsorted39 = [PythonEnvKind_System; PythonEnvKind_Venv]
  /\ kind (oldAfter (resolveEnvCollision exampleSortKind exampleSortExtension
                       unsorted39 (convertBasicToComposite venv39)))
     = [PythonEnvKind_Venv; PythonEnvKind_System]
  /\ exists s o old delivered,
       exampleReducer true
         [Pull; UpstreamValue conda39; Pull; UpstreamValue unknown39;
          UpstreamValue venv39; UpstreamValue conda39] = Some (s, o)
       /\ last o = Some (Fired (PythonEnvUpdatedEvent 0 old (Some delivered)))
       /\ kind delivered
          = [PythonEnvKind_Conda; PythonEnvKind_Unknown; PythonEnvKind_Venv]
       /\ kind <$> seen s
          = [[PythonEnvKind_Conda; PythonEnvKind_Venv; PythonEnvKind_Unknown]].
Proof.
  split; [reflexivity|]. split; [reflexivity|].
  eexists _, _, _, _. split; [vm_compute; reflexivity|].
  split; [reflexivity|]. split; reflexivity.
Qed.

(** C5, as amended: for every upstream update event whose index has an entry
    in the reducer's buffer, the reducer overwrites the entry at that index
    with the converted update and republishes the converted update under the
    upstream event's own index, with the overwritten entry as the old value.
    The index is not translated. *)
Theorem reducer_update_republished_at_event_index
    (sortKindFunction : PythonEnvKind -> PythonEnvKind -> Z)
    (sortExtensionSource : string -> string -> Z) (hasOnUpdated : bool)
    (acts : list (Action BasicEnvInfo)) (s : Stage CompositeEnvInfo)
    (o : list (Output BasicEnvInfo CompositeEnvInfo))
    (index : Z) (old : option BasicEnvInfo) (update : BasicEnvInfo)
    (oldEnv : CompositeEnvInfo) :
  PythonEnvsReducer.iterEnvsIterator sortKindFunction sortExtensionSource hasOnUpdated acts
  = Some (s, o) ->
  listening s = true ->
  at_index (seen s) index = Some oldEnv ->
  stageStep (reducerStage sortKindFunction sortExtensionSource) hasOnUpdated
    (UpstreamEvent (PythonEnvUpdatedEvent index old (Some update))) s
  = Some (set_seen (<[Z.to_nat index := convertBasicToComposite update]> (seen s)) s,
          [Fired (PythonEnvUpdatedEvent index (Some oldEnv)
                    (Some (convertBasicToComposite update)))]).
Proof.
  intros Hrun Hl Hat.
  apply (step_update_applied convertBasicToComposite hasOnUpdated _ s o); [|done|done].
  eapply run_inv; [apply reducer_loopBody_frame|exact Hrun].
Qed.

Lemma reducer_update_republished_at_event_index_witness :
  exists s o s',
    exampleReducer true collapsingTrace = Some (s, o)
    /\ stageStep (reducerStage exampleSortKind exampleSortExtension) true
         (UpstreamEvent (PythonEnvUpdatedEvent 1 (Some system39) (Some system39))) s
       = Some (s', [Fired (PythonEnvUpdatedEvent 1
                             (Some (convertBasicToComposite system310))
                             (Some (convertBasicToComposite system39)))]).
Proof.
  eexists _, _, _. split; [vm_compute; reflexivity|].
  apply (reducer_update_republished_at_event_index exampleSortKind exampleSortExtension true
           collapsingTrace _ _ 1 (Some system39) system39
           (convertBasicToComposite system310) eq_refl eq_refl eq_refl).
Defined.

(** C5, counterexample: the upstream yields venv39, system39 and system310;
    the reducer collapses the first two into its entry 0 and keeps system310
    at its entry 1. An upstream update for the upstream's record 1 (system39)
    is republished under index 1, the reducer's entry of system310, and not
    under 0, the reducer's own index of that record. *)
Lemma reducer_update_index_not_translated :
  exists s o s',
    exampleReducer true collapsingTrace = Some (s, o)
    /\ at_index (values collapsingTrace) 1 = Some system39
    /\ ownIndexOf (values collapsingTrace) (seen s) 1 = Some 0
    /\ stageStep (reducerStage exampleSortKind exampleSortExtension) true
         (UpstreamEvent (PythonEnvUpdatedEvent 1 (Some system39) (Some system39))) s
       = Some (s', [Fired (PythonEnvUpdatedEvent 1
                             (Some (convertBasicToComposite system310))
                             (Some (convertBasicToComposite system39)))])
    /\ identity <$> seen s = [("/usr/bin/python3.9", ""); ("/usr/bin/python3.10", "")]
    /\ identity <$> seen s' = [("/usr/bin/python3.9", ""); ("/usr/bin/python3.9", "")].
Proof.
  eexists _, _, _. split; [vm_compute; reflexivity|].
  split; [reflexivity|]. split; [reflexivity|].
  split; [vm_compute; reflexivity|]. split; reflexivity.
Qed.

(** C6, as amended: the adapter's kind translation is a cast, it returns the
    external identifier unchanged, recognized or not; for a multi-kind
    external record only the first declared kind is used in the converted
    record. *)
Theorem convertKind_is_a_cast :
  (forall source : option string, convertKind source = source)
  /\ (forall (extId exe root first : string) (rest : list string),
        bKind (convertToBasicEnv extId (mkEnvInfo exe root (first :: rest))) = Some first).
Proof. split; reflexivity. Qed.

(** C6, counterexample: an identifier outside the enumeration is not mapped
    to Unknown. *)
Lemma convertKind_does_not_default_to_unknown :
  exists source : string,
    (Some source ∉ PythonEnvKind_members)
    /\ convertKind (Some source) <> PythonEnvKind_Unknown.
Proof.
  exists "no-such-kind". split; [|discriminate].
  intros H. repeat (apply elem_of_cons in H as [H|H]; [discriminate H|]).
  by apply elem_of_nil in H.
Qed.



(** C8 (an update for an index without a buffer entry is tolerated): in each
    stage such an event changes nothing in the stage, it is logged when the
    listener is registered, and whatever follows, the run ends in the same
    state and lets out the same values and notifications, Finished included,
    as the run without the event. *)
Theorem stage_unseen_update_dropped (st : StageImpl) (hasOnUpdated : bool)
    (pre post : list (Action (Incoming st))) (s1 : Stage (Outgoing st))
    (o1 : list (Output (Incoming st) (Outgoing st)))
    (index : Z) (old : option (Incoming st)) (update : Incoming st) :
  PipelineStage st ->
  stageRun st hasOnUpdated pre = Some (s1, o1) ->
  at_index (seen s1) index = None ->
  let event := UpstreamEvent (PythonEnvUpdatedEvent index old (Some update)) in
  let logged := if listening s1 then [Logged old index] else [] in
  stageRun st hasOnUpdated (pre ++ [event]) = Some (s1, o1 ++ logged)
  /\ forall s o, stageRun st hasOnUpdated (pre ++ post) = Some (s, o) ->
       exists o', stageRun st hasOnUpdated (pre ++ event :: post) = Some (s, o')
                  /\ withoutLogs o' = withoutLogs o
                  /\ yields o' = yields o
                  /\ finishedCount o' = finishedCount o.
Proof.
  intros Hst Hpre Hat.
  exact (stage_update_dropped (convertOf st) hasOnUpdated (loopBodyOf st)
           (pipeline_loopBody_frame st Hst) pre post s1 o1 index old update Hpre Hat).
Qed.

Lemma stage_unseen_update_dropped_witness :
  exists s1 o1,
    exampleReducer true threeYielded = Some (s1, o1)
    /\ length (yields o1) = 3%nat
    /\ at_index (seen s1) 5 = None
    /\ exampleReducer true
         (threeYielded ++ [UpstreamEvent (PythonEnvUpdatedEvent 5 None (Some venv39))])
       = Some (s1, o1 ++ [Logged None 5]).
Proof.
  eexists _, _. split; [vm_compute; reflexivity|].
  split; [reflexivity|]. split; [reflexivity|].
  refine (proj1 (stage_unseen_update_dropped
                   (reducerStage exampleSortKind exampleSortExtension) true
                   threeYielded [] _ _ 5 None venv39 (IsReducer _ _) _ _));
    vm_compute; reflexivity.
Defined.

(** * Further properties *)

(** X1 (an upstream update can break the deduplication): the upstream yields
    venv39, system39 and system310 and then updates its record 1 (system39);
    the reducer applies the update to its own entry 1, the entry of
    system310, so that a later system310 from upstream finds no entry of its
    identity and is yielded a second time. *)
Theorem reducer_update_can_repeat_identity :
  exists s o,
    exampleReducer true
      (collapsingTrace ++
       [UpstreamEvent (PythonEnvUpdatedEvent 1 (Some system39) (Some system39));
        UpstreamValue system310; Pull;
        UpstreamEvent (ProgressNotificationEvent discoveryFinished); UpstreamDone])
    = Some (s, o)
    /\ generator s = Returned
    /\ identity <$> yields o
       = [("/usr/bin/python3.9", ""); ("/usr/bin/python3.10", ""); ("/usr/bin/python3.10", "")].
Proof. eexists _, _. split; [vm_compute; reflexivity|]. by split. Qed.

(** X2 (a producer without a notification source): three distinct records,
    then exhaustion. Each stage delivers a synthetic Started, then the three
    values, then Finished, and no update notification. *)
Theorem plain_upstream_started_values_finished :
  (exists s,
     ConvertLocator.iterEnvsIterator "publisher.extension" false
       [Pull; UpstreamValue external39; Pull; UpstreamValue external310; Pull;
        UpstreamValue external311; Pull; UpstreamDone]
     = Some (s, [Fired (ProgressNotificationEvent discoveryStarted);
                 Yielded (convertToBasicEnv "publisher.extension" external39);
                 Yielded (convertToBasicEnv "publisher.extension" external310);
                 Yielded (convertToBasicEnv "publisher.extension" external311);
                 Fired (ProgressNotificationEvent discoveryFinished)])
     /\ generator s = Returned)
  /\ (exists s,
        exampleReducer false (threeYielded ++ [UpstreamDone])
        = Some (s, [Fired (ProgressNotificationEvent discoveryStarted);
                    Yielded (convertBasicToComposite venv39);
                    Yielded (convertBasicToComposite system310);
                    Yielded (convertBasicToComposite venv311);
                    Fired (ProgressNotificationEvent discoveryFinished)])
        /\ generator s = Returned).
Proof.
  split; eexists; (split; [vm_compute; reflexivity|reflexivity]).
Qed.

(** X3 (two producers report one executable): kinds Venv and System, in that
    order, Venv outranking System. The reducer yields one record with kind
    Venv and source producerA, then delivers an update for index 0 with both
    kinds and both sources, the old value having kind Venv. *)
Theorem two_producers_one_environment :
  exists s,
    exampleReducer true [Pull; UpstreamValue venv39; Pull; UpstreamValue system39]
    = Some (s,
        [Yielded (mkCompositeEnvInfo "/usr/bin/python3.9" ""
                    [PythonEnvKind_Venv] (Some ["producerA"]) "producerA");
         Fired (PythonEnvUpdatedEvent 0
                  (Some (mkCompositeEnvInfo "/usr/bin/python3.9" ""
                           [PythonEnvKind_Venv] (Some ["producerA"]) "producerA"))
                  (Some (mkCompositeEnvInfo "/usr/bin/python3.9" ""
                           [PythonEnvKind_Venv; PythonEnvKind_System]
                           (Some ["producerA"; "producerB"]) "producerA")))]).
Proof. eexists. vm_compute. reflexivity. Qed.

(** * Invariants and end-to-end properties *)

(** ** Sorting *)

Section SortOrder.
Context {A : Type}.
Variable isUndefined : A -> bool.
Variable comparefn : A -> A -> Z.

Abbreviation before := (mayPrecede comparefn).

Lemma insertFromRight_head (x : A) (rs : list A) :
  head (insertFromRight comparefn x rs) = Some x
  \/ (exists y, head rs = Some y /\ head (insertFromRight comparefn x rs) = Some y
                /\ comparefn x y < 0).
Proof.
  destruct rs as [|y rs]; simpl; [by left|].
  destruct (Z.ltb_spec (comparefn x y) 0); [right|by left].
  by exists y.
Qed.

Lemma insertFromRight_sorted (x : A) (rs : list A) :
  ComparatorAntisymmetric comparefn ->
  Sorted (flip before) rs -> Sorted (flip before) (insertFromRight comparefn x rs).
Proof.
  intros Hanti. induction 1 as [|y rs Hs IH Hhd]; simpl.
  - by repeat constructor.
  - destruct (Z.ltb_spec (comparefn x y) 0) as [Hlt|Hge].
    + constructor; [done|].
      destruct (insertFromRight_head x rs) as [Hx|(z & Hz & Hz' & _)].
      * destruct (insertFromRight comparefn x rs) as [|w ?]; [constructor|].
        simpl in Hx. simplify_eq. constructor. unfold flip, mayPrecede.
        apply Hanti in Hlt. lia.
      * destruct (insertFromRight comparefn x rs) as [|w ?]; [constructor|].
        simpl in Hz'. simplify_eq. destruct rs as [|w' ?]; simplify_eq/=.
        constructor. by inv Hhd.
    + repeat constructor; [done|done|]. unfold flip, mayPrecede. lia.
Qed.

Lemma fold_insert_sorted (l acc : list A) :
  ComparatorAntisymmetric comparefn ->
  Sorted (flip before) acc ->
  Sorted (flip before) (fold_left (fun rs x => insertFromRight comparefn x rs) l acc).
Proof.
  intros Hanti. revert acc. induction l as [|x l IH]; intros acc Hacc; simpl; [done|].
  apply IH. by apply insertFromRight_sorted.
Qed.

Lemma rev_is_reverse (l : list A) : rev l = reverse l.
Proof. unfold reverse. apply rev_alt. Qed.

Lemma sortDefined_sorted (l : list A) :
  ComparatorAntisymmetric comparefn -> Sorted before (sortDefined comparefn l).
Proof.
  intros Hanti. unfold sortDefined. rewrite rev_is_reverse.
  apply (Sorted_reverse (flip before)).
  apply fold_insert_sorted; [done|constructor].
Qed.

Lemma fold_insert_in_order (l acc : list A) :
  Sorted before l ->
  (forall y x, head acc = Some y -> head l = Some x -> before y x) ->
  fold_left (fun rs x => insertFromRight comparefn x rs) l acc = rev l ++ acc.
Proof.
  revert acc. induction l as [|x l IH]; intros acc Hs Hadj; simpl; [done|].
  assert (Hins : insertFromRight comparefn x acc = x :: acc).
  { destruct acc as [|y acc]; simpl; [done|].
    specialize (Hadj y x eq_refl eq_refl). unfold mayPrecede in Hadj.
    destruct (Z.ltb_spec (comparefn x y) 0); [lia|done]. }
  rewrite Hins, IH, <- app_assoc; [done| |].
  - by inv Hs.
  - intros y x' Hy Hx'. simpl in Hy. simplify_eq. inv Hs.
    destruct l as [|x'' ?]; simplify_eq/=. by inv H2.
Qed.

(** An array in order is left as it is. *)
Lemma sortDefined_in_order (l : list A) :
  Sorted before l -> sortDefined comparefn l = l.
Proof.
  intros Hs. unfold sortDefined. rewrite fold_insert_in_order; [|done|done].
  by rewrite app_nil_r, rev_involutive.
Qed.

Lemma filter_all (p : A -> bool) (l : list A) :
  Forall (fun x => p x = true) l -> List.filter p l = l.
Proof. induction 1 as [|x l Hx _ IH]; simpl; [done|]. by rewrite Hx, IH. Qed.

Lemma filter_none (p : A -> bool) (l : list A) :
  Forall (fun x => p x = false) l -> List.filter p l = [].
Proof. induction 1 as [|x l Hx _ IH]; simpl; [done|]. by rewrite Hx, IH. Qed.

Lemma Forall_filter_bool (p : A -> bool) (l : list A) :
  Forall (fun x => p x = true) (List.filter p l).
Proof.
  induction l as [|x l IH]; simpl; [constructor|].
  destruct (p x) eqn:Hx; [by constructor|done].
Qed.

Lemma sortDefined_defined (l : list A) :
  Forall (fun x => negb (isUndefined x) = true) l ->
  Forall (fun x => negb (isUndefined x) = true) (sortDefined comparefn l).
Proof. intros H. by rewrite sortDefined_perm. Qed.

Lemma Array_sort_split (d u : list A) :
  Forall (fun x => negb (isUndefined x) = true) d ->
  Forall (fun x => isUndefined x = true) u ->
  Array_sort isUndefined comparefn (d ++ u) = sortDefined comparefn d ++ u.
Proof.
  intros Hd Hu. unfold Array_sort. rewrite !List.filter_app.
  rewrite (filter_all _ d Hd).
  rewrite (filter_none (fun x => negb (isUndefined x)) u).
  2:{ eapply Forall_impl; [exact Hu|]. intros x Hx. cbn in Hx. by rewrite Hx. }
  rewrite (filter_none isUndefined d).
  2:{ eapply Forall_impl; [exact Hd|]. intros x Hx. cbn in Hx. by apply negb_true_iff. }
  by rewrite (filter_all _ u Hu), app_nil_r.
Qed.

(** Sorting twice is sorting once. *)
Lemma Array_sort_idempotent (l : list A) :
  ComparatorAntisymmetric comparefn ->
  Array_sort isUndefined comparefn (Array_sort isUndefined comparefn l)
  = Array_sort isUndefined comparefn l.
Proof.
  intros Hanti. unfold Array_sort at 2 3.
  rewrite Array_sort_split.
  - f_equal. apply sortDefined_in_order, sortDefined_sorted, Hanti.
  - apply sortDefined_defined, Forall_filter_bool.
  - apply Forall_filter_bool.
Qed.

(** In a sorted array no element outranks the first. *)
Lemma sorted_head_minimal (l : list A) (h x : A) :
  ConsistentComparator comparefn ->
  Sorted before l -> head l = Some h -> x ∈ l -> comparefn h x <= 0.
Proof.
  intros [Hanti Htrans] Hs Hh Hx.
  assert (Hle : forall a b, before a b <-> comparefn a b <= 0).
  { intros a b. unfold mayPrecede. split; intros H.
    - destruct (Z.le_gt_cases (comparefn a b) 0) as [|Hgt]; [done|].
      apply (Hanti b a) in Hgt. lia.
    - destruct (Z.le_gt_cases 0 (comparefn b a)) as [|Hlt]; [done|].
      apply (Hanti b a) in Hlt. lia. }
  assert (Hrefl : comparefn h h <= 0).
  { destruct (Z.le_gt_cases (comparefn h h) 0) as [|Hgt]; [done|].
    apply (Hanti h h) in Hgt. lia. }
  destruct l as [|h' l]; simplify_eq/=.
  apply elem_of_cons in Hx as [->|Hx]; [done|].
  assert (Hss : StronglySorted before (h :: l)).
  { apply Sorted_StronglySorted; [|done].
    intros a b c Hab Hbc. apply Hle. apply Hle in Hab, Hbc. by eapply Htrans. }
  apply StronglySorted_inv in Hss as [_ Hall].
  rewrite Forall_forall in Hall. apply Hle. apply Hall.
  done.
Qed.

End SortOrder.

(** ** Unions *)

Section UnionFacts.
Context {A : Type} `{EqDecision A}.

Abbreviation uniqStep :=
  (fun (acc : list A) (x : A) => if decide (x ∈ acc) then acc else acc ++ [x]).

Lemma uniq_fold_NoDup (l acc : list A) :
  NoDup acc -> NoDup (fold_left uniqStep l acc).
Proof.
  revert acc. induction l as [|x l IH]; intros acc Hacc; simpl; [done|].
  apply IH. destruct (decide (x ∈ acc)); [done|].
  apply NoDup_app. split; [done|]. split; [|apply NoDup_singleton].
  intros y Hy Hx. apply list_elem_of_singleton in Hx. by subst.
Qed.

Lemma lodash_uniq_NoDup (l : list A) : NoDup (lodash_uniq l).
Proof. apply uniq_fold_NoDup. constructor. Qed.

Lemma uniq_fold_known (l acc : list A) :
  (forall x, x ∈ l -> x ∈ acc) -> fold_left uniqStep l acc = acc.
Proof.
  revert acc. induction l as [|x l IH]; intros acc Hin; simpl; [done|].
  rewrite decide_True by (apply Hin; by left).
  apply IH. intros y Hy. apply Hin. by right.
Qed.

Lemma uniq_fold_fresh (l acc : list A) :
  NoDup (acc ++ l) -> fold_left uniqStep l acc = acc ++ l.
Proof.
  revert acc. induction l as [|x l IH]; intros acc Hnd; simpl.
  - by rewrite app_nil_r.
  - rewrite decide_False.
    + rewrite IH; rewrite <- app_assoc; done.
    + apply NoDup_app in Hnd as (_ & Hdis & _). intros Hx. apply (Hdis _ Hx). by left.
Qed.

(** The union gives back its first array exactly when that array has no
    duplicates and the other arrays bring nothing new. *)
Lemma lodash_uniq_app_fixed (a b : list A) :
  lodash_uniq (a ++ b) = a <-> NoDup a /\ forall x, x ∈ b -> x ∈ a.
Proof.
  split.
  - intros Heq. split.
    + rewrite <- Heq. apply lodash_uniq_NoDup.
    + intros x Hx. rewrite <- Heq. apply elem_of_lodash_uniq, elem_of_app. by right.
  - intros [Hnd Hin]. unfold lodash_uniq. rewrite fold_left_app.
    rewrite (uniq_fold_fresh a []) by done. cbn [app]. by apply uniq_fold_known.
Qed.

End UnionFacts.

(** ** More on collision resolution *)

Lemma exampleSortKind_consistent : ConsistentComparator exampleSortKind.
Proof.
  split.
  - intros a b. unfold exampleSortKind. lia.
  - intros a b c. unfold exampleSortKind. lia.
Qed.

Section CollisionMore.
Variable sortKindFunction : PythonEnvKind -> PythonEnvKind -> Z.
Variable sortExtensionSource : string -> string -> Z.

Abbreviation resolve' := (resolveEnvCollision sortKindFunction sortExtensionSource).
Abbreviation inPlace' := (kindsSortedInPlace sortKindFunction).
Abbreviation priority' := (comparePriority sortKindFunction sortExtensionSource).
Abbreviation base' := (mergeBase sortKindFunction sortExtensionSource).

Lemma sortKinds_perm (ks : list PythonEnvKind) : sortKinds sortKindFunction ks ≡ₚ ks.
Proof. apply Array_sort_perm. Qed.

Lemma sortKinds_idempotent (ks : list PythonEnvKind) :
  ComparatorAntisymmetric sortKindFunction ->
  sortKinds sortKindFunction (sortKinds sortKindFunction ks) = sortKinds sortKindFunction ks.
Proof. apply Array_sort_idempotent. Qed.

Lemma sortKinds_defined_part (ks : list PythonEnvKind) :
  sortKinds sortKindFunction ks
  = sortDefined sortKindFunction (List.filter (fun k => negb (isUndefinedKind k)) ks)
    ++ List.filter isUndefinedKind ks.
Proof. reflexivity. Qed.

(** X4 (getTopKind): under a consistent kind comparator, the kind returned is
    a kind of the array that no defined kind of the array outranks; it is
    undefined only when the array has no defined kind; and the array is left
    with the same kinds, reordered. *)
Theorem getTopKind_best (kinds : list PythonEnvKind) :
  ConsistentComparator sortKindFunction ->
  (forall k, Some k ∈ kinds ->
     exists t, (getTopKind sortKindFunction kinds).1 = Some t
               /\ Some t ∈ kinds
               /\ sortKindFunction (Some t) (Some k) <= 0)
  /\ ((getTopKind sortKindFunction kinds).1 = None <-> forall k, Some k ∉ kinds)
  /\ (getTopKind sortKindFunction kinds).2 ≡ₚ kinds.
Proof.
  intros Hcons. unfold getTopKind. cbn [fst snd].
  set (d := List.filter (fun k => negb (isUndefinedKind k)) kinds).
  assert (Hd : forall k, k ∈ d <-> k ∈ kinds /\ exists t, k = Some t).
  { intros k. unfold d. rewrite !list_elem_of_In, List.filter_In.
    destruct k as [t|]; cbn; split; intros [? ?]; split; eauto; try done.
    by destruct H0. }
  assert (Hsd : forall k, k ∈ sortDefined sortKindFunction d <-> k ∈ d).
  { intros k. by rewrite sortDefined_perm. }
  rewrite sortKinds_defined_part. fold d.
  assert (Hhead : forall x, head (sortDefined sortKindFunction d) = Some x ->
            (sortDefined sortKindFunction d ++ List.filter isUndefinedKind kinds) !! 0%nat
            = Some x).
  { intros x Hx. destruct (sortDefined sortKindFunction d); by simplify_eq/=. }
  assert (Hsorted : Sorted (mayPrecede sortKindFunction) (sortDefined sortKindFunction d)).
  { apply sortDefined_sorted, Hcons. }
  split; [|split; [|apply sortKinds_perm]].
  - intros k Hk.
    assert (Hkd : Some k ∈ sortDefined sortKindFunction d).
    { apply Hsd, Hd. eauto. }
    destruct (sortDefined sortKindFunction d) as [|h rest] eqn:Hs.
    { by apply elem_of_nil in Hkd. }
    assert (Hh : h ∈ d) by (apply Hsd; by left).
    apply Hd in Hh as [Hin [t ->]].
    exists t. cbn. split; [done|]. split; [done|].
    by eapply (sorted_head_minimal sortKindFunction (Some t :: rest)).
  - split.
    + intros Hnone k Hk.
      assert (Hkd : Some k ∈ sortDefined sortKindFunction d) by (apply Hsd, Hd; eauto).
      destruct (sortDefined sortKindFunction d) as [|h rest] eqn:Hs.
      { by apply elem_of_nil in Hkd. }
      assert (Hh : h ∈ d) by (apply Hsd; by left).
      apply Hd in Hh as [_ [t ->]]. by cbn in Hnone.
    + intros Hno.
      destruct (sortDefined sortKindFunction d) as [|h rest] eqn:Hs.
      * cbn. destruct (List.filter isUndefinedKind kinds) as [|u rest] eqn:Hu; [done|].
        assert (Hin : In u (List.filter isUndefinedKind kinds)) by (rewrite Hu; by left).
        apply List.filter_In in Hin as [_ Hund]. by destruct u.
      * assert (Hh : h ∈ d) by (apply Hsd; by left).
        apply Hd in Hh as [Hin [t ->]]. by destruct (Hno t).
Qed.

(** X5 (what a merge holds): the merged record's kind and source arrays have no
    duplicates, whatever the operands had; they hold the kinds and sources
    of both operands and nothing else; and [source] is defined after a merge
    even when it was undefined in both operands. *)
Theorem resolveEnvCollision_union (oldEnv newEnv : CompositeEnvInfo) :
  NoDup (kind (merged (resolve' oldEnv newEnv)))
  /\ (exists sources, source (merged (resolve' oldEnv newEnv)) = Some sources
                      /\ NoDup sources)
  /\ (forall k, k ∈ kind (merged (resolve' oldEnv newEnv))
                <-> k ∈ kind oldEnv \/ k ∈ kind newEnv)
  /\ (forall x, x ∈ sourceOrEmpty (merged (resolve' oldEnv newEnv))
                <-> x ∈ sourceOrEmpty oldEnv \/ x ∈ sourceOrEmpty newEnv).
Proof.
  split; [|split; [|split]].
  - rewrite resolveEnvCollision_unfold. cbn [merged kind]. apply lodash_uniq_NoDup.
  - rewrite resolveEnvCollision_unfold. cbn [merged source]. eexists. split; [done|].
    apply lodash_uniq_NoDup.
  - intros k. apply elem_of_merged_kind.
  - intros x. apply elem_of_merged_source.
Qed.

(** X6 (merging in any grouping): merging three records of one environment
    gives the same kinds and the same sources whether the first two or the
    last two are merged first. *)
Theorem resolveEnvCollision_associative (a b c : CompositeEnvInfo) :
  (forall k,
     k ∈ kind (merged (resolve' (merged (resolve' a b)) c))
     <-> k ∈ kind (merged (resolve' a (merged (resolve' b c)))))
  /\ (forall x,
        x ∈ sourceOrEmpty (merged (resolve' (merged (resolve' a b)) c))
        <-> x ∈ sourceOrEmpty (merged (resolve' a (merged (resolve' b c))))).
Proof.
  split; intros x; rewrite ?elem_of_merged_kind, ?elem_of_merged_source; tauto.
Qed.

Lemma comparePriority_flip (a b : CompositeEnvInfo) :
  ComparatorAntisymmetric sortKindFunction ->
  ComparatorAntisymmetric sortExtensionSource ->
  0 <= priority' a b -> priority' b a <= 0.
Proof.
  intros HK HE. unfold comparePriority.
  set (ta := (getTopKind sortKindFunction (kind a)).1).
  set (tb := (getTopKind sortKindFunction (kind b)).1).
  pose proof (HK ta tb) as H1. pose proof (HK tb ta) as H2.
  pose proof (HE (extensionId a) (extensionId b)) as H3.
  pose proof (HE (extensionId b) (extensionId a)) as H4.
  destruct (Z.eqb_spec (sortKindFunction ta tb) 0) as [E1|E1];
    destruct (Z.eqb_spec (sortKindFunction tb ta) 0) as [E2|E2]; cbn [negb]; lia.
Qed.

(** X7 (the base of a merge): every field of the merged record other than
    kind and source is taken from one operand, the new record when the
    comparator puts it strictly first and the old record otherwise; under
    antisymmetric comparators the operand taken is never ranked after the
    other one. *)
Theorem resolveEnvCollision_base (oldEnv newEnv : CompositeEnvInfo) :
  let chosen := if priority' newEnv oldEnv <? 0 then newEnv else oldEnv in
  let other := if priority' newEnv oldEnv <? 0 then oldEnv else newEnv in
  executablePath (merged (resolve' oldEnv newEnv)) = executablePath chosen
  /\ envPath (merged (resolve' oldEnv newEnv)) = envPath chosen
  /\ extensionId (merged (resolve' oldEnv newEnv)) = extensionId chosen
  /\ (ComparatorAntisymmetric sortKindFunction ->
      ComparatorAntisymmetric sortExtensionSource ->
      priority' chosen other <= 0).
Proof.
  cbn zeta. rewrite resolveEnvCollision_unfold. cbn [merged executablePath envPath extensionId].
  unfold mergeBase. destruct (Z.ltb_spec (priority' newEnv oldEnv) 0) as [Hlt|Hge].
  - repeat split; try done. intros _ _. lia.
  - repeat split; try done. intros HK HE. by apply comparePriority_flip.
Qed.

(** X8 (what a merge does to its operands): the call changes nothing in an
    operand but the order of its kind array; an operand whose kinds the sort
    leaves alone is unchanged; and under an antisymmetric kind comparator a
    second call leaves the operand as the first call left it. *)
Theorem resolveEnvCollision_operand_frame (oldEnv newEnv other : CompositeEnvInfo) :
  let r := resolve' oldEnv newEnv in
  (executablePath (oldAfter r) = executablePath oldEnv
   /\ envPath (oldAfter r) = envPath oldEnv
   /\ source (oldAfter r) = source oldEnv
   /\ extensionId (oldAfter r) = extensionId oldEnv
   /\ kind (oldAfter r) ≡ₚ kind oldEnv)
  /\ (executablePath (newAfter r) = executablePath newEnv
      /\ envPath (newAfter r) = envPath newEnv
      /\ source (newAfter r) = source newEnv
      /\ extensionId (newAfter r) = extensionId newEnv
      /\ kind (newAfter r) ≡ₚ kind newEnv)
  /\ (sortKinds sortKindFunction (kind oldEnv) = kind oldEnv -> oldAfter r = oldEnv)
  /\ (ComparatorAntisymmetric sortKindFunction ->
      oldAfter (resolve' (oldAfter r) other) = oldAfter r
      /\ newAfter (resolve' other (oldAfter r)) = oldAfter r).
Proof.
  cbn zeta. rewrite !resolveEnvCollision_unfold. cbn [oldAfter newAfter].
  split; [|split; [|split]].
  - repeat split; try done. apply sortKinds_perm.
  - repeat split; try done. apply sortKinds_perm.
  - intros Hfix. unfold kindsSortedInPlace, getTopKind. cbn [snd]. rewrite Hfix.
    by destruct oldEnv.
  - intros Hanti.
    unfold kindsSortedInPlace, getTopKind, set_kind. cbn [snd kind executablePath envPath source extensionId].
    by rewrite sortKinds_idempotent.
Qed.

(** X9 (when a merge changes nothing): if the new record does not outrank the
    old one, the merged record equals the old record as the call left it
    exactly when the old record's kinds have no duplicates and include the
    new record's kinds, and its source is defined, has no duplicates and
    includes the new record's sources. *)
Theorem resolveEnvCollision_nothing_new (oldEnv newEnv : CompositeEnvInfo) :
  0 <= priority' newEnv oldEnv ->
  lodash_isEqual (oldAfter (resolve' oldEnv newEnv)) (merged (resolve' oldEnv newEnv)) = true
  <-> (NoDup (kind oldEnv)
       /\ (forall k, k ∈ kind newEnv -> k ∈ kind oldEnv)
       /\ exists sources, source oldEnv = Some sources /\ NoDup sources
                          /\ forall x, x ∈ sourceOrEmpty newEnv -> x ∈ sources).
Proof.
  intros Hrank.
  assert (Hbase : base' oldEnv newEnv = inPlace' oldEnv).
  { unfold mergeBase. destruct (Z.ltb_spec (priority' newEnv oldEnv) 0); [lia|done]. }
  rewrite resolveEnvCollision_unfold. cbn zeta. rewrite Hbase. cbn [oldAfter merged].
  unfold lodash_isEqual. rewrite bool_decide_eq_true.
  set (K := sortKinds sortKindFunction (kind oldEnv)).
  set (N := sortKinds sortKindFunction (kind newEnv)).
  assert (HK : forall k, k ∈ K <-> k ∈ kind oldEnv) by (intros k; apply elem_of_sortKinds).
  assert (HN : forall k, k ∈ N <-> k ∈ kind newEnv) by (intros k; apply elem_of_sortKinds).
  assert (Hkinds : lodash_union [K; K; N] = K
                   <-> NoDup (kind oldEnv) /\ forall k, k ∈ kind newEnv -> k ∈ kind oldEnv).
  { unfold lodash_union. cbn [concat]. rewrite app_nil_r, lodash_uniq_app_fixed.
    unfold K at 1. rewrite sortKinds_perm. fold K. split.
    - intros [Hnd Hin]. split; [done|]. intros k Hk. apply HK, Hin, elem_of_app.
      right. by apply HN.
    - intros [Hnd Hin]. split; [done|]. intros k [Hk|Hk]%elem_of_app; [done|].
      by apply HK, Hin, HN. }
  assert (Hsources : forall S,
            lodash_union [S; sourceOrEmpty newEnv] = S
            <-> NoDup S /\ forall x, x ∈ sourceOrEmpty newEnv -> x ∈ S).
  { intros S. unfold lodash_union. cbn [concat]. by rewrite app_nil_r, lodash_uniq_app_fixed. }
  unfold kindsSortedInPlace, getTopKind, set_kind.
  cbn [snd kind executablePath envPath source extensionId sourceOrEmpty]. fold K N.
  split.
  - intros Heq. injection Heq as Hk Hs.
    destruct (source oldEnv) as [S|] eqn:HS; [|done]. injection Hs as Hs.
    symmetry in Hk, Hs.
    replace (sourceOrEmpty oldEnv) with S in Hs by (unfold sourceOrEmpty; by rewrite HS).
    apply Hkinds in Hk as [? ?]. apply Hsources in Hs as [? ?]. eauto 10.
  - intros (Hnd & Hin & S & HS & HndS & HinS).
    replace (sourceOrEmpty oldEnv) with S by (unfold sourceOrEmpty; by rewrite HS).
    rewrite HS.
    f_equal; [symmetry; by apply Hkinds|]. f_equal. symmetry. by apply Hsources.
Qed.

End CollisionMore.

Lemma getTopKind_best_witness :
  exists t,
    (getTopKind exampleSortKind
       [PythonEnvKind_Unknown; None; PythonEnvKind_System; PythonEnvKind_Venv]).1 = Some t
    /\ exampleSortKind (Some t) PythonEnvKind_System <= 0.
Proof.
  destruct (proj1 (getTopKind_best exampleSortKind
                     [PythonEnvKind_Unknown; None; PythonEnvKind_System; PythonEnvKind_Venv]
                     exampleSortKind_consistent) "global-system")
    as (t & Ht & _ & Hle).
  - right. right. by left.
  - by exists t.
Defined.

Lemma resolveEnvCollision_nothing_new_witness :
  lodash_isEqual
    (oldAfter (resolveEnvCollision exampleSortKind exampleSortExtension
                 (convertBasicToComposite venv39) (convertBasicToComposite venv39)))
    (merged (resolveEnvCollision exampleSortKind exampleSortExtension
               (convertBasicToComposite venv39) (convertBasicToComposite venv39)))
  = true.
Proof.
  apply (resolveEnvCollision_nothing_new exampleSortKind exampleSortExtension
           (convertBasicToComposite venv39) (convertBasicToComposite venv39)).
  - vm_compute. discriminate.
  - split; [|split].
    + apply NoDup_singleton.
    + done.
    + exists ["producerA"]. split; [done|]. split; [apply NoDup_singleton|done].
Defined.

(** ** Turns of a stage *)

Section TurnFacts.
Context {I O : Type}.
Variable convertItem : I -> O.
Variable hasOnUpdated : bool.
Variable loopBody : O -> @Eff I O.

Abbreviation stepU := (step convertItem hasOnUpdated loopBody).
Abbreviation runFromU := (runFrom convertItem hasOnUpdated loopBody).
Abbreviation runU := (run convertItem hasOnUpdated loopBody).
Abbreviation InvU := (@StageInv I O hasOnUpdated).
Abbreviation TrackU := (@StageTrack I O hasOnUpdated).

Hypothesis loopBody_frame : LoopBodyFrame loopBody.
Hypothesis loopBody_shape : LoopBodyShape loopBody.

Lemma inv_settled (s : Stage O) (outs : list (Output I O)) : InvU s outs -> Settled s.
Proof. intros HI ? ?. by apply (inv_disposed _ _ _ HI). Qed.

(** Every turn, spelled out. *)
Lemma step_cases (s s' : Stage O) (outs o : list (Output I O)) (a : Action I) :
  InvU s outs -> stepU a s = Some (s', o) ->
  match a with
  | Pull =>
      match generator s with
      | NotStarted =>
          s' = set_generator AwaitingNext (if hasOnUpdated then set_listening true s else s)
          /\ o = (if hasOnUpdated then []
                  else [Fired (ProgressNotificationEvent discoveryStarted)])
      | SuspendedAtYield currEnv =>
          s' = set_generator AwaitingNext (set_seen (seen s ++ [currEnv]) s) /\ o = []
      | _ => s' = s /\ o = []
      end
  | UpstreamValue v => generator s = AwaitingNext /\ loopBody (convertItem v) s = (s', o)
  | UpstreamDone =>
      generator s = AwaitingNext
      /\ if hasOnUpdated then s' = set_generator Returned s /\ o = []
         else s' = set_generator Returned (set_disposed true (set_done true s))
              /\ o = [Fired (ProgressNotificationEvent discoveryFinished)]
  | UpstreamEvent e =>
      if listening s then
        match e with
        | ProgressNotificationEvent discoveryStarted =>
            s' = s /\ o = [Fired (ProgressNotificationEvent discoveryStarted)]
        | ProgressNotificationEvent discoveryFinished =>
            if pending s =? 0
            then s' = set_disposed true (set_listening false (set_done true s))
                 /\ o = [Fired (ProgressNotificationEvent discoveryFinished)]
            else s' = set_listening false (set_done true s) /\ o = []
        | PythonEnvUpdatedEvent index old (Some update) =>
            match at_index (seen s) index with
            | Some oldEnv =>
                s' = set_seen (<[Z.to_nat index := convertItem update]> (seen s)) s
                /\ o = [Fired (PythonEnvUpdatedEvent index (Some oldEnv)
                                 (Some (convertItem update)))]
            | None => s' = s /\ o = [Logged old index]
            end
        | PythonEnvUpdatedEvent index old None =>
            s' = set_pending (pending s + 1) s /\ o = [Raised unsupportedUndefinedUpdate]
        end
      else s' = s /\ o = []
  end.
Proof.
  intros HI Hstep.
  destruct a as [|v| |e].
  - unfold step in Hstep. destruct (generator s) as [| |currEnv|] eqn:Hg; simplify_eq.
    + unfold prologue, andThen, modify, fire, skip, emit in *.
      pose proof (inv_fresh _ _ _ HI Hg) as Hd.
      assert (Hdp : disposed s = false).
      { destruct (disposed s) eqn:E; [|done].
        destruct (proj1 (inv_disposed _ _ _ HI) E). congruence. }
      destruct hasOnUpdated; cbn in Hstep; rewrite ?Hdp in Hstep; by simplify_eq.
    + unfold resume, modify in *. by simplify_eq.
    + unfold skip in *. by simplify_eq.
  - unfold step in Hstep. destruct (generator s) as [| |currEnv|] eqn:Hg; by simplify_eq.
  - unfold step in Hstep. destruct (generator s) as [| |currEnv|] eqn:Hg; simplify_eq.
    split; [done|]. unfold epilogue, andThen, modify, skip in *.
    destruct hasOnUpdated eqn:Hu; [by simplify_eq|].
    rewrite checkIfFinishedAndNotify_unfold in Hstep.
    destruct (inv_plain _ _ _ HI eq_refl) as [Hp0 [Ha Hb]].
    assert (Hd : done s = false).
    { destruct (done s); [|done]. specialize (Ha eq_refl). congruence. }
    assert (Hdp : disposed s = false).
    { destruct (disposed s) eqn:E; [|done].
      destruct (proj1 (inv_disposed _ _ _ HI) E). congruence. }
    cbn in Hstep. rewrite Hp0, Hdp in Hstep. cbn in Hstep. by simplify_eq.
  - destruct (listening s) eqn:Hl.
    + destruct (listening_open _ _ _ HI Hl) as [Hdone Hdp].
      destruct e as [[]|index old [update|]].
      * assert (Hd : deliver convertItem (@ProgressNotificationEvent I discoveryStarted) s
                     = (s, [Fired (ProgressNotificationEvent discoveryStarted)])).
        { unfold deliver. rewrite Hl. unfold listener, dispatch. cbn.
          unfold fire, emit. cbn. rewrite Hdp. cbn.
          unfold andThen, modify. cbn. rewrite checkIfFinishedAndNotify_unfold. cbn.
          rewrite Hdone. cbn. destruct s as [d p sn l dp g]; cbn in *.
          unfold set_pending; cbn. by replace (p + 1 - 1) with p by lia. }
        unfold step in Hstep. rewrite Hd in Hstep. destruct (generator s); by simplify_eq.
      * destruct (Z.eqb_spec (pending s) 0) as [Hp|Hp].
        -- rewrite (step_finished_event _ _ _ _ _ HI Hl Hp) in Hstep. by simplify_eq.
        -- assert (Hd : deliver convertItem (@ProgressNotificationEvent I discoveryFinished) s
                        = (set_listening false (set_done true s), [])).
           { unfold deliver. rewrite Hl. unfold listener, dispatch. cbn.
             unfold andThen, modify. cbn. rewrite checkIfFinishedAndNotify_unfold. cbn.
             replace (pending s + 1 - 1 =? 0) with false
               by (symmetry; apply Z.eqb_neq; lia). cbn.
             destruct s as [d p sn l dp g]; cbn in *.
             unfold set_listening, set_done, set_pending; cbn. f_equal. f_equal. lia. }
           unfold step in Hstep. rewrite Hd in Hstep. destruct (generator s); by simplify_eq.
      * destruct (at_index (seen s) index) as [oldEnv|] eqn:Hat.
        -- rewrite (step_update_applied _ _ _ _ _ _ _ _ _ HI Hl Hat) in Hstep. by simplify_eq.
        -- rewrite (step_update_dropped _ _ _ _ _ _ _ _ HI Hat), Hl in Hstep. by simplify_eq.
      * assert (Hd : deliver convertItem (PythonEnvUpdatedEvent index old None) s
                     = (set_pending (pending s + 1) s, [Raised unsupportedUndefinedUpdate])).
        { unfold deliver. rewrite Hl. by unfold listener, dispatch. }
        unfold step in Hstep. rewrite Hd in Hstep. destruct (generator s); by simplify_eq.
    + assert (Hd : deliver convertItem e s = (s, [])) by (unfold deliver; by rewrite Hl).
      unfold step in Hstep. rewrite Hd in Hstep. destruct (generator s); by simplify_eq.
Qed.

(** A property kept by every turn holds after every run. *)
Lemma runFrom_invariant (P : Stage O -> list (Output I O) -> Prop) :
  (forall s outs a s' o,
     InvU s outs -> P s outs -> stepU a s = Some (s', o) -> P s' (outs ++ o)) ->
  forall acts s outs s' o,
    InvU s outs -> P s outs -> runFromU s acts = Some (s', o) -> P s' (outs ++ o).
Proof.
  intros Hstep acts. induction acts as [|a acts IH]; intros s outs s' o HI HP Hrun;
    simpl in Hrun.
  - simplify_eq. by rewrite app_nil_r.
  - destruct (stepU a s) as [[s1 o1]|] eqn:Hs; [|done].
    destruct (runFromU s1 acts) as [[s2 o2]|] eqn:Hrest; [|done].
    simplify_eq. rewrite app_assoc. eapply IH; [by eapply step_inv| |done].
    by eapply Hstep.
Qed.

Lemma run_invariant (P : Stage O -> list (Output I O) -> Prop) :
  P initial [] ->
  (forall s outs a s' o,
     InvU s outs -> P s outs -> stepU a s = Some (s', o) -> P s' (outs ++ o)) ->
  forall acts s o, runU acts = Some (s, o) -> P s o.
Proof.
  intros H0 Hstep acts s o Hrun.
  apply (runFrom_invariant P Hstep acts initial [] s o (Inv_initial _)); done.
Qed.

Lemma split_snoc {A : Type} (outs o1 o2 : list A) (x y : A) :
  outs ++ [x] = o1 ++ y :: o2 ->
  (o2 = [] /\ o1 = outs /\ x = y) \/ (exists o2', o2 = o2' ++ [x] /\ outs = o1 ++ y :: o2').
Proof.
  intros Heq. destruct (decide (o2 = [])) as [->|Hne].
  - left. apply app_inj_tail in Heq as [-> ->]. done.
  - right. destruct (exists_last Hne) as (o2' & z & ->).
    rewrite app_comm_cons, app_assoc in Heq. apply app_inj_tail in Heq as [-> ->].
    by exists o2'.
Qed.

Lemma track_indices_snoc (outs : list (Output I O)) (x : Output I O) :
  (forall o1 index old update o2,
     outs = o1 ++ Fired (PythonEnvUpdatedEvent index old update) :: o2 ->
     (exists oldEnv newEnv, old = Some oldEnv /\ update = Some newEnv)
     /\ 0 <= index < Z.of_nat (length (yields o1))) ->
  (forall index old update,
     x = Fired (PythonEnvUpdatedEvent index old update) ->
     (exists oldEnv newEnv, old = Some oldEnv /\ update = Some newEnv)
     /\ 0 <= index < Z.of_nat (length (yields outs))) ->
  forall o1 index old update o2,
    outs ++ [x] = o1 ++ Fired (PythonEnvUpdatedEvent index old update) :: o2 ->
    (exists oldEnv newEnv, old = Some oldEnv /\ update = Some newEnv)
    /\ 0 <= index < Z.of_nat (length (yields o1)).
Proof.
  intros Houts Hx o1 index old update o2 Heq.
  apply split_snoc in Heq as [(_ & -> & ->)|(o2' & _ & ->)]; eauto.
Qed.

Lemma yields_snoc_other (outs : list (Output I O)) (x : Output I O) :
  isYielded x = false -> yields (outs ++ [x]) = yields outs.
Proof.
  intros Hx. rewrite yields_app. destruct x; try done; cbn; by rewrite app_nil_r.
Qed.

Lemma startedCount_app (outs o : list (Output I O)) :
  startedCount (outs ++ o) = (startedCount outs + startedCount o)%nat.
Proof. unfold startedCount. by rewrite List.filter_app, length_app. Qed.

Lemma at_index_Some {A : Type} (l : list A) (i : Z) (x : A) :
  at_index l i = Some x -> 0 <= i < Z.of_nat (length l) /\ l !! Z.to_nat i = Some x.
Proof.
  unfold at_index. destruct (Z.leb_spec 0 i) as [Hi|Hi]; [|done].
  intros Hx. split; [|done]. apply lookup_lt_Some in Hx. lia.
Qed.

Lemma at_index_None {A : Type} (l : list A) (i : Z) :
  at_index l i = None <-> i < 0 \/ Z.of_nat (length l) <= i.
Proof.
  unfold at_index. destruct (Z.leb_spec 0 i) as [Hi|Hi]; [|split; [lia|done]].
  rewrite lookup_ge_None. lia.
Qed.

Lemma Track_initial : TrackU initial [].
Proof.
  split; cbn; try done.
  intros o1 index old update o2 Heq. by destruct o1.
Qed.

Lemma head_app_keep {A : Type} (l o : list A) (x : A) :
  head l = Some x -> head (l ++ o) = Some x.
Proof. by destruct l. Qed.

Lemma step_track (s s' : Stage O) (outs o : list (Output I O)) (a : Action I) :
  InvU s outs -> TrackU s outs -> stepU a s = Some (s', o) -> TrackU s' (outs ++ o).
Proof.
  intros HI HT Hstep. pose proof (step_cases _ _ _ _ _ HI Hstep) as Hc.
  destruct HT as [T1 T2 T3 T4 T5 T6]. unfold emitted in *.
  destruct a as [|v| |e].
  - destruct (generator s) as [| |currEnv|] eqn:Hg.
    + destruct (T4 eq_refl) as [-> ->]. destruct Hc as [-> ->].
      destruct hasOnUpdated eqn:Hu; split; unfold emitted; cbn; try done.
      all: intros o1 index old update o2 Heq; destruct o1 as [|? [|]]; by simplify_eq.
    + destruct Hc as [-> ->]. rewrite app_nil_r. split; unfold emitted; rewrite ?Hg; try done.
    + destruct Hc as [-> ->]. rewrite app_nil_r.
      split; unfold emitted; cbn; rewrite ?app_nil_r; try done.
      * intros Hu _ Hd. by apply T3.
      * intros Hu. destruct (T5 Hu) as [Hc Hh]. split; [done|]. intros _. by apply Hh.
    + destruct Hc as [-> ->]. rewrite app_nil_r. split; unfold emitted; rewrite ?Hg; try done.
  - destruct Hc as [Hg Hbody]. rewrite Hg in *. rewrite app_nil_r in T1.
    pose proof (inv_settled _ _ HI) as Hsettled.
    destruct (loopBody_frame _ _ _ _ Hbody Hg Hsettled) as (Hd & Hp & Hl & Hdp & _ & _).
    destruct (loopBody_shape _ _ _ _ Hbody Hg Hsettled)
      as [[-> ->]|(Hg' & Hlen & Ho)].
    + split; unfold emitted; cbn; rewrite ?yields_app, ?length_app, ?startedCount_app; cbn; try done.
      * by rewrite <- T1.
      * intros currEnv [= <-]. by rewrite last_snoc.
      * intros Hu _ Hdone. by apply T3.
      * intros Hu. destruct (T5 Hu) as [Hc Hh]. split; [lia|]. intros _.
        apply head_app_keep, Hh. done.
      * apply track_indices_snoc; [done|]. done.
    + assert (Hidx : forall o1 index old update o2,
                outs ++ o = o1 ++ Fired (PythonEnvUpdatedEvent index old update) :: o2 ->
                (exists oldEnv newEnv, old = Some oldEnv /\ update = Some newEnv)
                /\ 0 <= index < Z.of_nat (length (yields o1))).
      { destruct Ho as [->|(_ & index & oldEnv & update & -> & Hi)].
        - by rewrite app_nil_r.
        - apply track_indices_snoc; [done|]. intros ? ? ? [= <- <- <-].
          split; [eauto|]. rewrite <- T1. done. }
      assert (Hy : yields (outs ++ o) = yields outs).
      { destruct Ho as [->|(_ & index & oldEnv & update & -> & Hi)].
        - by rewrite app_nil_r.
        - by apply yields_snoc_other. }
      assert (Hsc : startedCount (outs ++ o) = startedCount outs).
      { destruct Ho as [->|(_ & index & oldEnv & update & -> & Hi)].
        - by rewrite app_nil_r.
        - rewrite startedCount_app. cbn. lia. }
      assert (Hh : forall x, head outs = Some x -> head (outs ++ o) = Some x)
        by (intros x; apply head_app_keep).
      split; unfold emitted; rewrite ?Hg', ?Hy, ?Hsc, ?app_nil_r; try done.
      * by rewrite Hlen.
      * intros Hu _ Hdone. rewrite Hl. apply T3; [done|done|congruence].
      * intros Hu. destruct (T5 Hu) as [Hc Hhd]. split; [done|]. intros _. by apply Hh, Hhd.
  - destruct Hc as [Hg Hc]. rewrite Hg in *. rewrite app_nil_r in T1.
    destruct hasOnUpdated eqn:Hu; destruct Hc as [-> ->].
    + rewrite app_nil_r. split; unfold emitted; cbn; rewrite ?app_nil_r; try done.
      intros _ _ Hd. by apply T3.
    + split; unfold emitted; cbn; rewrite ?app_nil_r; try done.
      * by rewrite yields_snoc_other.
      * intros _. destruct (T5 eq_refl) as [Hc Hh]. rewrite startedCount_app. cbn.
        split; [lia|]. intros _. by apply head_app_keep, Hh.
      * apply track_indices_snoc; [done|]. done.
  - destruct (listening s) eqn:Hl.
    + destruct (inv_listening _ _ _ HI Hl) as (Hu & Hdone & Hg).
      assert (Hnf : forall P : Prop, generator s = NotStarted -> P) by (intros P ?; done).
      assert (Hplain : forall P : Prop, hasOnUpdated = false -> P) by (intros P ?; congruence).
      destruct e as [[]|index old [update|]].
      * destruct Hc as [-> ->]. split; rewrite ?yields_snoc_other; try done;
          try (intros ?; by apply Hnf); try (intros ?; by apply Hplain).
        apply track_indices_snoc; [done|]. done.
      * destruct (pending s =? 0); destruct Hc as [-> ->]; rewrite ?app_nil_r;
          split; unfold emitted; cbn; rewrite ?yields_snoc_other; try done;
          try (intros ?; by apply Hnf); try (intros ?; by apply Hplain).
        apply track_indices_snoc; [done|]. done.
      * destruct (at_index (seen s) index) as [oldEnv|] eqn:Hat; destruct Hc as [-> ->].
        -- apply at_index_Some in Hat as [Hi _].
           split; unfold emitted; cbn;
             rewrite ?yields_snoc_other, ?length_app, ?length_insert; try done;
             try (intros ?; by apply Hnf); try (intros ?; by apply Hplain).
           ++ by rewrite <- T1, length_app.
           ++ apply track_indices_snoc; [done|]. intros ? ? ? [= <- <- <-].
              split; [eauto|]. rewrite <- T1, length_app. lia.
        -- split; rewrite ?yields_snoc_other; try done;
             try (intros ?; by apply Hnf); try (intros ?; by apply Hplain).
           apply track_indices_snoc; [done|]. done.
      * destruct Hc as [-> ->].
        split; unfold emitted; cbn; rewrite ?yields_snoc_other; try done;
             try (intros ?; by apply Hnf); try (intros ?; by apply Hplain).
        apply track_indices_snoc; [done|]. done.
    + destruct Hc as [-> ->]. rewrite app_nil_r. split; unfold emitted; rewrite ?Hl; done.
Qed.

Lemma run_track (acts : list (Action I)) (s : Stage O) (o : list (Output I O)) :
  runU acts = Some (s, o) -> TrackU s o.
Proof.
  apply (run_invariant TrackU Track_initial). intros. by eapply step_track.
Qed.

(** Once Finished is out, a turn lets out values only. *)
Lemma step_disposed (s s' : Stage O) (outs o : list (Output I O)) (a : Action I) :
  InvU s outs -> disposed s = true -> stepU a s = Some (s', o) ->
  disposed s' = true /\ forallb isYielded o = true
  /\ (hasOnUpdated = false -> s' = s /\ o = []).
Proof.
  intros HI Hdp Hstep. pose proof (step_cases _ _ _ _ _ HI Hstep) as Hc.
  destruct (proj1 (inv_disposed _ _ _ HI) Hdp) as [Hdone Hp].
  assert (Hl : listening s = false).
  { destruct (listening s) eqn:E; [|done].
    destruct (listening_open _ _ _ HI E). congruence. }
  assert (Hret : hasOnUpdated = false -> generator s = Returned).
  { intros Hu. by apply (inv_plain _ _ _ HI Hu). }
  destruct a as [|v| |e].
  - destruct (generator s) as [| |currEnv|] eqn:Hg.
    + pose proof (inv_fresh _ _ _ HI Hg). congruence.
    + destruct Hc as [-> ->]. done.
    + destruct Hc as [-> ->]. split; [done|]. split; [done|].
      intros Hu. specialize (Hret Hu). congruence.
    + destruct Hc as [-> ->]. done.
  - destruct Hc as [Hg Hbody].
    pose proof (inv_settled _ _ HI) as Hsettled.
    destruct (loopBody_frame _ _ _ _ Hbody Hg Hsettled) as (_ & _ & _ & Hdp' & _ & _).
    split; [congruence|].
    assert (Hplain : hasOnUpdated = false -> s' = s /\ o = []).
    { intros Hu. specialize (Hret Hu). congruence. }
    destruct (loopBody_shape _ _ _ _ Hbody Hg Hsettled)
      as [[-> ->]|(_ & _ & [->|[Hx _]])]; [done|done|congruence].
  - destruct Hc as [Hg Hc].
    destruct hasOnUpdated eqn:Hu; [destruct Hc as [-> ->]; by repeat split|].
    specialize (Hret eq_refl). congruence.
  - rewrite Hl in Hc. destruct Hc as [-> ->]. done.
Qed.

Lemma runFrom_disposed (acts : list (Action I)) (s s' : Stage O) (outs o : list (Output I O)) :
  InvU s outs -> disposed s = true -> runFromU s acts = Some (s', o) ->
  disposed s' = true /\ forallb isYielded o = true
  /\ (hasOnUpdated = false -> s' = s /\ o = []).
Proof.
  revert s outs o. induction acts as [|a acts IH]; intros s outs o HI Hdp Hrun;
    simpl in Hrun.
  - by simplify_eq.
  - destruct (stepU a s) as [[s1 o1]|] eqn:Hstep; [|done].
    destruct (runFromU s1 acts) as [[s2 o2]|] eqn:Hrest; [|done]. simplify_eq.
    destruct (step_disposed _ _ _ _ _ HI Hdp Hstep) as (Hdp1 & Hy1 & Hplain1).
    destruct (IH s1 (outs ++ o1) o2 (step_inv _ _ _ loopBody_frame _ _ _ _ _ HI Hstep)
                Hdp1 Hrest) as (Hdp2 & Hy2 & Hplain2).
    split; [done|]. split; [by rewrite forallb_app, Hy1, Hy2|].
    intros Hu. destruct (Hplain1 Hu) as [-> ->]. destruct (Hplain2 Hu) as [-> ->]. done.
Qed.

(** A stage that is not listening ignores what the upstream source fires. *)
Lemma step_not_listening (s : Stage O) (e : Notification I) :
  listening s = false -> stepU (UpstreamEvent e) s = Some (s, []).
Proof.
  intros Hl. unfold step, deliver. rewrite Hl. by destruct (generator s).
Qed.

Lemma runFrom_events_before_start (events : list (Notification I)) (acts : list (Action I)) :
  runU ((UpstreamEvent <$> events) ++ acts) = runU acts.
Proof.
  unfold run. induction events as [|e events IH]; [done|].
  cbn [fmap list_fmap app]. rewrite runFrom_cons, step_not_listening by done.
  change (list_fmap _ _ UpstreamEvent events) with (UpstreamEvent <$> events).
  rewrite IH. by destruct (runFromU initial acts) as [[]|].
Qed.

(** With an upstream notification source the stage relays Started and
    announces none of its own. *)
Lemma step_started_relayed (s s' : Stage O) (outs o : list (Output I O)) (a : Action I) :
  InvU s outs -> hasOnUpdated = true -> stepU a s = Some (s', o) ->
  startedCount o = if listening s && isStartedEvent a then 1%nat else 0%nat.
Proof.
  intros HI Hu Hstep. pose proof (step_cases _ _ _ _ _ HI Hstep) as Hc.
  rewrite Hu in Hc.
  destruct a as [|v| |e].
  - rewrite andb_false_r. destruct (generator s); by destruct Hc as [_ ->].
  - rewrite andb_false_r. destruct Hc as [Hg Hbody].
    pose proof (inv_settled _ _ HI) as Hsettled.
    destruct (loopBody_shape _ _ _ _ Hbody Hg Hsettled)
      as [[-> ->]|(_ & _ & [->|(_ & ? & ? & ? & -> & _)])]; done.
  - rewrite andb_false_r. by destruct Hc as [_ [_ ->]].
  - destruct (listening s); [|by destruct Hc as [_ ->]].
    destruct e as [[]|index old [update|]]; cbn.
    + by destruct Hc as [_ ->].
    + destruct (pending s =? 0); by destruct Hc as [_ ->].
    + destruct (at_index (seen s) index); by destruct Hc as [_ ->].
    + by destruct Hc as [_ ->].
Qed.

Lemma runFrom_started_relayed (acts : list (Action I)) (s s' : Stage O)
    (outs o : list (Output I O)) :
  InvU s outs -> hasOnUpdated = true -> runFromU s acts = Some (s', o) ->
  (startedCount o <= length (List.filter isStartedEvent acts))%nat.
Proof.
  revert s outs o. induction acts as [|a acts IH]; intros s outs o HI Hu Hrun;
    simpl in Hrun.
  - simplify_eq. cbn. lia.
  - destruct (stepU a s) as [[s1 o1]|] eqn:Hstep; [|done].
    destruct (runFromU s1 acts) as [[s2 o2]|] eqn:Hrest; [|done]. injection Hrun as <- <-.
    pose proof (step_started_relayed _ _ _ _ _ HI Hu Hstep) as H1.
    pose proof (IH s1 (outs ++ o1) o2 (step_inv _ _ _ loopBody_frame _ _ _ _ _ HI Hstep)
                  Hu Hrest) as H2.
    rewrite startedCount_app. cbn [List.filter].
    destruct (listening s), (isStartedEvent a); cbn in *; lia.
Qed.

(** Without an upstream notification source: Started, then values and update
    notifications, then Finished when the upstream is exhausted. *)
Lemma run_plain_shape (acts : list (Action I)) (s : Stage O) (o : list (Output I O)) :
  hasOnUpdated = false -> runU acts = Some (s, o) ->
  match generator s with
  | NotStarted => o = []
  | Returned =>
      exists mid, o = Fired (ProgressNotificationEvent discoveryStarted) :: mid
                      ++ [Fired (ProgressNotificationEvent discoveryFinished)]
                  /\ forallb isData mid = true
  | _ =>
      exists mid, o = Fired (ProgressNotificationEvent discoveryStarted) :: mid
                  /\ forallb isData mid = true
  end.
Proof.
  intros Hu. revert acts s o.
  apply (run_invariant (fun s o =>
    match generator s with
    | NotStarted => o = []
    | Returned =>
        exists mid, o = Fired (ProgressNotificationEvent discoveryStarted) :: mid
                        ++ [Fired (ProgressNotificationEvent discoveryFinished)]
                    /\ forallb isData mid = true
    | _ =>
        exists mid, o = Fired (ProgressNotificationEvent discoveryStarted) :: mid
                    /\ forallb isData mid = true
    end)); [done|].
  intros s outs a s' o HI HP Hstep.
  pose proof (step_cases _ _ _ _ _ HI Hstep) as Hc. rewrite Hu in Hc.
  assert (Hl : listening s = false).
  { destruct (listening s) eqn:E; [|done].
    destruct (inv_listening _ _ _ HI E). congruence. }
  destruct a as [|v| |e].
  - destruct (generator s) as [| |currEnv|] eqn:Hg; destruct Hc as [-> ->]; cbn;
      rewrite ?Hg, ?app_nil_r; try done.
    subst outs. by exists [].
  - destruct Hc as [Hg Hbody]. rewrite Hg in HP. destruct HP as (mid & -> & Hmid).
    pose proof (inv_settled _ _ HI) as Hsettled.
    destruct (loopBody_frame _ _ _ _ Hbody Hg Hsettled) as (_ & _ & _ & _ & Hgen & Hdata).
    assert (exists mid', (Fired (ProgressNotificationEvent discoveryStarted) :: mid) ++ o
                         = Fired (ProgressNotificationEvent discoveryStarted) :: mid'
                         /\ forallb isData mid' = true) as Hnew.
    { exists (mid ++ o). split; [done|]. by rewrite forallb_app, Hmid, Hdata. }
    by destruct Hgen as [->|[env ->]].
  - destruct Hc as [Hg [-> ->]]. rewrite Hg in HP. destruct HP as (mid & -> & Hmid).
    cbn. by exists mid.
  - rewrite Hl in Hc. destruct Hc as [-> ->]. by rewrite app_nil_r.
Qed.

(** Apart from an upstream value and an upstream update, a turn lets out
    nothing or one progress notification. *)
Lemma step_other_output (s s' : Stage O) (outs o : list (Output I O)) (a : Action I) :
  InvU s outs -> stepU a s = Some (s', o) ->
  isUpdate a = false ->
  match a with UpstreamValue _ => False | _ => True end ->
  o = [] \/ exists stage, o = [Fired (ProgressNotificationEvent stage)].
Proof.
  intros HI Hstep Hupd Hval. pose proof (step_cases _ _ _ _ _ HI Hstep) as Hc.
  destruct a as [|v| |e]; [|done| |].
  - destruct (generator s); destruct Hc as [_ ->]; destruct hasOnUpdated; eauto.
  - destruct Hc as [_ Hc]. destruct hasOnUpdated; destruct Hc as [_ ->]; eauto.
  - destruct (listening s); [|destruct Hc as [_ ->]; eauto].
    destruct e as [[]|]; [| |done].
    + destruct Hc as [_ ->]; eauto.
    + destruct (pending s =? 0); destruct Hc as [_ ->]; eauto.
Qed.

(** A property of a run and its history that every turn keeps holds of
    every run. *)
Lemma run_history_invariant (Q : list (Action I) -> Stage O -> list (Output I O) -> Prop) :
  Q [] initial [] ->
  (forall acts a s o s' o1,
     runU acts = Some (s, o) -> Q acts s o -> stepU a s = Some (s', o1) ->
     Q (acts ++ [a]) s' (o ++ o1)) ->
  forall acts s o, runU acts = Some (s, o) -> Q acts s o.
Proof.
  intros H0 Hstep acts. induction acts as [|a acts IH] using rev_ind; intros s o Hrun.
  - unfold run in Hrun. cbn in Hrun. by simplify_eq.
  - unfold run in Hrun. rewrite runFrom_app in Hrun.
    destruct (runFromU initial acts) as [[s1 o1]|] eqn:Hpre; [|done].
    cbn in Hrun. destruct (stepU a s1) as [[s2 o2]|] eqn:Hs; [|done].
    injection Hrun as <- <-. rewrite app_nil_r. by eapply Hstep; [| apply IH |].
Qed.

Lemma run_snoc (acts : list (Action I)) (a : Action I) (s s' : Stage O)
    (o o1 : list (Output I O)) :
  runU acts = Some (s, o) -> stepU a s = Some (s', o1) ->
  runU (acts ++ [a]) = Some (s', o ++ o1).
Proof.
  intros Hrun Hs. unfold run in *. rewrite runFrom_app, Hrun. cbn. rewrite Hs.
  by rewrite app_nil_r.
Qed.

End TurnFacts.

(** ** Every stage of the pipeline *)

Lemma reducer_loopBody_shape (sortKindFunction : PythonEnvKind -> PythonEnvKind -> Z)
    (sortExtensionSource : string -> string -> Z) :
  LoopBodyShape (PythonEnvsReducer.loopBody sortKindFunction sortExtensionSource).
Proof.
  intros env s s' o Hbody Hg Hsettled.
  destruct (reducer_loopBody_cases sortKindFunction sortExtensionSource env s Hsettled)
    as [[_ Heq]|(i & oldEnv0 & Hi & _ & Heq)]; cbn zeta in Heq; rewrite Heq in Hbody.
  - left. by simplify_eq.
  - right. apply lookup_lt_Some in Hi.
    destruct (lodash_isEqual _ _); simplify_eq; cbn; rewrite length_insert;
      (split; [done|]); (split; [done|]); [by left|].
    destruct (disposed s) eqn:Hdp; [by left|]. right. split; [done|].
    eexists _, _, _. split; [done|]. lia.
Qed.

Lemma adapter_loopBody_shape : LoopBodyShape ConvertLocator.loopBody.
Proof.
  intros env s s' o Hbody Hg Hsettled. left.
  unfold ConvertLocator.loopBody, yield, andThen, emit, modify in Hbody. by simplify_eq.
Qed.

Lemma pipeline_loopBody_shape (st : StageImpl) :
  PipelineStage st -> LoopBodyShape (loopBodyOf st).
Proof.
  intros [extId|sortKindFunction sortExtensionSource].
  - apply adapter_loopBody_shape.
  - apply reducer_loopBody_shape.
Qed.

Lemma stage_run_inv (st : StageImpl) (hasOnUpdated : bool)
    (acts : list (Action (Incoming st))) (s : Stage (Outgoing st))
    (o : list (Output (Incoming st) (Outgoing st))) :
  PipelineStage st -> stageRun st hasOnUpdated acts = Some (s, o) ->
  StageInv hasOnUpdated s o /\ StageTrack hasOnUpdated s o.
Proof.
  intros Hst Hrun. split.
  - exact (run_inv _ _ _ (pipeline_loopBody_frame st Hst) acts s o Hrun).
  - exact (run_track _ _ _ (pipeline_loopBody_frame st Hst) (pipeline_loopBody_shape st Hst)
             acts s o Hrun).
Qed.

(** X10 (update notifications refer to values already yielded): in both
    stages, at every point of every run, an update notification the stage
    delivers carries an old and a new record, both defined, and an index
    that is nonnegative and below the number of values the stage has yielded
    before the notification. *)
Theorem stage_update_indices (st : StageImpl) (hasOnUpdated : bool)
    (acts : list (Action (Incoming st))) (s : Stage (Outgoing st))
    (o o1 o2 : list (Output (Incoming st) (Outgoing st)))
    (index : Z) (old update : option (Outgoing st)) :
  PipelineStage st ->
  stageRun st hasOnUpdated acts = Some (s, o) ->
  o = o1 ++ Fired (PythonEnvUpdatedEvent index old update) :: o2 ->
  (exists oldEnv newEnv, old = Some oldEnv /\ update = Some newEnv)
  /\ 0 <= index < Z.of_nat (length (yields o1)).
Proof.
  intros Hst Hrun Ho. destruct (stage_run_inv st hasOnUpdated acts s o Hst Hrun) as [_ HT].
  exact (track_indices _ _ _ HT o1 index old update o2 Ho).
Qed.

Lemma stage_update_indices_witness :
  exists s o1 index old update,
    exampleReducer true mergingTrace
    = Some (s, o1 ++ [Fired (PythonEnvUpdatedEvent index old update)])
    /\ yields o1 = [convertBasicToComposite venv39]
    /\ (exists oldEnv newEnv, old = Some oldEnv /\ update = Some newEnv)
    /\ 0 <= index < Z.of_nat (length (yields o1)).
Proof.
  destruct (exampleReducer true mergingTrace) as [[s o]|] eqn:Hrun;
    [|by vm_compute in Hrun].
  assert (Ho : exists old update,
             o = [Yielded (convertBasicToComposite venv39)]
                 ++ [Fired (PythonEnvUpdatedEvent 0 old update)]).
  { vm_compute in Hrun. simplify_eq. by eexists _, _. }
  destruct Ho as (old & update & Ho).
  exists s, [Yielded (convertBasicToComposite venv39)], 0, old, update.
  split; [by rewrite <- Ho|]. split; [done|].
  exact (stage_update_indices (reducerStage exampleSortKind exampleSortExtension) true
           mergingTrace s o _ [] 0 old update (IsReducer _ _) Hrun Ho).
Defined.

(** X11 (after Finished): once a stage has delivered Finished it delivers no
    notification any more, whatever happens: it ignores the upstream
    notification source and lets out values of the primary sequence only;
    a stage whose upstream has no notification source lets out nothing at
    all and stays as it is. *)
Theorem stage_after_finished (st : StageImpl) (hasOnUpdated : bool)
    (acts more : list (Action (Incoming st))) (s s' : Stage (Outgoing st))
    (o o' : list (Output (Incoming st) (Outgoing st))) :
  PipelineStage st ->
  stageRun st hasOnUpdated acts = Some (s, o) ->
  finishedCount o = 1%nat ->
  stageRunFrom st hasOnUpdated s more = Some (s', o') ->
  forallb isYielded o' = true
  /\ (forall e, stageStep st hasOnUpdated (UpstreamEvent e) s' = Some (s', []))
  /\ (hasOnUpdated = false -> s' = s /\ o' = []).
Proof.
  intros Hst Hrun Hfin Hmore.
  destruct (stage_run_inv st hasOnUpdated acts s o Hst Hrun) as [HI _].
  assert (Hdp : disposed s = true).
  { pose proof (inv_finished _ _ _ HI) as H. destruct (disposed s); [done|]. lia. }
  destruct (runFrom_disposed (convertOf st) hasOnUpdated (loopBodyOf st)
              (pipeline_loopBody_frame st Hst) (pipeline_loopBody_shape st Hst)
              more s s' o o' HI Hdp Hmore) as (Hdp' & Hy & Hplain).
  split; [done|]. split; [|done].
  intros e. apply step_not_listening.
  pose proof (runFrom_inv _ _ _ (pipeline_loopBody_frame st Hst) more s s' o o' HI Hmore) as HI'.
  destruct (listening s') eqn:E; [|done].
  destruct (listening_open _ _ _ HI' E). congruence.
Qed.

Lemma stage_after_finished_witness :
  exists s o s',
    exampleReducer true earlyFinishedTrace = Some (s, o)
    /\ finishedCount o = 1%nat
    /\ stageRunFrom (reducerStage exampleSortKind exampleSortExtension) true s
         [UpstreamValue system39] = Some (s', [])
    /\ kind <$> seen s = [[PythonEnvKind_Venv]]
    /\ kind <$> seen s' = [[PythonEnvKind_Venv; PythonEnvKind_System]]
    /\ forall e, stageStep (reducerStage exampleSortKind exampleSortExtension) true
                   (UpstreamEvent e) s' = Some (s', []).
Proof.
  destruct (exampleReducer true earlyFinishedTrace) as [[s o]|] eqn:Hrun;
    [|by vm_compute in Hrun].
  assert (Hs : s = mkStage true 0 [convertBasicToComposite venv39] false true AwaitingNext
               /\ finishedCount o = 1%nat)
    by (vm_compute in Hrun; by simplify_eq).
  destruct Hs as [Hs Hfin].
  destruct (stageRunFrom (reducerStage exampleSortKind exampleSortExtension) true s
              [UpstreamValue system39]) as [[s' o']|] eqn:Hmore;
    [|by rewrite Hs in Hmore; vm_compute in Hmore].
  assert (Hs' : o' = [] /\ kind <$> seen s' = [[PythonEnvKind_Venv; PythonEnvKind_System]])
    by (rewrite Hs in Hmore; vm_compute in Hmore; by simplify_eq).
  destruct Hs' as [-> Hk'].
  exists s, o, s'. split; [done|]. split; [done|]. split; [done|].
  split; [by rewrite Hs|]. split; [done|].
  exact (proj1 (proj2 (stage_after_finished
                         (reducerStage exampleSortKind exampleSortExtension) true
                         earlyFinishedTrace [UpstreamValue system39] s s' o []
                         (IsReducer _ _) Hrun Hfin Hmore))).
Defined.

(** X12 (a throw of the listener blocks Finished): the listener throws
    before it decrements the pending counter, so a stage that has raised the
    undefined-update error has a pending counter equal to the number of
    errors raised, above zero for good, and has not delivered Finished, at
    any later point of the run. *)
Theorem stage_throw_blocks_finished (st : StageImpl) (hasOnUpdated : bool)
    (acts : list (Action (Incoming st))) (s : Stage (Outgoing st))
    (o : list (Output (Incoming st) (Outgoing st))) :
  PipelineStage st ->
  stageRun st hasOnUpdated acts = Some (s, o) ->
  (0 < raisedCount o)%nat ->
  pending s = Z.of_nat (raisedCount o)
  /\ finishedCount o = 0%nat
  /\ disposed s = false
  /\ hasOnUpdated = true.
Proof.
  intros Hst Hrun Hraised.
  destruct (stage_run_inv st hasOnUpdated acts s o Hst Hrun) as [HI _].
  pose proof (inv_pending _ _ _ HI) as Hp.
  assert (Hdp : disposed s = false).
  { destruct (disposed s) eqn:E; [|done].
    destruct (proj1 (inv_disposed _ _ _ HI) E). lia. }
  pose proof (inv_finished _ _ _ HI) as Hf. rewrite Hdp in Hf.
  split; [done|]. split; [done|]. split; [done|].
  destruct hasOnUpdated eqn:Hu; [done|].
  destruct (inv_plain _ _ _ HI eq_refl). lia.
Qed.

Lemma stage_throw_blocks_finished_witness :
  exists s o,
    ConvertLocator.iterEnvsIterator "publisher.extension" true
      [Pull; UpstreamEvent (PythonEnvUpdatedEvent 0 None None);
       UpstreamEvent (ProgressNotificationEvent discoveryFinished); UpstreamDone]
    = Some (s, o)
    /\ raisedCount o = 1%nat
    /\ done s = true
    /\ generator s = Returned
    /\ pending s = 1
    /\ finishedCount o = 0%nat.
Proof.
  destruct (ConvertLocator.iterEnvsIterator "publisher.extension" true
              [Pull; UpstreamEvent (PythonEnvUpdatedEvent 0 None None);
               UpstreamEvent (ProgressNotificationEvent discoveryFinished); UpstreamDone])
    as [[s o]|] eqn:Hrun; [|by vm_compute in Hrun].
  assert (Hs : raisedCount o = 1%nat /\ done s = true /\ generator s = Returned)
    by (vm_compute in Hrun; by simplify_eq).
  destruct Hs as (Hraised & Hdone & Hg).
  assert (Hpos : (0 < raisedCount o)%nat) by lia.
  destruct (stage_throw_blocks_finished (adapterStage "publisher.extension") true _ s o
              (IsAdapter _) Hrun Hpos) as (Hp & Hfin & _).
  exists s, o. repeat (split; [done|]). split; [|done].
  etrans; [exact Hp|]. exact (f_equal Z.of_nat Hraised).
Defined.

(** X13 (when a stage listens): a stage listens to its upstream notification
    source exactly from the consumer's first [next()] until upstream's
    Finished. Outside that window an upstream event changes nothing and
    lets out nothing; in particular, events fired before the first [next()]
    are lost. *)
Theorem stage_listening_window (st : StageImpl) (hasOnUpdated : bool)
    (acts : list (Action (Incoming st))) (s : Stage (Outgoing st))
    (o : list (Output (Incoming st) (Outgoing st))) :
  PipelineStage st ->
  stageRun st hasOnUpdated acts = Some (s, o) ->
  (listening s = true
   <-> hasOnUpdated = true /\ generator s <> NotStarted /\ done s = false)
  /\ (listening s = false ->
      forall e, stageStep st hasOnUpdated (UpstreamEvent e) s = Some (s, []))
  /\ (forall events,
        stageRun st hasOnUpdated ((UpstreamEvent <$> events) ++ acts) = Some (s, o)).
Proof.
  intros Hst Hrun. destruct (stage_run_inv st hasOnUpdated acts s o Hst Hrun) as [HI HT].
  split; [|split].
  - split.
    + intros Hl. destruct (inv_listening _ _ _ HI Hl) as (? & ? & ?). done.
    + intros (Hu & Hg & Hd). by apply (track_listening _ _ _ HT).
  - intros Hl e. by apply step_not_listening.
  - intros events. unfold stageRun. by rewrite runFrom_events_before_start.
Qed.

Lemma stage_listening_window_witness :
  exists s o,
    ConvertLocator.iterEnvsIterator "publisher.extension" true [Pull; UpstreamDone]
    = Some (s, o)
    /\ finishedCount o = 0%nat
    /\ ConvertLocator.iterEnvsIterator "publisher.extension" true
         ((UpstreamEvent <$> [ProgressNotificationEvent discoveryFinished])
          ++ [Pull; UpstreamDone])
       = Some (s, o).
Proof.
  destruct (ConvertLocator.iterEnvsIterator "publisher.extension" true [Pull; UpstreamDone])
    as [[s o]|] eqn:Hrun; [|by vm_compute in Hrun].
  assert (Hfin : finishedCount o = 0%nat) by (vm_compute in Hrun; by simplify_eq).
  exists s, o. split; [done|]. split; [done|].
  exact (proj2 (proj2 (stage_listening_window (adapterStage "publisher.extension") true
                         [Pull; UpstreamDone] s o (IsAdapter _) Hrun))
           [ProgressNotificationEvent discoveryFinished]).
Defined.

(** X14 (an update for the value just yielded): while the consumer holds a
    value and has not asked for the next one, the value is not in the
    buffer yet. An upstream update for its position is logged and dropped;
    the same update, arriving after the consumer's next [next()], replaces
    the value and is delivered. *)
Theorem stage_update_for_last_yield (st : StageImpl) (hasOnUpdated : bool)
    (acts : list (Action (Incoming st))) (s : Stage (Outgoing st))
    (o : list (Output (Incoming st) (Outgoing st)))
    (currEnv : Outgoing st) (old : option (Incoming st)) (update : Incoming st) :
  PipelineStage st ->
  stageRun st hasOnUpdated acts = Some (s, o) ->
  generator s = SuspendedAtYield currEnv ->
  listening s = true ->
  let index := Z.of_nat (length (yields o)) - 1 in
  let event := UpstreamEvent (PythonEnvUpdatedEvent index old (Some update)) in
  last (yields o) = Some currEnv
  /\ stageStep st hasOnUpdated event s = Some (s, [Logged old index])
  /\ exists s1,
       stageStep st hasOnUpdated Pull s = Some (s1, [])
       /\ stageStep st hasOnUpdated event s1
          = Some (set_seen (<[Z.to_nat index := convertOf st update]> (seen s1)) s1,
                  [Fired (PythonEnvUpdatedEvent index (Some currEnv)
                            (Some (convertOf st update)))]).
Proof.
  intros Hst Hrun Hg Hl index event.
  destruct (stage_run_inv st hasOnUpdated acts s o Hst Hrun) as [HI HT].
  pose proof (track_length _ _ _ HT) as Hlen. unfold emitted in Hlen.
  rewrite Hg, length_app in Hlen. cbn in Hlen.
  assert (Hidx : index = Z.of_nat (length (seen s))) by (unfold index; lia).
  split; [by apply (track_suspended _ _ _ HT)|]. split.
  - unfold event, stageStep.
    rewrite (step_update_dropped _ _ _ s o index old update HI),
      Hl; [done|].
    apply at_index_None. lia.
  - assert (Hpull : stageStep st hasOnUpdated Pull s
                    = Some (set_generator AwaitingNext (set_seen (seen s ++ [currEnv]) s), [])).
    { unfold stageStep, step. by rewrite Hg. }
    eexists. split; [exact Hpull|].
    pose proof (step_inv _ _ _ (pipeline_loopBody_frame st Hst) _ _ _ _ _ HI Hpull) as HI1.
    unfold event, stageStep.
    apply (step_update_applied _ _ _ _ (o ++ []) index old update currEnv HI1); [done|].
    cbn [seen set_seen set_generator]. rewrite Hidx, at_index_of_nat.
    by rewrite lookup_app_r, Nat.sub_diag.
Qed.

Lemma stage_update_for_last_yield_witness :
  exists s o,
    exampleReducer true [Pull; UpstreamValue venv39] = Some (s, o)
    /\ yields o = [convertBasicToComposite venv39]
    /\ stageStep (reducerStage exampleSortKind exampleSortExtension) true
         (UpstreamEvent (PythonEnvUpdatedEvent (Z.of_nat (length (yields o)) - 1)
                           (Some venv39) (Some conda39))) s
       = Some (s, [Logged (Some venv39) (Z.of_nat (length (yields o)) - 1)]).
Proof.
  destruct (exampleReducer true [Pull; UpstreamValue venv39]) as [[s o]|] eqn:Hrun;
    [|by vm_compute in Hrun].
  assert (Hs : yields o = [convertBasicToComposite venv39]
               /\ generator s = SuspendedAtYield (convertBasicToComposite venv39)
               /\ listening s = true)
    by (vm_compute in Hrun; by simplify_eq).
  destruct Hs as (Hy & Hg & Hl).
  exists s, o. split; [done|]. split; [done|].
  pose proof (proj1 (proj2 (stage_update_for_last_yield
                              (reducerStage exampleSortKind exampleSortExtension) true
                              [Pull; UpstreamValue venv39] s o
                              (convertBasicToComposite venv39)
                              (Some venv39) conda39 (IsReducer _ _) Hrun Hg Hl))) as Hstep.
  exact Hstep.
Defined.

(** X15 (who announces Started): a stage whose upstream has no notification
    source announces Started itself, once, before anything else, and what
    it lets out is Started, then values and update notifications, then
    Finished when the upstream is exhausted. A stage whose upstream has a
    notification source announces nothing itself: it delivers at most as
    many Started events as upstream fired. *)
Theorem stage_started (st : StageImpl) (hasOnUpdated : bool)
    (acts : list (Action (Incoming st))) (s : Stage (Outgoing st))
    (o : list (Output (Incoming st) (Outgoing st))) :
  PipelineStage st ->
  stageRun st hasOnUpdated acts = Some (s, o) ->
  (hasOnUpdated = false ->
   match generator s with
   | NotStarted => o = []
   | Returned =>
       exists mid, o = Fired (ProgressNotificationEvent discoveryStarted) :: mid
                       ++ [Fired (ProgressNotificationEvent discoveryFinished)]
                   /\ forallb isData mid = true
   | _ =>
       exists mid, o = Fired (ProgressNotificationEvent discoveryStarted) :: mid
                   /\ forallb isData mid = true
   end)
  /\ (hasOnUpdated = true ->
      (startedCount o <= length (List.filter isStartedEvent acts))%nat).
Proof.
  intros Hst Hrun. split.
  - intros Hu.
    exact (run_plain_shape _ _ _ (pipeline_loopBody_frame st Hst) acts s o Hu Hrun).
  - intros Hu.
    exact (runFrom_started_relayed _ _ _ (pipeline_loopBody_frame st Hst)
             (pipeline_loopBody_shape st Hst) acts initial s [] o (Inv_initial _) Hu Hrun).
Qed.

Lemma stage_started_witness :
  exists s o mid,
    ConvertLocator.iterEnvsIterator "publisher.extension" false plainProviderTrace
    = Some (s, o)
    /\ o = Fired (ProgressNotificationEvent discoveryStarted) :: mid
           ++ [Fired (ProgressNotificationEvent discoveryFinished)]
    /\ forallb isData mid = true.
Proof.
  destruct (ConvertLocator.iterEnvsIterator "publisher.extension" false plainProviderTrace)
    as [[s o]|] eqn:Hrun; [|by vm_compute in Hrun].
  pose proof (proj1 (stage_started (adapterStage "publisher.extension") false
                       plainProviderTrace s o (IsAdapter _) Hrun) eq_refl) as Hshape.
  assert (Hg : generator s = Returned) by (vm_compute in Hrun; by simplify_eq).
  cbn [Incoming Outgoing adapterStage] in Hshape.
  rewrite Hg in Hshape. destruct Hshape as (mid & Ho & Hmid).
  by exists s, o, mid.
Defined.

(** ** The reducer's buffer *)

Lemma values_app {I : Type} (l1 l2 : list (Action I)) :
  values (l1 ++ l2) = values l1 ++ values l2.
Proof. unfold values. by rewrite omap_app. Qed.

Lemma noUpdates_app {I : Type} (l1 l2 : list (Action I)) :
  noUpdates (l1 ++ l2) = noUpdates l1 && noUpdates l2.
Proof. unfold noUpdates. by rewrite forallb_app. Qed.

Lemma elem_of_insert_inv {A : Type} (l : list A) (i : nat) (x y : A) :
  x ∈ <[i := y]> l -> x = y \/ exists j, j <> i /\ l !! j = Some x.
Proof.
  intros (j & Hj)%list_elem_of_lookup_1.
  destruct (decide (j = i)) as [->|Hne].
  - left. apply list_lookup_insert_Some in Hj as [(_ & -> & _)|[? _]]; done.
  - right. exists j. split; [done|]. by rewrite list_lookup_insert_ne in Hj.
Qed.

Section ReducerBuffer.
Variable sortKindFunction : PythonEnvKind -> PythonEnvKind -> Z.
Variable sortExtensionSource : string -> string -> Z.

Abbreviation resolveB := (resolveEnvCollision sortKindFunction sortExtensionSource).
Abbreviation reducerB := (PythonEnvsReducer.loopBody sortKindFunction sortExtensionSource).
Abbreviation reducerRun :=
  (PythonEnvsReducer.iterEnvsIterator sortKindFunction sortExtensionSource).
Abbreviation reducerSt := (reducerStage sortKindFunction sortExtensionSource).

(** A record of an environment the buffer knows: the first entry of that
    environment becomes the merge of itself and the record. *)
Lemma reducer_loopBody_known (currEnv : CompositeEnvInfo) (s : Stage CompositeEnvInfo) :
  Settled s ->
  identity currEnv ∈ identity <$> seen s ->
  exists (i : nat) (oldEnv0 : CompositeEnvInfo),
    seen s !! i = Some oldEnv0
    /\ identity oldEnv0 = identity currEnv
    /\ (forall j x, seen s !! j = Some x -> identity x = identity currEnv -> (i <= j)%nat)
    /\ let r := resolveB oldEnv0 currEnv in
       reducerB currEnv s
       = (set_seen (<[i := merged r]> (seen s)) s,
          if lodash_isEqual (oldAfter r) (merged r) || disposed s then []
          else [Fired (PythonEnvUpdatedEvent (Z.of_nat i) (Some (oldAfter r)) (Some (merged r)))]).
Proof.
  intros Hsettled Hin. unfold PythonEnvsReducer.loopBody.
  assert (Hfirst : exists (i : nat) (oldEnv0 : CompositeEnvInfo),
            findIndex (fun x => areSameEnv x currEnv) (seen s) = Z.of_nat i
            /\ seen s !! i = Some oldEnv0 /\ identity oldEnv0 = identity currEnv
            /\ forall j x, seen s !! j = Some x -> identity x = identity currEnv -> (i <= j)%nat).
  { unfold findIndex. revert Hin. generalize (seen s). intros l.
    assert (Hgen : forall k, identity currEnv ∈ identity <$> l ->
              exists (i : nat) (oldEnv0 : CompositeEnvInfo),
                findIndexFrom (fun x => areSameEnv x currEnv) l k = k + Z.of_nat i
                /\ l !! i = Some oldEnv0 /\ identity oldEnv0 = identity currEnv
                /\ forall j x, l !! j = Some x -> identity x = identity currEnv -> (i <= j)%nat).
    { induction l as [|y l IH]; intros k Hin; [by apply elem_of_nil in Hin|].
      cbn [findIndexFrom]. unfold areSameEnv at 1.
      destruct (decide (identity y = identity currEnv)) as [Hy|Hy].
      - rewrite bool_decide_eq_true_2 by done. exists 0%nat, y.
        split; [lia|]. split; [done|]. split; [done|]. intros; lia.
      - rewrite bool_decide_eq_false_2 by done.
        cbn in Hin. apply elem_of_cons in Hin as [Hin|Hin]; [congruence|].
        destruct (IH (k + 1) Hin) as (i & oldEnv0 & Hf & Hi & Hid & Hmin).
        exists (S i), oldEnv0. split; [rewrite Hf; lia|]. split; [done|]. split; [done|].
        intros [|j] x Hj Hx; cbn in Hj; [congruence|]. specialize (Hmin j x Hj Hx). lia. }
    intros Hin. destruct (Hgen 0 Hin) as (i & oldEnv0 & Hf & ?). exists i, oldEnv0.
    split; [rewrite Hf; lia|done]. }
  destruct Hfirst as (i & oldEnv0 & Hf & Hi & Hid & Hmin).
  exists i, oldEnv0. split; [done|]. split; [done|]. split; [done|]. cbn zeta.
  rewrite Hf. replace (Z.of_nat i =? -1) with false by (symmetry; apply Z.eqb_neq; lia).
  cbn [negb].
  unfold PythonEnvsReducer.resolveDifferencesInBackground. cbn [seen set_pending].
  rewrite at_index_of_nat, Hi, Nat2Z.id.
  generalize (resolveB oldEnv0 currEnv). intros r.
  unfold andThen, modify, fire, skip, emit.
  assert (Hcheck : forall s0 : Stage CompositeEnvInfo,
    done s0 = done s -> pending s0 = pending s -> disposed s0 = disposed s ->
    @checkIfFinishedAndNotify BasicEnvInfo CompositeEnvInfo s0 = (s0, [])).
  { intros s0 H1 H2 H3. apply checkIfFinishedAndNotify_settled.
    unfold Settled in *. rewrite H1, H2, H3. exact Hsettled. }
  unfold lodash_isEqual.
  destruct (decide (oldAfter r = merged r)) as [Heq|Hne].
  - rewrite bool_decide_eq_true_2 by done. cbn -[checkIfFinishedAndNotify].
    rewrite Hcheck by (cbn; lia || done). rewrite Heq.
    destruct s as [d p sn l dp g]; cbn. unfold set_pending, set_seen; cbn.
    by replace (p + 1 - 1) with p by lia.
  - rewrite bool_decide_eq_false_2 by done. cbn -[checkIfFinishedAndNotify].
    destruct (disposed s) eqn:Hdp; cbn -[checkIfFinishedAndNotify];
      rewrite Hcheck by (cbn; lia || done); rewrite list_insert_insert_eq;
      destruct s as [d p sn l dp g]; cbn; unfold set_pending, set_seen; cbn;
      by replace (p + 1 - 1) with p by lia.
Qed.

Lemma reducer_loopBody_fresh (currEnv : CompositeEnvInfo) (s : Stage CompositeEnvInfo) :
  Settled s ->
  identity currEnv ∉ identity <$> seen s ->
  reducerB currEnv s = (set_generator (SuspendedAtYield currEnv) s, [Yielded currEnv]).
Proof.
  intros Hsettled Hnotin.
  destruct (reducer_loopBody_cases sortKindFunction sortExtensionSource currEnv s Hsettled)
    as [[_ Heq]|(i & oldEnv0 & Hi & Hsame & _)]; [done|].
  exfalso. apply Hnotin. apply bool_decide_eq_true in Hsame. rewrite <- Hsame.
  apply list_elem_of_fmap. exists oldEnv0. split; [done|]. by eapply list_elem_of_lookup_2.
Qed.

Lemma Collected_nil : Collected [] [].
Proof.
  split; cbn.
  - apply NoDup_nil_2.
  - intros v Hv. by apply elem_of_nil in Hv.
  - intros x k Hx. by apply elem_of_nil in Hx.
  - intros x src Hx. by apply elem_of_nil in Hx.
Qed.

Lemma exists_snoc {A : Type} (P : A -> Prop) (vs : list A) (v : A) :
  (exists v', v' ∈ vs ++ [v] /\ P v') <-> (exists v', v' ∈ vs /\ P v') \/ P v.
Proof.
  split.
  - intros (v' & Hv' & HP). apply elem_of_app in Hv' as [Hv'|Hv'].
    + left. by exists v'.
    + right. apply list_elem_of_singleton in Hv'. by subst.
  - intros [(v' & Hv' & HP)|HP].
    + exists v'. split; [|done]. apply elem_of_app. by left.
    + exists v. split; [|done]. apply elem_of_app. right. by apply list_elem_of_singleton.
Qed.

Lemma Collected_fresh (vs : list BasicEnvInfo) (buf : list CompositeEnvInfo)
    (v : BasicEnvInfo) :
  Collected vs buf ->
  basicIdentity v ∉ identity <$> buf ->
  Collected (vs ++ [v]) (buf ++ [convertBasicToComposite v]).
Proof.
  intros [C1 C2 C3 C4] Hfresh.
  assert (Hold : forall v', v' ∈ vs -> basicIdentity v' <> basicIdentity v).
  { intros v' Hv' Heq. apply Hfresh. rewrite <- Heq. by apply C2. }
  assert (Hbuf : forall x, x ∈ buf -> identity x <> basicIdentity v).
  { intros x Hx Heq. apply Hfresh. rewrite <- Heq. apply list_elem_of_fmap. by exists x. }
  split.
  - rewrite fmap_app. cbn. apply NoDup_app. split; [done|]. split.
    + intros x Hx Hx'. apply list_elem_of_singleton in Hx'. subst x. done.
    + apply NoDup_singleton.
  - intros v' Hv'. rewrite fmap_app, elem_of_app.
    apply elem_of_app in Hv' as [Hv'|Hv'].
    + left. by apply C2.
    + right. apply list_elem_of_singleton in Hv'. subst v'. cbn. by left.
  - intros x k Hx. rewrite exists_snoc. apply elem_of_app in Hx as [Hx|Hx].
    + rewrite (C3 x k Hx). split; [by left|].
      intros [?|[Hid _]]; [done|]. by destruct (Hbuf x Hx).
    + apply list_elem_of_singleton in Hx. subst x. cbn. rewrite list_elem_of_singleton.
      split; [intros ->; by right|].
      intros [(v' & Hv' & Hid & _)|[_ Hk]]; [|done]. by destruct (Hold v' Hv').
  - intros x src Hx. rewrite exists_snoc. apply elem_of_app in Hx as [Hx|Hx].
    + rewrite (C4 x src Hx). split; [by left|].
      intros [?|[Hid _]]; [done|]. by destruct (Hbuf x Hx).
    + apply list_elem_of_singleton in Hx. subst x. cbn. rewrite list_elem_of_singleton.
      split; [intros ->; by right|].
      intros [(v' & Hv' & Hid & _)|[_ Hk]]; [|done]. by destruct (Hold v' Hv').
Qed.

Lemma Collected_known (vs : list BasicEnvInfo) (buf : list CompositeEnvInfo)
    (v : BasicEnvInfo) (i : nat) (oldEnv0 : CompositeEnvInfo) :
  Collected vs buf ->
  buf !! i = Some oldEnv0 ->
  identity oldEnv0 = basicIdentity v ->
  Collected (vs ++ [v]) (<[i := merged (resolveB oldEnv0 (convertBasicToComposite v))]> buf).
Proof.
  intros [C1 C2 C3 C4] Hi Hid.
  set (m := merged (resolveB oldEnv0 (convertBasicToComposite v))).
  assert (Hm : identity m = identity oldEnv0).
  { apply merged_identity. unfold areSameEnv. by apply bool_decide_eq_true_2. }
  assert (Hids : identity <$> <[i := m]> buf = identity <$> buf).
  { rewrite list_fmap_insert, Hm. apply list_insert_id. by rewrite list_lookup_fmap, Hi. }
  assert (Hin0 : oldEnv0 ∈ buf) by (by eapply list_elem_of_lookup_2).
  assert (Hother : forall j x, j <> i -> buf !! j = Some x -> identity x <> basicIdentity v).
  { intros j x Hne Hj Heq. apply Hne.
    eapply (NoDup_lookup _ _ _ _ C1); rewrite list_lookup_fmap.
    - by rewrite Hj.
    - rewrite Hi. cbn. congruence. }
  split.
  - by rewrite Hids.
  - rewrite Hids. intros v' Hv'. apply elem_of_app in Hv' as [Hv'|Hv']; [by apply C2|].
    apply list_elem_of_singleton in Hv'. subst v'.
    rewrite <- Hid. apply list_elem_of_fmap. by exists oldEnv0.
  - intros x k Hx. rewrite exists_snoc.
    apply elem_of_insert_inv in Hx as [->|(j & Hne & Hj)].
    + unfold m at 1. rewrite elem_of_merged_kind, (C3 oldEnv0 k Hin0), Hm. cbn.
      rewrite list_elem_of_singleton. split.
      * intros [?| ->]; [by left|by right].
      * intros [?|[_ Hk]]; [by left|by right].
    + assert (Hx : x ∈ buf) by (by eapply list_elem_of_lookup_2).
      rewrite (C3 x k Hx). split; [by left|].
      intros [?|[Hid' _]]; [done|]. by destruct (Hother j x Hne Hj).
  - intros x src Hx. rewrite exists_snoc.
    apply elem_of_insert_inv in Hx as [->|(j & Hne & Hj)].
    + unfold m at 1. rewrite elem_of_merged_source, (C4 oldEnv0 src Hin0), Hm. cbn.
      rewrite list_elem_of_singleton. split.
      * intros [?| ->]; [by left|by right].
      * intros [?|[_ Hk]]; [by left|by right].
    + assert (Hx : x ∈ buf) by (by eapply list_elem_of_lookup_2).
      rewrite (C4 x src Hx). split; [by left|].
      intros [?|[Hid' _]]; [done|]. by destruct (Hother j x Hne Hj).
Qed.

Lemma reducer_inv (hasOnUpdated : bool) (acts : list (Action BasicEnvInfo))
    (s : Stage CompositeEnvInfo) (o : list (Output BasicEnvInfo CompositeEnvInfo)) :
  reducerRun hasOnUpdated acts = Some (s, o) ->
  StageInv hasOnUpdated s o /\ StageTrack hasOnUpdated s o.
Proof. apply (stage_run_inv reducerSt hasOnUpdated acts s o (IsReducer _ _)). Qed.

(** What an update-free run keeps: the buffer has collected the values
    received, and its entries are, in order, the environments yielded. *)
Lemma reducer_run_collected (hasOnUpdated : bool) (acts : list (Action BasicEnvInfo))
    (s : Stage CompositeEnvInfo) (o : list (Output BasicEnvInfo CompositeEnvInfo)) :
  reducerRun hasOnUpdated acts = Some (s, o) ->
  noUpdates acts = true ->
  Collected (values acts) (emitted s)
  /\ identity <$> emitted s = identity <$> yields o.
Proof.
  revert acts s o.
  apply (run_history_invariant convertBasicToComposite hasOnUpdated reducerB
           (fun acts s o =>
              noUpdates acts = true ->
              Collected (values acts) (emitted s)
              /\ identity <$> emitted s = identity <$> yields o)).
  { intros _. split; [apply Collected_nil|done]. }
  intros acts a s o s' o1 Hrun IH Hstep Hno.
  rewrite noUpdates_app in Hno. apply andb_prop in Hno as [Hno Ha].
  cbn in Ha. rewrite andb_true_r in Ha. apply negb_true_iff in Ha.
  destruct (IH Hno) as [HC Hids]. destruct (reducer_inv _ _ _ _ Hrun) as [HI _].
  pose proof (inv_settled _ _ _ HI) as Hsettled.
  rewrite values_app, yields_app, fmap_app.
  assert (Hcases : (exists v, a = UpstreamValue v)
                   \/ match a with UpstreamValue _ => False | _ => True end).
  { destruct a; eauto. }
  destruct Hcases as [[v ->]|Hnv].
  - unfold step in Hstep. destruct (generator s) eqn:Hg; simplify_eq.
    assert (He : emitted s = seen s) by (unfold emitted; by rewrite Hg, app_nil_r).
    rewrite He in *. cbn [values omap].
    destruct (decide (basicIdentity v ∈ identity <$> seen s)) as [Hin|Hnotin].
    + destruct (reducer_loopBody_known (convertBasicToComposite v) s Hsettled Hin)
        as (i & oldEnv0 & Hi & Hid & _ & Heq). cbn zeta in Heq.
      pose proof (Collected_known _ _ v i oldEnv0 HC Hi Hid) as HC'.
      assert (Hmid : identity (merged (resolveB oldEnv0 (convertBasicToComposite v)))
                     = identity oldEnv0).
      { apply merged_identity. unfold areSameEnv. by apply bool_decide_eq_true_2. }
      remember (resolveB oldEnv0 (convertBasicToComposite v)) as r eqn:Hr.
      rewrite Heq in Hstep. injection Hstep as <- <-.
      assert (He' : emitted (set_seen (<[i := merged r]> (seen s)) s)
                    = <[i := merged r]> (seen s)).
      { unfold emitted. cbn [seen generator set_seen]. by rewrite Hg, app_nil_r. }
      rewrite He'. split; [done|].
      assert (Hy : forall l : list (Output BasicEnvInfo CompositeEnvInfo),
                (l = [] \/ exists e, l = [Fired e]) -> yields l = []).
      { intros l [->|[e ->]]; done. }
      match goal with
      | |- context [yields (if ?c then [] else ?l)] =>
          rewrite (Hy (if c then [] else l)) by (destruct c; [by left|right; by eexists])
      end.
      rewrite app_nil_r, <- Hids, list_fmap_insert, Hmid.
      apply list_insert_id. by rewrite list_lookup_fmap, Hi.
    + rewrite (reducer_loopBody_fresh (convertBasicToComposite v) s Hsettled Hnotin) in Hstep.
      injection Hstep as <- <-.
      assert (He' : emitted (set_generator (SuspendedAtYield (convertBasicToComposite v)) s)
                    = seen s ++ [convertBasicToComposite v]) by done.
      rewrite He'. split; [by apply Collected_fresh|].
      rewrite fmap_app, Hids. done.
  - destruct (step_emitted_other _ _ _ _ _ _ _ Hstep Ha Hnv) as [He ->].
    rewrite He. replace (values [a]) with (@nil BasicEnvInfo) by (by destruct a).
    by rewrite !app_nil_r.
Qed.

Lemma reducer_run_notifications (hasOnUpdated : bool) (acts : list (Action BasicEnvInfo))
    (s : Stage CompositeEnvInfo) (o : list (Output BasicEnvInfo CompositeEnvInfo)) :
  reducerRun hasOnUpdated acts = Some (s, o) ->
  noUpdates acts = true ->
  forall o1 index old update o2,
    o = o1 ++ Fired (PythonEnvUpdatedEvent index old update) :: o2 ->
    exists oldEnv newEnv yielded,
      old = Some oldEnv /\ update = Some newEnv
      /\ yields o1 !! Z.to_nat index = Some yielded
      /\ identity yielded = identity oldEnv
      /\ identity newEnv = identity oldEnv
      /\ (forall k, k ∈ kind oldEnv -> k ∈ kind newEnv)
      /\ (forall src, src ∈ sourceOrEmpty oldEnv -> src ∈ sourceOrEmpty newEnv)
      /\ oldEnv <> newEnv.
Proof.
  revert acts s o.
  apply (run_history_invariant convertBasicToComposite hasOnUpdated reducerB
           (fun acts s o =>
              noUpdates acts = true ->
              forall o1 index old update o2,
                o = o1 ++ Fired (PythonEnvUpdatedEvent index old update) :: o2 ->
                exists oldEnv newEnv yielded,
                  old = Some oldEnv /\ update = Some newEnv
                  /\ yields o1 !! Z.to_nat index = Some yielded
                  /\ identity yielded = identity oldEnv
                  /\ identity newEnv = identity oldEnv
                  /\ (forall k, k ∈ kind oldEnv -> k ∈ kind newEnv)
                  /\ (forall src, src ∈ sourceOrEmpty oldEnv -> src ∈ sourceOrEmpty newEnv)
                  /\ oldEnv <> newEnv)).
  { intros _ o1 index old update o2 Heq. by destruct o1. }
  intros acts a s o s' o1 Hrun IH Hstep Hno.
  rewrite noUpdates_app in Hno. apply andb_prop in Hno as [Hno Ha].
  cbn in Ha. rewrite andb_true_r in Ha. apply negb_true_iff in Ha.
  specialize (IH Hno). destruct (reducer_inv _ _ _ _ Hrun) as [HI _].
  destruct (reducer_run_collected _ _ _ _ Hrun Hno) as [_ Hids].
  pose proof (inv_settled _ _ _ HI) as Hsettled.
  assert (Hkeep : forall x, (forall index old update,
                     x <> Fired (PythonEnvUpdatedEvent index old update)) ->
            forall o1' index old update o2,
              o ++ [x] = o1' ++ Fired (PythonEnvUpdatedEvent index old update) :: o2 ->
              exists oldEnv newEnv yielded,
                old = Some oldEnv /\ update = Some newEnv
                /\ yields o1' !! Z.to_nat index = Some yielded
                /\ identity yielded = identity oldEnv
                /\ identity newEnv = identity oldEnv
                /\ (forall k, k ∈ kind oldEnv -> k ∈ kind newEnv)
                /\ (forall src, src ∈ sourceOrEmpty oldEnv -> src ∈ sourceOrEmpty newEnv)
                /\ oldEnv <> newEnv).
  { intros x Hx o1' index old update o2 Heq.
    apply split_snoc in Heq as [(_ & _ & ->)|(o2' & _ & ->)]; [by destruct (Hx index old update)|].
    by eapply IH. }
  assert (Hcases : (exists v, a = UpstreamValue v)
                   \/ match a with UpstreamValue _ => False | _ => True end).
  { destruct a; eauto. }
  destruct Hcases as [[v ->]|Hnv].
  - unfold step in Hstep. destruct (generator s) eqn:Hg; simplify_eq.
    assert (He : emitted s = seen s) by (unfold emitted; by rewrite Hg, app_nil_r).
    rewrite He in Hids.
    destruct (decide (basicIdentity v ∈ identity <$> seen s)) as [Hin|Hnotin].
    + destruct (reducer_loopBody_known (convertBasicToComposite v) s Hsettled Hin)
        as (i & oldEnv0 & Hi & Hid & _ & Heq). cbn zeta in Heq.
      assert (Hsameenv : areSameEnv oldEnv0 (convertBasicToComposite v) = true).
      { unfold areSameEnv. by apply bool_decide_eq_true_2. }
      pose proof (oldAfter_identity sortKindFunction sortExtensionSource oldEnv0
                    (convertBasicToComposite v)) as Hoid.
      pose proof (merged_identity sortKindFunction sortExtensionSource oldEnv0
                    (convertBasicToComposite v) Hsameenv) as Hmid.
      assert (Hkinds : forall k,
                k ∈ kind (oldAfter (resolveB oldEnv0 (convertBasicToComposite v))) ->
                k ∈ kind (merged (resolveB oldEnv0 (convertBasicToComposite v)))).
      { intros k Hk. apply elem_of_merged_kind. left.
        destruct (resolveEnvCollision_operands sortKindFunction sortExtensionSource
                    oldEnv0 (convertBasicToComposite v)) as [Hold _].
        rewrite Hold in Hk. cbn in Hk. by apply elem_of_sortKinds in Hk. }
      assert (Hsources : forall src,
                src ∈ sourceOrEmpty (oldAfter (resolveB oldEnv0 (convertBasicToComposite v))) ->
                src ∈ sourceOrEmpty (merged (resolveB oldEnv0 (convertBasicToComposite v)))).
      { intros src Hsrc. apply elem_of_merged_source. left.
        destruct (resolveEnvCollision_operands sortKindFunction sortExtensionSource
                    oldEnv0 (convertBasicToComposite v)) as [Hold _].
        by rewrite Hold in Hsrc. }
      remember (resolveB oldEnv0 (convertBasicToComposite v)) as r eqn:Hr.
      rewrite Heq in Hstep. injection Hstep as <- <-.
      unfold lodash_isEqual.
      destruct (decide (oldAfter r = merged r)) as [Hsame|Hdiff].
      { rewrite bool_decide_eq_true_2 by done. cbn. by rewrite app_nil_r. }
      rewrite bool_decide_eq_false_2 by done. cbn [orb].
      destruct (disposed s); [by rewrite app_nil_r|].
      intros o1' index old update o2 Hsplit.
      apply split_snoc in Hsplit as [(_ & -> & Hx)|(o2' & _ & ->)]; [|by eapply IH].
      injection Hx as <- <- <-. rewrite Nat2Z.id.
      assert (Hy : exists yielded, yields o !! i = Some yielded
                                   /\ identity yielded = identity oldEnv0).
      { assert (Hl : (identity <$> yields o) !! i = Some (identity oldEnv0)).
        { by rewrite <- Hids, list_lookup_fmap, Hi. }
        rewrite list_lookup_fmap in Hl. destruct (yields o !! i) as [y|]; [|done].
        exists y. split; [done|]. cbn in Hl. congruence. }
      destruct Hy as (yielded & Hy & Hyid).
      exists (oldAfter r), (merged r), yielded.
      split; [done|]. split; [done|]. split; [done|].
      split; [congruence|]. split; [congruence|]. done.
    + rewrite (reducer_loopBody_fresh (convertBasicToComposite v) s Hsettled Hnotin) in Hstep.
      injection Hstep as <- <-. by apply Hkeep.
  - destruct (step_other_output _ _ _ _ _ _ _ _ HI Hstep Ha Hnv)
      as [->|[stage ->]]; [by rewrite app_nil_r|]. by apply Hkeep.
Qed.

End ReducerBuffer.

(** X16 (a record of a known environment): when the reducer receives a
    record whose environment has an entry in the buffer, it yields nothing;
    the first entry of that environment becomes the merge of the entry and
    the record, and one update notification for the entry's index is
    delivered, unless the merge changed nothing or Finished is already out. *)
Theorem reducer_repeated_record
    (sortKindFunction : PythonEnvKind -> PythonEnvKind -> Z)
    (sortExtensionSource : string -> string -> Z) (hasOnUpdated : bool)
    (acts : list (Action BasicEnvInfo)) (s : Stage CompositeEnvInfo)
    (o : list (Output BasicEnvInfo CompositeEnvInfo)) (v : BasicEnvInfo) :
  PythonEnvsReducer.iterEnvsIterator sortKindFunction sortExtensionSource hasOnUpdated acts
  = Some (s, o) ->
  generator s = AwaitingNext ->
  basicIdentity v ∈ identity <$> seen s ->
  exists (i : nat) (oldEnv0 : CompositeEnvInfo),
    seen s !! i = Some oldEnv0
    /\ identity oldEnv0 = basicIdentity v
    /\ (forall j x, seen s !! j = Some x -> identity x = basicIdentity v -> (i <= j)%nat)
    /\ let r := resolveEnvCollision sortKindFunction sortExtensionSource oldEnv0
                  (convertBasicToComposite v) in
       stageStep (reducerStage sortKindFunction sortExtensionSource) hasOnUpdated
         (UpstreamValue v) s
       = Some (set_seen (<[i := merged r]> (seen s)) s,
               if lodash_isEqual (oldAfter r) (merged r) || disposed s then []
               else [Fired (PythonEnvUpdatedEvent (Z.of_nat i) (Some (oldAfter r))
                              (Some (merged r)))]).
Proof.
  intros Hrun Hg Hin.
  destruct (reducer_inv _ _ _ _ _ _ Hrun) as [HI _].
  destruct (reducer_loopBody_known sortKindFunction sortExtensionSource
              (convertBasicToComposite v) s (inv_settled _ _ _ HI) Hin)
    as (i & oldEnv0 & Hi & Hid & Hmin & Heq).
  exists i, oldEnv0. split; [done|]. split; [done|]. split; [done|].
  cbn zeta in *. unfold stageStep, step.
  cbn [convertOf loopBodyOf Incoming Outgoing reducerStage]. by rewrite Hg, Heq.
Qed.

Lemma reducer_repeated_record_witness :
  exists s o oldEnv0,
    exampleReducer true [Pull; UpstreamValue venv39; Pull] = Some (s, o)
    /\ seen s !! 0%nat = Some oldEnv0
    /\ stageStep (reducerStage exampleSortKind exampleSortExtension) true
         (UpstreamValue system39) s
       = Some (set_seen (<[0%nat := merged (resolveEnvCollision exampleSortKind
                                             exampleSortExtension oldEnv0
                                             (convertBasicToComposite system39))]> (seen s)) s,
               [Fired (PythonEnvUpdatedEvent 0
                         (Some (convertBasicToComposite venv39))
                         (Some (mkCompositeEnvInfo "/usr/bin/python3.9" ""
                                  [PythonEnvKind_Venv; PythonEnvKind_System]
                                  (Some ["producerA"; "producerB"]) "producerA")))]).
Proof.
  destruct (exampleReducer true [Pull; UpstreamValue venv39; Pull]) as [[s o]|] eqn:Hrun;
    [|by vm_compute in Hrun].
  assert (Hs : s = mkStage false 0 [convertBasicToComposite venv39] true false AwaitingNext)
    by (vm_compute in Hrun; by simplify_eq).
  destruct (reducer_repeated_record exampleSortKind exampleSortExtension true
              [Pull; UpstreamValue venv39; Pull] s o system39 Hrun)
    as (i & oldEnv0 & Hi & _ & _ & Hstep).
  - by rewrite Hs.
  - rewrite Hs. vm_compute. by left.
  - assert (i = 0%nat) as ->.
    { apply lookup_lt_Some in Hi. rewrite Hs in Hi. cbn in Hi. lia. }
    exists s, o, oldEnv0. split; [done|]. split; [done|].
    cbn zeta in Hstep. rewrite Hstep. f_equal. f_equal.
    rewrite Hs in Hi. cbn in Hi. injection Hi as <-. rewrite Hs. vm_compute. reflexivity.
Defined.

(** X17 (nothing reported is lost): on a run without upstream update events,
    the buffer holds exactly one entry for every environment among the
    values received, in the order in which the environments were yielded;
    the kinds of an entry are exactly the kinds of the received records of
    its environment, and its sources exactly their provider identifiers. *)
Theorem reducer_collects_reports
    (sortKindFunction : PythonEnvKind -> PythonEnvKind -> Z)
    (sortExtensionSource : string -> string -> Z) (hasOnUpdated : bool)
    (acts : list (Action BasicEnvInfo)) (s : Stage CompositeEnvInfo)
    (o : list (Output BasicEnvInfo CompositeEnvInfo)) :
  noUpdates acts = true ->
  PythonEnvsReducer.iterEnvsIterator sortKindFunction sortExtensionSource hasOnUpdated acts
  = Some (s, o) ->
  NoDup (identity <$> emitted s)
  /\ identity <$> emitted s = identity <$> yields o
  /\ (forall v, v ∈ values acts -> basicIdentity v ∈ identity <$> emitted s)
  /\ (forall x, x ∈ emitted s ->
        (forall k, k ∈ kind x
                   <-> exists v, v ∈ values acts /\ basicIdentity v = identity x /\ bKind v = k)
        /\ (forall src, src ∈ sourceOrEmpty x
                        <-> exists v, v ∈ values acts /\ basicIdentity v = identity x
                                      /\ bExtensionId v = src)).
Proof.
  intros Hno Hrun.
  destruct (reducer_run_collected _ _ _ _ _ _ Hrun Hno) as [[C1 C2 C3 C4] Hids].
  split; [done|]. split; [done|]. split; [done|].
  intros x Hx. split; [intros k; by apply C3|intros src; by apply C4].
Qed.

Lemma reducer_collects_reports_witness :
  exists s o x,
    exampleReducer true collapsingTrace = Some (s, o)
    /\ seen s !! 0%nat = Some x
    /\ identity x = basicIdentity system39
    /\ PythonEnvKind_System ∈ kind x
    /\ "producerB" ∈ sourceOrEmpty x.
Proof.
  destruct (exampleReducer true collapsingTrace) as [[s o]|] eqn:Hrun;
    [|by vm_compute in Hrun].
  destruct (seen s !! 0%nat) as [x|] eqn:Hx;
    [|vm_compute in Hrun; by simplify_eq].
  assert (Hid : identity x = basicIdentity system39)
    by (vm_compute in Hrun; simplify_eq; cbn in Hx; by simplify_eq).
  assert (Hin : x ∈ emitted s).
  { unfold emitted. apply elem_of_app. left. by eapply list_elem_of_lookup_2. }
  destruct (reducer_collects_reports exampleSortKind exampleSortExtension true
              collapsingTrace s o eq_refl Hrun) as (_ & _ & _ & Hall).
  destruct (Hall x Hin) as [Hk Hsrc].
  exists s, o, x. split; [done|]. split; [done|]. split; [done|]. split.
  - apply Hk. exists system39. split; [|done]. right. by left.
  - apply Hsrc. exists system39. split; [|done]. right. by left.
Defined.

(** X18 (the reducer's own notifications): on a run without upstream update
    events, every update notification the reducer delivers is about the
    environment it yielded at the notification's index: the old and the new
    record have the identity of that value, the new record has every kind
    and every source of the old one, and the two records differ. *)
Theorem reducer_merge_notifications
    (sortKindFunction : PythonEnvKind -> PythonEnvKind -> Z)
    (sortExtensionSource : string -> string -> Z) (hasOnUpdated : bool)
    (acts : list (Action BasicEnvInfo)) (s : Stage CompositeEnvInfo)
    (o o1 o2 : list (Output BasicEnvInfo CompositeEnvInfo))
    (index : Z) (old update : option CompositeEnvInfo) :
  noUpdates acts = true ->
  PythonEnvsReducer.iterEnvsIterator sortKindFunction sortExtensionSource hasOnUpdated acts
  = Some (s, o) ->
  o = o1 ++ Fired (PythonEnvUpdatedEvent index old update) :: o2 ->
  exists oldEnv newEnv yielded,
    old = Some oldEnv /\ update = Some newEnv
    /\ yields o1 !! Z.to_nat index = Some yielded
    /\ identity yielded = identity oldEnv
    /\ identity newEnv = identity oldEnv
    /\ (forall k, k ∈ kind oldEnv -> k ∈ kind newEnv)
    /\ (forall src, src ∈ sourceOrEmpty oldEnv -> src ∈ sourceOrEmpty newEnv)
    /\ oldEnv <> newEnv.
Proof.
  intros Hno Hrun Ho.
  exact (reducer_run_notifications _ _ _ _ _ _ Hrun Hno o1 index old update o2 Ho).
Qed.

Lemma reducer_merge_notifications_witness :
  exists s old update yielded newEnv,
    exampleReducer true mergingTrace
    = Some (s, [Yielded (convertBasicToComposite venv39)]
               ++ [Fired (PythonEnvUpdatedEvent 0 old update)])
    /\ update = Some newEnv
    /\ yields [@Yielded BasicEnvInfo _ (convertBasicToComposite venv39)] !! Z.to_nat 0
       = Some yielded
    /\ identity newEnv = identity yielded.
Proof.
  assert (Hrun : exists s old update,
             exampleReducer true mergingTrace
             = Some (s, [Yielded (convertBasicToComposite venv39)]
                        ++ [Fired (PythonEnvUpdatedEvent 0 old update)])).
  { eexists _, _, _. vm_compute. reflexivity. }
  destruct Hrun as (s & old & update & Hrun).
  destruct (reducer_merge_notifications exampleSortKind exampleSortExtension true
              mergingTrace s _ [Yielded (convertBasicToComposite venv39)] [] 0 old update
              eq_refl Hrun eq_refl)
    as (oldEnv & newEnv & yielded & _ & Hupd & Hy & Hyid & Hnid & _).
  exists s, old, update, yielded, newEnv.
  split; [done|]. split; [done|]. split; [done|]. congruence.
Defined.

(** X19 (an update that changes the identity of an entry): after an update-free
    run, an upstream update whose record is of another environment than the
    entry at its index makes the reducer lose sight of the entry's
    environment; the next record of that environment is yielded as a new
    value, although a value of its identity was yielded before. *)
Theorem reducer_update_forgets_environment
    (sortKindFunction : PythonEnvKind -> PythonEnvKind -> Z)
    (sortExtensionSource : string -> string -> Z) (hasOnUpdated : bool)
    (acts : list (Action BasicEnvInfo)) (s : Stage CompositeEnvInfo)
    (o : list (Output BasicEnvInfo CompositeEnvInfo))
    (i : nat) (oldEnv : CompositeEnvInfo) (old : option BasicEnvInfo)
    (update v : BasicEnvInfo) :
  noUpdates acts = true ->
  PythonEnvsReducer.iterEnvsIterator sortKindFunction sortExtensionSource hasOnUpdated acts
  = Some (s, o) ->
  generator s = AwaitingNext ->
  listening s = true ->
  seen s !! i = Some oldEnv ->
  basicIdentity update <> identity oldEnv ->
  basicIdentity v = identity oldEnv ->
  identity (convertBasicToComposite v) ∈ identity <$> yields o
  /\ exists s',
       PythonEnvsReducer.iterEnvsIterator sortKindFunction sortExtensionSource hasOnUpdated
         (acts ++ [UpstreamEvent (PythonEnvUpdatedEvent (Z.of_nat i) old (Some update));
                   UpstreamValue v])
       = Some (s', o ++ [Fired (PythonEnvUpdatedEvent (Z.of_nat i) (Some oldEnv)
                                  (Some (convertBasicToComposite update)));
                         Yielded (convertBasicToComposite v)]).
Proof.
  intros Hno Hrun Hg Hl Hi Hupd Hv.
  destruct (reducer_inv _ _ _ _ _ _ Hrun) as [HI _].
  destruct (reducer_run_collected _ _ _ _ _ _ Hrun Hno) as [[C1 _ _ _] Hids].
  assert (He : emitted s = seen s) by (unfold emitted; by rewrite Hg, app_nil_r).
  rewrite He in *.
  split.
  { rewrite <- Hids. change (identity (convertBasicToComposite v)) with (basicIdentity v).
    rewrite Hv. apply list_elem_of_fmap. exists oldEnv. split; [done|].
    by eapply list_elem_of_lookup_2. }
  set (event := UpstreamEvent (PythonEnvUpdatedEvent (Z.of_nat i) old (Some update))).
  set (s1 := set_seen (<[Z.to_nat (Z.of_nat i) := convertBasicToComposite update]> (seen s)) s).
  assert (Hstep1 : step convertBasicToComposite hasOnUpdated
                     (PythonEnvsReducer.loopBody sortKindFunction sortExtensionSource) event s
                   = Some (s1, [Fired (PythonEnvUpdatedEvent (Z.of_nat i) (Some oldEnv)
                                         (Some (convertBasicToComposite update)))])).
  { apply (step_update_applied _ _ _ _ o (Z.of_nat i) old update oldEnv HI Hl).
    by rewrite at_index_of_nat. }
  pose proof (step_inv _ _ _ (reducer_loopBody_frame _ _) _ _ _ _ _ HI Hstep1) as HI1.
  assert (Hfresh : identity (convertBasicToComposite v) ∉ identity <$> seen s1).
  { unfold s1. cbn [seen set_seen]. rewrite Nat2Z.id.
    intros (x & Hx & [->|(j & Hne & Hj)]%elem_of_insert_inv)%list_elem_of_fmap.
    - apply Hupd. rewrite <- Hv. done.
    - apply Hne. eapply (NoDup_lookup _ _ _ _ C1); rewrite list_lookup_fmap.
      + by rewrite Hj.
      + rewrite Hi. cbn. f_equal. rewrite <- Hx. by rewrite <- Hv. }
  assert (Hstep2 : step convertBasicToComposite hasOnUpdated
                     (PythonEnvsReducer.loopBody sortKindFunction sortExtensionSource)
                     (UpstreamValue v) s1
                   = Some (set_generator (SuspendedAtYield (convertBasicToComposite v)) s1,
                           [Yielded (convertBasicToComposite v)])).
  { unfold step. replace (generator s1) with (@AwaitingNext CompositeEnvInfo) by done.
    by rewrite (reducer_loopBody_fresh _ _ _ _ (inv_settled _ _ _ HI1) Hfresh). }
  eexists.
  change (acts ++ [event; UpstreamValue v]) with (acts ++ [event] ++ [UpstreamValue v]).
  rewrite app_assoc.
  unfold PythonEnvsReducer.iterEnvsIterator.
  rewrite (run_snoc _ _ _ _ _ _ _ _ _
             (run_snoc _ _ _ _ _ _ _ _ _ Hrun Hstep1) Hstep2).
  by rewrite <- app_assoc.
Qed.

Lemma reducer_update_forgets_environment_witness :
  exists s o s' o',
    exampleReducer true collapsingTrace = Some (s, o)
    /\ exampleReducer true
         (collapsingTrace ++
          [UpstreamEvent (PythonEnvUpdatedEvent (Z.of_nat 1) (Some system39) (Some system39));
           UpstreamValue system310]) = Some (s', o')
    /\ identity <$> yields o = [("/usr/bin/python3.9", ""); ("/usr/bin/python3.10", "")]
    /\ last o' = Some (Yielded (convertBasicToComposite system310)).
Proof.
  destruct (exampleReducer true collapsingTrace) as [[s o]|] eqn:Hrun;
    [|by vm_compute in Hrun].
  assert (Hs : s = mkStage false 0
                     [merged (resolveEnvCollision exampleSortKind exampleSortExtension
                                (convertBasicToComposite venv39)
                                (convertBasicToComposite system39));
                      convertBasicToComposite system310] true false AwaitingNext
               /\ identity <$> yields o
                  = [("/usr/bin/python3.9", ""); ("/usr/bin/python3.10", "")]).
  { vm_compute in Hrun. by simplify_eq. }
  destruct Hs as [Hs Hy].
  assert (Hg : generator s = AwaitingNext) by (by rewrite Hs).
  assert (Hl : listening s = true) by (by rewrite Hs).
  assert (Hi : seen s !! 1%nat = Some (convertBasicToComposite system310))
    by (by rewrite Hs).
  assert (Hne : basicIdentity system39 <> identity (convertBasicToComposite system310))
    by (vm_compute; congruence).
  destruct (reducer_update_forgets_environment exampleSortKind exampleSortExtension true
              collapsingTrace s o 1 (convertBasicToComposite system310) (Some system39)
              system39 system310 eq_refl Hrun Hg Hl Hi Hne eq_refl) as [_ (s' & Hrun')].
  eexists s, o, s', _. split; [done|]. split; [exact Hrun'|]. split; [done|].
  by rewrite last_app.
Defined.

(** ** The adapter's streams *)

Section AdapterStream.
Variable extId : string.
Variable hasOnUpdated : bool.

Abbreviation adapterRun := (ConvertLocator.iterEnvsIterator extId hasOnUpdated).

Lemma adapter_run_yields (acts : list (Action EnvInfo)) (s : Stage BasicEnvInfo)
    (o : list (Output EnvInfo BasicEnvInfo)) :
  adapterRun acts = Some (s, o) ->
  yields o = convertToBasicEnv extId <$> values acts
  /\ Forall (fun env => bExtensionId env = extId) (emitted s)
  /\ Forall (attributed extId) o.
Proof.
  revert acts s o.
  apply (run_history_invariant (convertToBasicEnv extId) hasOnUpdated ConvertLocator.loopBody
           (fun acts s o =>
              yields o = convertToBasicEnv extId <$> values acts
              /\ Forall (fun env => bExtensionId env = extId) (emitted s)
              /\ Forall (attributed extId) o)).
  { done. }
  intros acts a s o s' o1 Hrun (Hy & Hseen & Hout) Hstep.
  pose proof (run_inv _ _ _ adapter_loopBody_frame acts s o Hrun) as HI.
  pose proof (step_cases _ _ _ _ _ _ _ _ HI Hstep) as Hc.
  assert (Hgoal : yields o1 = convertToBasicEnv extId <$> values [a]
                  /\ Forall (fun env => bExtensionId env = extId) (emitted s')
                  /\ Forall (attributed extId) o1).
  { unfold emitted in *.
    assert (Hprogress : forall stage,
              Forall (attributed extId)
                [@Fired EnvInfo BasicEnvInfo (ProgressNotificationEvent stage)])
      by (intros; by apply Forall_singleton).
    destruct a as [|v| |e].
    - destruct (generator s) as [| |currEnv|] eqn:Hg; destruct Hc as [-> ->];
        cbn [seen generator set_generator set_seen set_listening yields values omap fmap
             list_fmap];
        rewrite ?Hg, ?app_nil_r in *.
      + destruct hasOnUpdated; cbn; repeat split; try done; by constructor.
      + repeat split; try done; by constructor.
      + repeat split; try done; by constructor.
      + repeat split; try done; by constructor.
    - destruct Hc as [Hg Hbody]. rewrite Hg, app_nil_r in Hseen.
      unfold ConvertLocator.loopBody, yield, andThen, emit, modify in Hbody.
      injection Hbody as <- <-. cbn.
      split; [done|]. split.
      + apply Forall_app. split; [done|]. by apply Forall_singleton.
      + by apply Forall_singleton.
    - destruct Hc as [Hg Hc]. rewrite Hg in Hseen.
      destruct hasOnUpdated; destruct Hc as [-> ->]; cbn;
        repeat split; try done; by constructor.
    - destruct (listening s).
      + destruct e as [[]|index old [update|]].
        * destruct Hc as [-> ->]. repeat split; try done; by constructor.
        * destruct (pending s =? 0); destruct Hc as [-> ->]; cbn;
            repeat split; try done; by constructor.
        * destruct (at_index (seen s) index) as [oldEnv|] eqn:Hat; destruct Hc as [-> ->];
            cbn.
          -- apply at_index_Some in Hat as [_ Hat].
             apply Forall_app in Hseen as [Hseen Hsusp].
             split; [done|]. split.
             ++ apply Forall_app. split; [|done]. by apply Forall_insert.
             ++ apply Forall_singleton. cbn. split; intros env [= <-]; [|done].
                rewrite Forall_forall in Hseen. apply Hseen.
                by eapply list_elem_of_lookup_2.
          -- repeat split; try done; by constructor.
        * destruct Hc as [-> ->]. repeat split; try done; by constructor.
      + destruct Hc as [-> ->]. repeat split; try done; by constructor. }
  destruct Hgoal as (H1 & H2 & H3).
  rewrite values_app, yields_app, fmap_app, Hy, H1.
  split; [done|]. split; [done|]. apply Forall_app. done.
Qed.

End AdapterStream.

(** X20 (the adapter passes every value on): the adapter yields the
    conversion of every value it receives, in order and without dropping
    or merging any, whatever events arrive in between; every record it
    yields or delivers in an update notification carries the provider
    identifier of the adapter's metadata. *)
Theorem adapter_yields_every_value (extId : string) (hasOnUpdated : bool)
    (acts : list (Action EnvInfo)) (s : Stage BasicEnvInfo)
    (o : list (Output EnvInfo BasicEnvInfo)) :
  ConvertLocator.iterEnvsIterator extId hasOnUpdated acts = Some (s, o) ->
  yields o = convertToBasicEnv extId <$> values acts
  /\ length (yields o) = length (values acts)
  /\ Forall (attributed extId) o.
Proof.
  intros Hrun. destruct (adapter_run_yields _ _ _ _ _ Hrun) as (Hy & _ & Hattr).
  split; [done|]. split; [|done]. by rewrite Hy, length_fmap.
Qed.

Lemma adapter_yields_every_value_witness :
  exists s o,
    ConvertLocator.iterEnvsIterator "publisher.extension" true
      [Pull; UpstreamValue external39; Pull; UpstreamValue external39; Pull] = Some (s, o)
    /\ yields o = [convertToBasicEnv "publisher.extension" external39;
                   convertToBasicEnv "publisher.extension" external39].
Proof.
  destruct (ConvertLocator.iterEnvsIterator "publisher.extension" true
              [Pull; UpstreamValue external39; Pull; UpstreamValue external39; Pull])
    as [[s o]|] eqn:Hrun; [|by vm_compute in Hrun].
  exists s, o. split; [done|].
  exact (proj1 (adapter_yields_every_value _ _ _ _ _ Hrun)).
Defined.

(** ** The buffer and the consumer *)

Lemma Forall2_insert_right {A B : Type} (R : A -> B -> Prop) (l : list A) (k : list B)
    (i : nat) (y : B) :
  Forall2 R l k -> (forall x, l !! i = Some x -> R x y) -> Forall2 R l (<[i := y]> k).
Proof.
  intros HF. revert i. induction HF as [|a b l k Hab HF IH]; intros i Hy; [constructor|].
  destruct i as [|i]; cbn.
  - constructor; [by apply Hy|done].
  - constructor; [done|]. apply IH. intros x Hx. by apply Hy.
Qed.

Section ViewFacts.
Context {I O : Type}.
Variable convertItem : I -> O.
Variable hasOnUpdated : bool.
Variable loopBody : O -> @Eff I O.
Variable strict : bool.
Variable R : O -> O -> Prop.

Hypothesis loopBody_frame : LoopBodyFrame loopBody.
Hypothesis loopBody_view : LoopBodyView strict R loopBody.
Hypothesis R_refl : forall x, R x x.

Lemma replay_app (outs o : list (Output I O)) :
  replay (outs ++ o) = fold_left replayOne o (replay outs).
Proof. unfold replay. by rewrite fold_left_app. Qed.

Lemma run_view (acts : list (Action I)) (s : Stage O) (o : list (Output I O)) :
  run convertItem hasOnUpdated loopBody acts = Some (s, o) ->
  strict = false \/ disposed s = false \/ hasOnUpdated = false ->
  Forall2 R (replay o) (emitted s).
Proof.
  revert acts s o.
  apply (run_invariant convertItem hasOnUpdated loopBody loopBody_frame
           (fun s o => strict = false \/ disposed s = false \/ hasOnUpdated = false ->
                       Forall2 R (replay o) (emitted s))).
  { intros _. constructor. }
  intros s outs a s' o HI IH Hstep Hok'.
  destruct (step_finished _ _ _ loopBody_frame _ _ _ _ _ HI Hstep) as [_ Hmono].
  assert (Hok : strict = false \/ disposed s = false \/ hasOnUpdated = false).
  { destruct Hok' as [?|[Hdp|?]]; [by left| |by right; right].
    right. left. destruct (disposed s); [|done]. by rewrite Hmono in Hdp. }
  specialize (IH Hok). rewrite replay_app.
  pose proof (step_cases _ _ _ _ _ _ _ _ HI Hstep) as Hc.
  unfold emitted in *.
  destruct a as [|v| |e].
  - destruct (generator s) as [| |currEnv|] eqn:Hg; destruct Hc as [-> ->].
    + destruct hasOnUpdated; cbn; rewrite ?app_nil_r in *; done.
    + cbn. by rewrite Hg.
    + cbn. by rewrite app_nil_r.
    + cbn. by rewrite Hg.
  - destruct Hc as [Hg Hbody]. rewrite Hg, app_nil_r in IH.
    apply (loopBody_view _ _ _ _ _ Hbody Hg (inv_settled _ _ _ HI)); [|done].
    intros Hstrict. destruct Hok as [?|[?|Hu]]; [congruence|done|].
    destruct (disposed s) eqn:Hdp; [|done].
    destruct (proj1 (inv_disposed _ _ _ HI) Hdp) as [Hdone _].
    destruct (inv_plain _ _ _ HI Hu) as [_ [Hret _]]. specialize (Hret Hdone). congruence.
  - destruct Hc as [Hg Hc]. rewrite Hg in IH.
    destruct hasOnUpdated; destruct Hc as [-> ->]; cbn; done.
  - destruct (listening s) eqn:Hl; [|destruct Hc as [-> ->]; done].
    destruct e as [[]|index old [update|]].
    + destruct Hc as [-> ->]. done.
    + destruct (pending s =? 0); destruct Hc as [-> ->]; done.
    + destruct (at_index (seen s) index) as [oldEnv|] eqn:Hat; destruct Hc as [-> ->];
        [|done].
      apply at_index_Some in Hat as [Hi Hat]. cbn.
      replace (0 <=? index) with true by (symmetry; apply Z.leb_le; lia).
      rewrite <- insert_app_l by (apply lookup_lt_Some in Hat; done).
      by apply Forall2_insert.
    + destruct Hc as [-> ->]. done.
Qed.

End ViewFacts.

Lemma adapter_loopBody_view : LoopBodyView false eq ConvertLocator.loopBody.
Proof.
  intros env s s' o l Hbody Hg Hsettled _ Hl.
  unfold ConvertLocator.loopBody, yield, andThen, emit, modify in Hbody.
  injection Hbody as <- <-. cbn. unfold emitted. cbn.
  apply Forall2_app; [done|]. by constructor.
Qed.

Lemma sameUpToKindOrder_refl (x : CompositeEnvInfo) : sameUpToKindOrder x x.
Proof. by repeat split. Qed.

Lemma sameUpToKindOrder_trans (x y z : CompositeEnvInfo) :
  sameUpToKindOrder x y -> sameUpToKindOrder y z -> sameUpToKindOrder x z.
Proof.
  intros (? & ? & ? & ? & ?) (? & ? & ? & ? & ?).
  repeat split; try congruence. by etrans.
Qed.

Lemma reducer_loopBody_view (sortKindFunction : PythonEnvKind -> PythonEnvKind -> Z)
    (sortExtensionSource : string -> string -> Z) :
  LoopBodyView true sameUpToKindOrder
    (PythonEnvsReducer.loopBody sortKindFunction sortExtensionSource).
Proof.
  intros env s s' o l Hbody Hg Hsettled Hdp Hl. specialize (Hdp eq_refl).
  destruct (decide (identity env ∈ identity <$> seen s)) as [Hin|Hnotin].
  - destruct (reducer_loopBody_known sortKindFunction sortExtensionSource env s Hsettled Hin)
      as (i & oldEnv0 & Hi & Hid & _ & Heq). cbn zeta in Heq.
    assert (Hold : sameUpToKindOrder oldEnv0
                     (oldAfter (resolveEnvCollision sortKindFunction sortExtensionSource
                                  oldEnv0 env))).
    { destruct (resolveEnvCollision_operands sortKindFunction sortExtensionSource
                  oldEnv0 env) as [-> _].
      repeat split; try done. cbn. symmetry. apply Array_sort_perm. }
    remember (resolveEnvCollision sortKindFunction sortExtensionSource oldEnv0 env)
      as r eqn:Hr.
    rewrite Heq in Hbody. injection Hbody as <- <-.
    unfold emitted. cbn [seen generator set_seen].
    rewrite Hg, app_nil_r, Hdp, orb_false_r.
    unfold lodash_isEqual. destruct (decide (oldAfter r = merged r)) as [Hsame|Hdiff].
    + rewrite bool_decide_eq_true_2 by done. cbn.
      apply Forall2_insert_right; [done|]. intros x Hx.
      destruct (Forall2_lookup_l _ _ _ _ _ Hl Hx) as (y & Hy & HR).
      rewrite Hi in Hy. injection Hy as <-.
      eapply sameUpToKindOrder_trans; [exact HR|]. by rewrite <- Hsame.
    + rewrite bool_decide_eq_false_2 by done. cbn.
      replace (0 <=? Z.of_nat i) with true by (symmetry; apply Z.leb_le; lia).
      rewrite Nat2Z.id. apply Forall2_insert; [done|]. apply sameUpToKindOrder_refl.
  - rewrite (reducer_loopBody_fresh _ _ _ _ Hsettled Hnotin) in Hbody.
    injection Hbody as <- <-. cbn. unfold emitted. cbn.
    apply Forall2_app; [done|]. constructor; [|done]. apply sameUpToKindOrder_refl.
Qed.

(** X21 (the adapter's buffer is what the consumer holds): at every point of
    every run of the adapter, a consumer that keeps the values it was given
    and applies each update notification at its index holds exactly the
    adapter's buffer, with the value last yielded at its end. *)
Theorem adapter_buffer_is_replay (extId : string) (hasOnUpdated : bool)
    (acts : list (Action EnvInfo)) (s : Stage BasicEnvInfo)
    (o : list (Output EnvInfo BasicEnvInfo)) :
  ConvertLocator.iterEnvsIterator extId hasOnUpdated acts = Some (s, o) ->
  replay o = emitted s.
Proof.
  intros Hrun. apply list_eq_Forall2.
  apply (run_view (convertToBasicEnv extId) hasOnUpdated ConvertLocator.loopBody false eq
           adapter_loopBody_frame adapter_loopBody_view
           (fun x => eq_refl) acts s o Hrun).
  by left.
Qed.

Lemma adapter_buffer_is_replay_witness :
  exists s o,
    ConvertLocator.iterEnvsIterator "publisher.extension" true
      [Pull; UpstreamValue external39; Pull;
       UpstreamEvent (PythonEnvUpdatedEvent 0 None (Some external310))] = Some (s, o)
    /\ replay o = [convertToBasicEnv "publisher.extension" external310]
    /\ seen s = [convertToBasicEnv "publisher.extension" external310].
Proof.
  destruct (ConvertLocator.iterEnvsIterator "publisher.extension" true
              [Pull; UpstreamValue external39; Pull;
               UpstreamEvent (PythonEnvUpdatedEvent 0 None (Some external310))])
    as [[s o]|] eqn:Hrun; [|by vm_compute in Hrun].
  pose proof (adapter_buffer_is_replay _ _ _ _ _ Hrun) as Hview.
  assert (Hs : emitted s = [convertToBasicEnv "publisher.extension" external310]
               /\ seen s = [convertToBasicEnv "publisher.extension" external310])
    by (vm_compute in Hrun; by simplify_eq).
  exists s, o. split; [done|]. rewrite Hview. done.
Defined.

(** X22 (the reducer's buffer is what the consumer holds, up to the order of
    kinds): until the reducer has delivered Finished, and at every point
    when its upstream has no notification source, a consumer that keeps the
    values it was given and applies each update notification at its index
    holds the reducer's buffer: the same entries in the same order, each
    with the same fields and the same kinds, the kinds possibly in another
    order. *)
Theorem reducer_buffer_is_replay
    (sortKindFunction : PythonEnvKind -> PythonEnvKind -> Z)
    (sortExtensionSource : string -> string -> Z) (hasOnUpdated : bool)
    (acts : list (Action BasicEnvInfo)) (s : Stage CompositeEnvInfo)
    (o : list (Output BasicEnvInfo CompositeEnvInfo)) :
  PythonEnvsReducer.iterEnvsIterator sortKindFunction sortExtensionSource hasOnUpdated acts
  = Some (s, o) ->
  finishedCount o = 0%nat \/ hasOnUpdated = false ->
  Forall2 sameUpToKindOrder (replay o) (emitted s).
Proof.
  intros Hrun Hok.
  apply (run_view convertBasicToComposite hasOnUpdated
           (PythonEnvsReducer.loopBody sortKindFunction sortExtensionSource)
           true sameUpToKindOrder
           (reducer_loopBody_frame _ _) (reducer_loopBody_view _ _) sameUpToKindOrder_refl acts s o Hrun).
  right. destruct Hok as [Hfin|Hu]; [left|by right].
  destruct (reducer_inv _ _ _ _ _ _ Hrun) as [HI _].
  pose proof (inv_finished _ _ _ HI) as Hf. destruct (disposed s); [lia|done].
Qed.

Lemma reducer_buffer_is_replay_witness :
  exists s o,
    PythonEnvsReducer.iterEnvsIterator exampleSortKind exampleSortExtension true
      [Pull; UpstreamValue conda39; Pull; UpstreamValue unknown39;
       UpstreamValue venv39; UpstreamValue conda39] = Some (s, o)
    /\ kind <$> replay o = [[PythonEnvKind_Conda; PythonEnvKind_Unknown; PythonEnvKind_Venv]]
    /\ kind <$> seen s = [[PythonEnvKind_Conda; PythonEnvKind_Venv; PythonEnvKind_Unknown]]
    /\ Forall2 sameUpToKindOrder (replay o) (emitted s).
Proof.
  destruct (PythonEnvsReducer.iterEnvsIterator exampleSortKind exampleSortExtension true
              [Pull; UpstreamValue conda39; Pull; UpstreamValue unknown39;
               UpstreamValue venv39; UpstreamValue conda39])
    as [[s o]|] eqn:Hrun; [|by vm_compute in Hrun].
  assert (Hfacts : kind <$> replay o
                   = [[PythonEnvKind_Conda; PythonEnvKind_Unknown; PythonEnvKind_Venv]]
                   /\ kind <$> seen s
                      = [[PythonEnvKind_Conda; PythonEnvKind_Venv; PythonEnvKind_Unknown]]
                   /\ finishedCount o = 0%nat).
  { vm_compute in Hrun. injection Hrun as <- <-. vm_compute. done. }
  destruct Hfacts as (Hreplay & Hseen & Hfin).
  exists s, o. split; [done|]. split; [done|]. split; [done|].
  apply (reducer_buffer_is_replay exampleSortKind exampleSortExtension true _ s o Hrun).
  by left.
Defined.
